(** * Location720: history processing, crash detection and playback lookup

    A shallow embedding of the algorithmic core of
    [custom_components/location720/www/location720.js]:
    [GeoUtils], [HistoryAPI] ([processHistory], [_calculateStats],
    [_detectTrips], [_calculateZoneTime]), [CrashDetector] and the point
    lookup of [Location720Card._updateMarkersToTime].

    Conventions of the embedding.
    - Instants ([new Date(x).getTime()], [Date.now()]) are epoch
      milliseconds in [Z]; a timestamp that does not parse is outside the
      model.
    - Numbers read from the host (coordinates, accuracy, speeds of live
      readings, configuration thresholds) are finite doubles, hence
      rationals: [Q].  A missing, [null] or [NaN] value is [None].
    - Numbers computed by the script with floating-point arithmetic
      (haversine distance, derived speed, durations in seconds) are
      idealised as real numbers [R]: rounding is not modelled.  The
      loops that add durations up, where rounding shows, are given on
      IEEE doubles as well (module [Loops]).
    - JS objects used as dictionaries are [gmap string _]; keys are assumed
      not to collide with the properties inherited from [Object.prototype].
    - The zone directory is the list of its entries in [Object.entries]
      order; every zone has a name.
    - The instants read by one call of [addReading] ([Date.now()] in
      [addReading], [_checkForCrash] and [_triggerPendingAlert]) are one
      instant [now], passed by the caller.
    - [setTimeout] and [clearTimeout] act on a table of queued callbacks;
      the host runs a queued callback through [fire_timer].
    - [toLowerCase] maps the ASCII capitals; the text of the notification
      ([_buildMessage]) is not modelled. *)

From Stdlib Require Import Reals Lra Lia ZArith QArith Qround Qabs String Ascii.
From Stdlib Require Import DecimalString.
From Stdlib Require Lqa Floats.
From stdpp Require Import gmap strings list.

(** ** Truthiness and comparisons *)

Definition Rgtb (a b : R) : bool := if Rgt_dec a b then true else false.
Definition Rleb (a b : R) : bool := if Rle_dec a b then true else false.
Definition Rltb (a b : R) : bool := if Rlt_dec a b then true else false.

Definition Qltb (a b : Q) : bool := negb (Qle_bool b a).
Definition Qgtb (a b : Q) : bool := Qltb b a.

(** A number is truthy when it is present and not zero. *)
Definition truthy_num (x : option Q) : bool :=
  match x with
  | Some q => negb (Qeq_bool q 0)
  | None => false
  end.

(** A string is truthy when it is present and not empty. *)
Definition truthy_str (x : option string) : bool :=
  match x with
  | Some EmptyString => false
  | Some _ => true
  | None => false
  end.

(** [x || null] on an optional string. *)
Definition or_null (x : option string) : option string :=
  if truthy_str x then x else None.

(** ** GeoUtils *)

Module GeoUtils.

Record LatLng := { lat : Q; lng : Q }.

Definition R_earth : R := 6371000%R.

Definition toRad (deg : R) : R := (deg * PI / 180)%R.

(** [Math.atan2 y x]. *)
Definition atan2 (y x : R) : R :=
  if Rlt_dec 0 x then atan (y / x)
  else if Rlt_dec x 0 then
    (if Rle_dec 0 y then atan (y / x) + PI else atan (y / x) - PI)%R
  else if Rlt_dec 0 y then (PI / 2)%R
  else if Rlt_dec y 0 then (- PI / 2)%R
  else 0%R.

Definition hav_a (p1 p2 : LatLng) : R :=
  let dLat := toRad (Q2R (lat p2) - Q2R (lat p1)) in
  let dLon := toRad (Q2R (lng p2) - Q2R (lng p1)) in
  ((sin (dLat / 2)) ^ 2 +
   cos (toRad (Q2R (lat p1))) * cos (toRad (Q2R (lat p2))) *
   (sin (dLon / 2)) ^ 2)%R.

(** Great-circle distance in metres. *)
Definition distance (p1 p2 : LatLng) : R :=
  let a := hav_a p1 p2 in
  (R_earth * 2 * atan2 (sqrt a) (sqrt (1 - a)))%R.

(** Speed in km/h between two fixes taken at [t1] and [t2]. *)
Definition speed (p1 : LatLng) (t1 : Z) (p2 : LatLng) (t2 : Z) : R :=
  let dist := distance p1 p2 in
  let timeMs := (t2 - t1)%Z in
  if (timeMs <=? 0)%Z then 0%R
  else ((dist / 1000) / (IZR timeMs / 3600000))%R.

Fixpoint routeSum (prev : LatLng) (rest : list LatLng) : R :=
  match rest with
  | [] => 0%R
  | p :: rest' => (distance prev p + routeSum p rest')%R
  end.

(** Length of a route in kilometres. *)
Definition routeDistance (points : list LatLng) : R :=
  match points with
  | [] => 0%R
  | p :: rest => (routeSum p rest / 1000)%R
  end.

Record Zone := { zname : string; zlat : Q; zlng : Q; radius : Q }.

Definition inZone (point : LatLng) (zone : Zone) : bool :=
  Rleb (distance point {| lat := zlat zone; lng := zlng zone |})
       (Q2R (radius zone)).

(** First entry, in enumeration order, whose circle contains the point. *)
Fixpoint findZone (point : LatLng) (zones : list (string * Zone))
  : option (string * Zone) :=
  match zones with
  | [] => None
  | (id, zone) :: rest =>
      if inZone point zone then Some (id, zone) else findZone point rest
  end.

Definition isMoving (speed : R) : bool := Rgtb speed 5.
Definition isDriving (speed : R) : bool := Rgtb speed 25.

End GeoUtils.

(** ** HistoryAPI: data model *)

Module History.
Import GeoUtils.

(** Attributes [h.a] of a raw state sample. *)
Record Attrs := {
  latitude : option Q;
  longitude : option Q;
  gps_accuracy : option Q;
  battery_level : option Q
}.

(** A raw state sample; [lu] and [lc] are instants given as numbers,
    [lu] possibly missing. *)
Record RawSample := {
  a : option Attrs;
  lu : option Z;
  lc : Z;
  s : string
}.

Record TrackPoint := {
  pos : LatLng;
  timestamp : Z;
  accuracy : Q;
  battery : option Q;
  state : string;
  zone : option string;
  zoneId : option string;
  speed : R;
  isMoving : bool;
  isDriving : bool
}.

Record Trip := {
  startTime : Z;
  startZone : option string;
  tpoints : list TrackPoint;
  maxSpeed : R;
  endTime : Z;
  endZone : option string;
  distance : R;
  duration : R
}.

(** The trip under construction ([currentTrip] before it is closed). *)
Record OpenTrip := {
  o_startTime : Z;
  o_startZone : option string;
  o_points : list TrackPoint;
  o_maxSpeed : R
}.

Record Stats := {
  st_distance : R;
  st_duration : R;
  avgSpeed : R;
  st_maxSpeed : R;
  movingTime : R;
  stationaryTime : R;
  drivingTime : R
}.

Record ZoneEntry := {
  ze_duration : R;
  visits : nat;
  lastVisit : option Z
}.

Record Route := {
  points : list TrackPoint;
  stats : Stats;
  trips : list Trip;
  zoneVisits : gmap string ZoneEntry
}.

(** Seconds between two instants. *)
Definition seconds (t1 t2 : Z) : R := (IZR (t2 - t1) / 1000)%R.

(** *** processHistory: the three filters *)

Definition has_coords (h : RawSample) : bool :=
  match a h with
  | Some at_ => truthy_num (latitude at_) && truthy_num (longitude at_)
  | None => false
  end.

Definition in_range (h : RawSample) : bool :=
  match a h with
  | Some {| latitude := Some la; longitude := Some lo |} =>
      Qle_bool (Qabs la) 90 && Qle_bool (Qabs lo) 180
  | _ => false
  end.

(** [x !== 0]: a missing value is not the number zero. *)
Definition strict_nonzero (x : option Q) : bool :=
  match x with
  | Some q => negb (Qeq_bool q 0)
  | None => true
  end.

Definition not_zero (h : RawSample) : bool :=
  match a h with
  | Some at_ => strict_nonzero (latitude at_) && strict_nonzero (longitude at_)
  | None => false
  end.

Definition filter_samples (history : list RawSample) : list RawSample :=
  filter (fun h => not_zero h = true)
    (filter (fun h => in_range h = true)
       (filter (fun h => has_coords h = true) history)).

(** [h.lu || h.lc]: [lu], unless it is missing or the number 0. *)
Definition stamp_of (h : RawSample) : Z :=
  match lu h with
  | Some t => if (t =? 0)%Z then lc h else t
  | None => lc h
  end.

(** The mapped point, before enrichment. *)
Definition to_point (h : RawSample) : TrackPoint :=
  match a h with
  | Some {| latitude := Some la; longitude := Some lo;
            gps_accuracy := acc; battery_level := bat |} =>
      {| pos := {| lat := la; lng := lo |};
         timestamp := stamp_of h;
         accuracy := if truthy_num acc then default 999%Q acc else 999%Q;
         battery := bat;
         state := s h;
         zone := None; zoneId := None;
         speed := 0%R; isMoving := false; isDriving := false |}
  | _ =>
      {| pos := {| lat := 0; lng := 0 |};
         timestamp := stamp_of h;
         accuracy := 999%Q; battery := None; state := s h;
         zone := None; zoneId := None;
         speed := 0%R; isMoving := false; isDriving := false |}
  end.

(** *** processHistory: the stable sort by timestamp *)

Fixpoint insert_by_time (p : TrackPoint) (l : list TrackPoint)
  : list TrackPoint :=
  match l with
  | [] => [p]
  | q :: l' =>
      if (timestamp p <=? timestamp q)%Z then p :: q :: l'
      else q :: insert_by_time p l'
  end.

Definition sort_by_time (l : list TrackPoint) : list TrackPoint :=
  foldr insert_by_time [] l.

(** *** processHistory: thinning and enrichment *)

Definition enrich (lastPoint : option TrackPoint) (zones : list (string * Zone))
    (point : TrackPoint) : TrackPoint :=
  let found := findZone (pos point) zones in
  let sp := match lastPoint with
            | Some lp =>
                GeoUtils.speed (pos lp) (timestamp lp) (pos point) (timestamp point)
            | None => 0%R
            end in
  {| pos := pos point;
     timestamp := timestamp point;
     accuracy := accuracy point;
     battery := battery point;
     state := state point;
     zone := match found with Some (_, z) => Some (zname z) | None => None end;
     zoneId := match found with Some (id, _) => Some id | None => None end;
     speed := sp;
     isMoving := match lastPoint with
                 | Some _ => GeoUtils.isMoving sp | None => false end;
     isDriving := match lastPoint with
                  | Some _ => GeoUtils.isDriving sp | None => false end |}.

Fixpoint thin (zones : list (string * Zone)) (lastPoint : option TrackPoint)
    (pts : list TrackPoint) : list TrackPoint :=
  match pts with
  | [] => []
  | point :: rest =>
      let keep := match lastPoint with
                  | None => true
                  | Some lp => Rgtb (GeoUtils.distance (pos lp) (pos point)) 15
                  end in
      if keep then
        let point' := enrich lastPoint zones point in
        point' :: thin zones (Some point') rest
      else thin zones lastPoint rest
  end.

(** *** _calculateStats *)

Definition zero_stats : Stats :=
  {| st_distance := 0; st_duration := 0; avgSpeed := 0; st_maxSpeed := 0;
     movingTime := 0; stationaryTime := 0; drivingTime := 0 |}.

(** Accumulators [(movingTime, stationaryTime, drivingTime)]. *)
Definition time_step (prev p : TrackPoint) (acc : R * R * R) : R * R * R :=
  let '(mv, stn, drv) := acc in
  let dt := seconds (timestamp prev) (timestamp p) in
  if isDriving p then ((mv + dt)%R, stn, (drv + dt)%R)
  else if isMoving p then ((mv + dt)%R, stn, drv)
  else (mv, (stn + dt)%R, drv).

Fixpoint time_loop (prev : TrackPoint) (rest : list TrackPoint)
    (acc : R * R * R) : R * R * R :=
  match rest with
  | [] => acc
  | p :: rest' => time_loop p rest' (time_step prev p acc)
  end.

Definition Rsum (l : list R) : R := fold_left Rplus l 0%R.

(** The [zones] argument of the script is not used by it. *)
Definition _calculateStats (pts : list TrackPoint) : Stats :=
  match pts with
  | p0 :: (_ :: _) as rest =>
      let speeds :=
        filter (fun sp => (Rgtb sp 0 && Rltb sp 200) = true) (map speed pts) in
      let '(mv, stn, drv) := time_loop p0 rest (0, 0, 0)%R in
      {| st_distance := routeDistance (map pos pts);
         st_duration := seconds (timestamp p0) (timestamp (List.last pts p0));
         avgSpeed := match speeds with
                     | [] => 0%R
                     | _ => (Rsum speeds / INR (length speeds))%R
                     end;
         st_maxSpeed := match speeds with
                        | [] => 0%R
                        | s0 :: speeds' => fold_left Rmax speeds' s0
                        end;
         movingTime := mv; stationaryTime := stn; drivingTime := drv |}
  | _ => zero_stats
  end.

(** *** _detectTrips *)

Definition close_trip (c : OpenTrip) (point : TrackPoint) : Trip :=
  {| startTime := o_startTime c;
     startZone := o_startZone c;
     tpoints := o_points c;
     maxSpeed := o_maxSpeed c;
     endTime := timestamp point;
     endZone := zone point;
     distance := routeDistance (map pos (o_points c));
     duration := seconds (o_startTime c) (timestamp point) |}.

(** One iteration of the loop; [prev] is [points[i-1]]. *)
Definition trip_step (prev : option TrackPoint) (point : TrackPoint)
    (st : option OpenTrip * list Trip) : option OpenTrip * list Trip :=
  let '(currentTrip, acc) := st in
  match isMoving point, currentTrip with
  | true, None =>
      (Some {| o_startTime := timestamp point;
               o_startZone := or_null (prev ≫= zone);
               o_points := [point];
               o_maxSpeed := speed point |}, acc)
  | true, Some c =>
      (Some {| o_startTime := o_startTime c;
               o_startZone := o_startZone c;
               o_points := o_points c ++ [point];
               o_maxSpeed := if Rgtb (speed point) (o_maxSpeed c)
                             then speed point else o_maxSpeed c |}, acc)
  | false, Some c =>
      let trip := close_trip c point in
      (None, if Rgtb (distance trip) (1 / 10) then acc ++ [trip] else acc)
  | false, None => (None, acc)
  end.

Fixpoint trip_loop (prev : option TrackPoint) (pts : list TrackPoint)
    (st : option OpenTrip * list Trip) : list Trip :=
  match pts with
  | [] => snd st
  | point :: rest => trip_loop (Some point) rest (trip_step prev point st)
  end.

Definition _detectTrips (pts : list TrackPoint) : list Trip :=
  trip_loop None pts (None, []).

(** *** _calculateZoneTime *)

Definition empty_entry : ZoneEntry :=
  {| ze_duration := 0; visits := 0; lastVisit := None |}.

Definition zoneNameOf (p : TrackPoint) : string :=
  match or_null (zone p) with
  | Some z => z
  | None => "Away"
  end.

Definition init_zoneTime (zones : list (string * Zone))
  : gmap string ZoneEntry :=
  <["Away" := empty_entry]>
    (foldl (fun m z => <[zname (snd z) := empty_entry]> m) ∅ zones).

Definition add_time (dt : R) (t : Z) (e : ZoneEntry) : ZoneEntry :=
  {| ze_duration := ze_duration e + dt; visits := visits e;
     lastVisit := Some t |}.

Definition add_visit (e : ZoneEntry) : ZoneEntry :=
  {| ze_duration := ze_duration e; visits := S (visits e);
     lastVisit := lastVisit e |}.

(** One iteration of the loop, for [points[i-1]] and [points[i]]. *)
Definition zone_step (prev p : TrackPoint)
    (st : option string * gmap string ZoneEntry)
  : option string * gmap string ZoneEntry :=
  let '(lastZone, zoneTime) := st in
  let zoneName := zoneNameOf p in
  let dt := seconds (timestamp prev) (timestamp p) in
  let zt1 := match zoneTime !! zoneName with
             | Some _ => zoneTime
             | None => <[zoneName := empty_entry]> zoneTime
             end in
  let zt2 := alter (add_time dt (timestamp p)) zoneName zt1 in
  let zt3 := if decide (lastZone = Some zoneName) then zt2
             else alter add_visit zoneName zt2 in
  (Some zoneName, zt3).

Fixpoint zone_loop (prev : TrackPoint) (rest : list TrackPoint)
    (st : option string * gmap string ZoneEntry) : gmap string ZoneEntry :=
  match rest with
  | [] => snd st
  | p :: rest' => zone_loop p rest' (zone_step prev p st)
  end.

Definition _calculateZoneTime (pts : list TrackPoint)
    (zones : list (string * Zone)) : gmap string ZoneEntry :=
  match pts with
  | [] => init_zoneTime zones
  | p0 :: rest => zone_loop p0 rest (None, init_zoneTime zones)
  end.

(** *** processHistory *)

Definition processHistory (history : list RawSample)
    (zones : list (string * Zone)) : Route :=
  let pts := sort_by_time (map to_point (filter_samples history)) in
  let filtered := thin zones None pts in
  {| points := filtered;
     stats := _calculateStats filtered;
     trips := _detectTrips filtered;
     zoneVisits := _calculateZoneTime filtered zones |}.

End History.

(** ** CrashDetector *)

Module CrashDetector.

(** The numeric and boolean options of [this._config]; the notification
    targets and the message template only feed the notification text. *)
Record Config := {
  enabled : bool;
  min_speed_before : Q;
  max_speed_after : Q;
  time_window : Q;
  confirmation_delay : Q;
  alert_cooldown : Q;
  min_gps_accuracy : Q;
  require_driving_activity : bool;
  ignore_zone_entry : bool
}.

(** The defaults of the constructor, with [enabled] as given. *)
Definition default_config (en : bool) : Config :=
  {| enabled := en;
     min_speed_before := 50;
     max_speed_after := 5;
     time_window := 5;
     confirmation_delay := 30;
     alert_cooldown := 5;
     min_gps_accuracy := 50;
     require_driving_activity := true;
     ignore_zone_entry := true |}.

Record Reading := {
  speed : Q;
  timestamp : Z;
  zone : option string;
  activity : option string;
  accuracy : Q
}.

Record Conditions := {
  speed_drop : bool;
  activity_ok : bool;
  not_zone_entry : bool;
  gps_accurate : bool
}.

Record AlertData := {
  speedBefore : Q;
  speedAfter : Q;
  location : Reading;
  conditions : Conditions
}.

Record Pending := {
  data : AlertData;
  p_timestamp : Z;
  timer : nat
}.

(** The detail of a dispatched [location720-crash-alert] event. *)
Record Alert := {
  al_person : string;
  al_speedBefore : Z;
  al_speedAfter : Z;
  al_location : Reading;
  al_timestamp : Z
}.

(** A callback queued by [setTimeout]: whom to confirm, and when. *)
Record Timer := { tm_person : string; tm_due : Q }.

(** The detector's three dictionaries, the host's timer queue and the
    events dispatched so far. *)
Record State := {
  lastAlert : gmap string Z;
  pendingAlerts : gmap string Pending;
  speedHistory : gmap string (list Reading);
  timers : gmap nat Timer;
  nextTimer : nat;
  dispatched : list Alert
}.

Definition init : State :=
  {| lastAlert := ∅; pendingAlerts := ∅; speedHistory := ∅;
     timers := ∅; nextTimer := 0; dispatched := [] |}.

(** *** Strings *)

Definition lower_ascii (c : ascii) : ascii :=
  let n := nat_of_ascii c in
  if (65 <=? n)%nat && (n <=? 90)%nat then ascii_of_nat (n + 32) else c.

Fixpoint toLowerCase (str : string) : string :=
  match str with
  | EmptyString => EmptyString
  | String c rest => String (lower_ascii c) (toLowerCase rest)
  end.

Fixpoint includes (sub str : string) : bool :=
  if String.prefix sub str then true
  else match str with
       | EmptyString => false
       | String _ rest => includes sub rest
       end.

Definition driving_like (act : option string) : bool :=
  match act with
  | Some act' =>
      let l := toLowerCase act' in
      includes "driv" l || includes "vehicle" l || includes "automotive" l
  | None => false
  end.

Definition _wasRecentlyDriving (readings : list Reading) : bool :=
  existsb (fun r => driving_like (activity r)) readings.

Definition _isZoneEntry (history : list Reading) : bool :=
  match rev history with
  | latest :: previous :: _ =>
      negb (truthy_str (zone previous)) && truthy_str (zone latest)
  | _ => false
  end.

(** [Math.round]. *)
Definition round (x : Q) : Z := Qfloor (x + (1 # 2))%Q.

(** *** Triggering, cancelling and confirming *)

Definition _triggerPendingAlert (cfg : Config) (now : Z) (personName : string)
    (d : AlertData) (st : State) : State :=
  let id := nextTimer st in
  {| lastAlert := lastAlert st;
     pendingAlerts :=
       <[personName := {| data := d; p_timestamp := now; timer := id |}]>
         (pendingAlerts st);
     speedHistory := speedHistory st;
     timers := <[id := {| tm_person := personName;
                          tm_due := (inject_Z now + confirmation_delay cfg * 1000)%Q |}]>
                 (timers st);
     nextTimer := S id;
     dispatched := dispatched st |}.

Definition cooldown_active (cfg : Config) (now : Z) (last : option Z) : bool :=
  match last with
  | Some t =>
      negb (t =? 0)%Z &&
      Qltb (inject_Z (now - t)) (alert_cooldown cfg * 60000)%Q
  | None => false
  end.

Definition max_speed_reading (first : Reading) (readings : list Reading)
  : Reading :=
  fold_left (fun mx r => if Qgtb (speed r) (speed mx) then r else mx)
            readings first.

Definition _checkForCrash (cfg : Config) (now : Z) (personName : string)
    (st : State) : State :=
  let history := default [] (speedHistory st !! personName) in
  match rev history with
  | latest :: _ :: _ =>
      if cooldown_active cfg now (lastAlert st !! personName) then st
      else if bool_decide (is_Some (pendingAlerts st !! personName)) then st
      else
        let windowStart := (inject_Z now - time_window cfg * 1000)%Q in
        let recentReadings :=
          filter (fun r => Qgtb (inject_Z (timestamp r)) windowStart = true)
                 history in
        match recentReadings with
        | first :: _ :: _ =>
            let maxSpeedReading := max_speed_reading first recentReadings in
            let before := speed maxSpeedReading in
            let after := speed latest in
            let conds :=
              {| speed_drop := Qle_bool (min_speed_before cfg) before &&
                               Qle_bool after (max_speed_after cfg);
                 activity_ok := negb (require_driving_activity cfg) ||
                                _wasRecentlyDriving recentReadings;
                 not_zone_entry := negb (ignore_zone_entry cfg) ||
                                   negb (_isZoneEntry history);
                 gps_accurate := Qle_bool (accuracy latest)
                                          (min_gps_accuracy cfg) |} in
            if speed_drop conds && activity_ok conds &&
               not_zone_entry conds && gps_accurate conds
            then _triggerPendingAlert cfg now personName
                   {| speedBefore := before; speedAfter := after;
                      location := latest; conditions := conds |} st
            else st
        | _ => st
        end
  | _ => st
  end.

Definition set_history (personName : string) (h : list Reading) (st : State)
  : State :=
  {| lastAlert := lastAlert st;
     pendingAlerts := pendingAlerts st;
     speedHistory := <[personName := h]> (speedHistory st);
     timers := timers st;
     nextTimer := nextTimer st;
     dispatched := dispatched st |}.

(** [addReading], called at instant [now]. *)
Definition addReading (cfg : Config) (now : Z) (personName : string)
    (reading : Reading) (st : State) : State :=
  if negb (enabled cfg) then st
  else
    let st1 := match speedHistory st !! personName with
               | Some _ => st
               | None => set_history personName [] st
               end in
    if Qgtb (accuracy reading) (min_gps_accuracy cfg) then st1
    else
      let history := default [] (speedHistory st1 !! personName) ++ [reading] in
      let cutoff := (now - 60000)%Z in
      let st2 :=
        set_history personName
          (filter (fun r => (timestamp r >? cutoff)%Z = true) history) st1 in
      _checkForCrash cfg now personName st2.

(** [cancelPendingAlert]: the result and the new state. *)
Definition cancelPendingAlert (personName : string) (st : State)
  : bool * State :=
  match pendingAlerts st !! personName with
  | Some pending =>
      (true,
       {| lastAlert := lastAlert st;
          pendingAlerts := delete personName (pendingAlerts st);
          speedHistory := speedHistory st;
          timers := delete (timer pending) (timers st);
          nextTimer := nextTimer st;
          dispatched := dispatched st |})
  | None => (false, st)
  end.

Definition _confirmAndSendAlert (now : Z) (personName : string) (st : State)
  : State :=
  match pendingAlerts st !! personName with
  | None => st
  | Some pending =>
      {| lastAlert := <[personName := now]> (lastAlert st);
         pendingAlerts := delete personName (pendingAlerts st);
         speedHistory := speedHistory st;
         timers := timers st;
         nextTimer := nextTimer st;
         dispatched :=
           dispatched st ++
           [{| al_person := personName;
               al_speedBefore := round (speedBefore (data pending));
               al_speedAfter := round (speedAfter (data pending));
               al_location := location (data pending);
               al_timestamp := now |}] |}
  end.

(** The host runs the callback of timer [id] at instant [now]: only a
    timer still queued runs, once, and not before it is due. *)
Definition fire_timer (id : nat) (now : Z) (st : State) : State :=
  match timers st !! id with
  | Some tm =>
      if Qle_bool (tm_due tm) (inject_Z now) then
        _confirmAndSendAlert now (tm_person tm)
          {| lastAlert := lastAlert st;
             pendingAlerts := pendingAlerts st;
             speedHistory := speedHistory st;
             timers := delete id (timers st);
             nextTimer := nextTimer st;
             dispatched := dispatched st |}
      else st
  | None => st
  end.

End CrashDetector.

(** ** The duration loops, on any arithmetic

    [_calculateZoneTime] and the time loop of [_calculateStats] once
    more, with the arithmetic of the durations as a parameter: the real
    numbers of the idealised embedding above, or the IEEE doubles of the
    script.  What is proved for every arithmetic holds of the script as it
    runs; what is proved for the real numbers only holds up to rounding. *)

Module Loops.
Import GeoUtils History.

(** The arithmetic of durations: the numbers, 0, [+] and the seconds
    between two instants, [(t2 - t1) / 1000]. *)
Record Arith := {
  num : Type;
  zero : num;
  add : num -> num -> num;
  secs : Z -> Z -> num
}.

(** The real numbers: no rounding. *)
Definition exact : Arith :=
  {| num := R; zero := 0%R; add := Rplus; secs := seconds |}.

(** The double of an integer (exact below 2^53 in size). *)
Definition of_Z (z : Z) : PrimFloat.float :=
  match z with
  | Z0 => PrimFloat.zero
  | Zpos _ => PrimFloat.of_uint63 (Uint63.of_Z z)
  | Zneg p => PrimFloat.opp (PrimFloat.of_uint63 (Uint63.of_Z (Zpos p)))
  end.

(** IEEE doubles, as the script computes. *)
Definition doubles : Arith :=
  {| num := PrimFloat.float;
     zero := PrimFloat.zero;
     add := PrimFloat.add;
     secs := fun t1 t2 => PrimFloat.div (of_Z (t2 - t1)) (of_Z 1000) |}.

Section WithArith.
Context (A : Arith).

Record Entry := {
  e_duration : num A;
  e_visits : nat;
  e_lastVisit : option Z
}.

(** *** _calculateZoneTime_in *)

Definition empty_entry_in : Entry :=
  {| e_duration := zero A; e_visits := 0; e_lastVisit := None |}.

Definition init_zoneTime_in (zones : list (string * Zone)) : gmap string Entry :=
  <["Away" := empty_entry_in]>
    (foldl (fun m z => <[zname (snd z) := empty_entry_in]> m) ∅ zones).

Definition add_time_in (dt : num A) (t : Z) (e : Entry) : Entry :=
  {| e_duration := add A (e_duration e) dt; e_visits := e_visits e;
     e_lastVisit := Some t |}.

Definition add_visit_in (e : Entry) : Entry :=
  {| e_duration := e_duration e; e_visits := S (e_visits e);
     e_lastVisit := e_lastVisit e |}.

(** One iteration of the loop, for [points[i-1]] and [points[i]]. *)
Definition zone_step_in (prev p : TrackPoint)
    (st : option string * gmap string Entry)
  : option string * gmap string Entry :=
  let '(lastZone, zoneTime) := st in
  let zoneName := zoneNameOf p in
  let dt := secs A (timestamp prev) (timestamp p) in
  let zt1 := match zoneTime !! zoneName with
             | Some _ => zoneTime
             | None => <[zoneName := empty_entry_in]> zoneTime
             end in
  let zt2 := alter (add_time_in dt (timestamp p)) zoneName zt1 in
  let zt3 := if decide (lastZone = Some zoneName) then zt2
             else alter add_visit_in zoneName zt2 in
  (Some zoneName, zt3).

Fixpoint zone_loop_in (prev : TrackPoint) (rest : list TrackPoint)
    (st : option string * gmap string Entry) : gmap string Entry :=
  match rest with
  | [] => snd st
  | p :: rest' => zone_loop_in p rest' (zone_step_in prev p st)
  end.

Definition _calculateZoneTime_in (pts : list TrackPoint)
    (zones : list (string * Zone)) : gmap string Entry :=
  match pts with
  | [] => init_zoneTime_in zones
  | p0 :: rest => zone_loop_in p0 rest (None, init_zoneTime_in zones)
  end.

(** *** _calculateStats: the duration and the three times *)

(** Accumulators [(movingTime, stationaryTime, drivingTime)]. *)
Definition time_step_in (prev p : TrackPoint) (acc : num A * num A * num A)
  : num A * num A * num A :=
  let '(mv, stn, drv) := acc in
  let dt := secs A (timestamp prev) (timestamp p) in
  if isDriving p then (add A mv dt, stn, add A drv dt)
  else if isMoving p then (add A mv dt, stn, drv)
  else (mv, add A stn dt, drv).

Fixpoint time_loop_in (prev : TrackPoint) (rest : list TrackPoint)
    (acc : num A * num A * num A) : num A * num A * num A :=
  match rest with
  | [] => acc
  | p :: rest' => time_loop_in p rest' (time_step_in prev p acc)
  end.

(** [(duration, movingTime, stationaryTime, drivingTime)] of the
    statistics. *)
Definition stats_times (pts : list TrackPoint)
  : num A * num A * num A * num A :=
  match pts with
  | p0 :: (_ :: _) as rest =>
      let '(mv, stn, drv) := time_loop_in p0 rest (zero A, zero A, zero A) in
      (secs A (timestamp p0) (timestamp (List.last pts p0)), mv, stn, drv)
  | _ => (zero A, zero A, zero A, zero A)
  end.

End WithArith.

Arguments e_duration {A} _.
Arguments e_visits {A} _.
Arguments e_lastVisit {A} _.

End Loops.

(** ** Playback: the point lookup of [_updateMarkersToTime] *)

Module Playback.
Import History.

(** The loop from index [i] on, with [point] the current choice. *)
Fixpoint scan (targetTime : Z) (pts : list TrackPoint) (point : TrackPoint)
  : TrackPoint :=
  match pts with
  | [] => point
  | p :: rest =>
      if (timestamp p <=? targetTime)%Z then scan targetTime rest p
      else point
  end.

(** The point a marker is moved to; [None] when the route is empty and
    the marker is left alone. *)
Definition lookupPoint (targetTime : Z) (pts : list TrackPoint)
  : option TrackPoint :=
  match pts with
  | [] => None
  | p0 :: _ => Some (scan targetTime pts p0)
  end.

End Playback.

(** ** Vocabulary of the statements *)

Module Props.
Import GeoUtils History.

(** Timestamps never decrease along the sequence. *)
Fixpoint time_ordered (pts : list TrackPoint) : bool :=
  match pts with
  | [] => true
  | p :: rest =>
      match rest with
      | [] => true
      | q :: _ => (timestamp p <=? timestamp q)%Z && time_ordered rest
      end
  end.

(** Timestamps strictly increase along the sequence. *)
Fixpoint time_increasing (pts : list TrackPoint) : bool :=
  match pts with
  | [] => true
  | p :: rest =>
      match rest with
      | [] => true
      | q :: _ => (timestamp p <? timestamp q)%Z && time_increasing rest
      end
  end.

(** A resting point at instant [t], for examples. *)
Definition pt (t : Z) : TrackPoint :=
  {| pos := {| lat := 1; lng := 1 |};
     timestamp := t; accuracy := 999; battery := None; state := "home";
     zone := None; zoneId := None; speed := 0%R;
     isMoving := false; isDriving := false |}.

(** The filter as the specification words it: coordinates present, in
    range, and not both zero. *)
Definition spec_retained (h : RawSample) : bool :=
  match a h with
  | Some {| latitude := Some la; longitude := Some lo |} =>
      Qle_bool (Qabs la) 90 && Qle_bool (Qabs lo) 180 &&
      negb (Qeq_bool la 0 && Qeq_bool lo 0)
  | _ => false
  end.

(** The filter the script applies: coordinates present, in range, and
    neither of them zero. *)
Definition retained (h : RawSample) : bool :=
  match a h with
  | Some {| latitude := Some la; longitude := Some lo |} =>
      Qle_bool (Qabs la) 90 && Qle_bool (Qabs lo) 180 &&
      negb (Qeq_bool la 0) && negb (Qeq_bool lo 0)
  | _ => false
  end.

(** A sample on the equator, away from the prime meridian. *)
Definition equator_sample : RawSample :=
  {| a := Some {| latitude := Some 0%Q; longitude := Some 10%Q;
                  gps_accuracy := Some 5%Q; battery_level := None |};
     lu := Some 1000%Z; lc := 1000%Z; s := "not_home" |}.

(** Two positions a quarter of a great circle apart. *)
Definition north : LatLng := {| lat := 45; lng := 90 |}.
Definition south : LatLng := {| lat := -45; lng := 90 |}.

Definition sample_at (p : LatLng) (t : Z) : RawSample :=
  {| a := Some {| latitude := Some (lat p); longitude := Some (lng p);
                  gps_accuracy := Some 5%Q; battery_level := None |};
     lu := Some t; lc := t; s := "not_home" |}.

(** Two samples with the same timestamp, far apart. *)
Definition twin_history : list RawSample :=
  [sample_at north 1000; sample_at south 1000].

(** Consecutive points of the sequence are more than 15 m apart. *)
Definition separated (pts : list TrackPoint) : Prop :=
  forall i p q, pts !! i = Some p -> pts !! S i = Some q ->
                (GeoUtils.distance (pos p) (pos q) > 15)%R.

(** Timestamps never decrease, starting from the instant [t]. *)
Fixpoint ordered_from (t : Z) (pts : list TrackPoint) : Prop :=
  match pts with
  | [] => True
  | q :: rest => (t <= timestamp q)%Z /\ ordered_from (timestamp q) rest
  end.

(** Each point is more than 15 m from the one before it, starting from
    the last kept point [lp]. *)
Fixpoint separated_from (lp : option TrackPoint) (pts : list TrackPoint)
  : Prop :=
  match pts with
  | [] => True
  | q :: rest =>
      match lp with
      | Some p => (GeoUtils.distance (pos p) (pos q) > 15)%R
      | None => True
      end /\ separated_from (Some q) rest
  end.

(** Two samples a minute apart, far apart. *)
Definition far_history : list RawSample :=
  [sample_at north 0; sample_at south 60000].

(** Sum of the durations of all entries of a zone-time table. *)
Definition total_duration (m : gmap string ZoneEntry) : R :=
  map_fold (fun _ e acc => (ze_duration e + acc)%R) 0%R m.

(** Seconds from the first to the last point; 0 for no point. *)
Definition elapsed (pts : list TrackPoint) : R :=
  match pts with
  | [] => 0%R
  | p0 :: rest => seconds (timestamp p0) (timestamp (List.last rest p0))
  end.

Definition duration_of (z : string) (m : gmap string ZoneEntry) : R :=
  match m !! z with
  | Some e => ze_duration e
  | None => 0%R
  end.

Definition visits_of (z : string) (m : gmap string ZoneEntry) : nat :=
  match m !! z with
  | Some e => visits e
  | None => 0
  end.

(** Number of consecutive pairs [(a, b)] of [names] with [b = z] and
    [a <> b]: the arrivals in [z] from another zone. *)
Definition zone_changes (z : string) (names : list string) : nat :=
  length (filter (fun ab : string * string => ab.2 = z /\ ab.1 <> ab.2)
                 (zip names (tail names))).

(** Visits counted by the loop over [names] when it starts with
    [lastZone]. *)
Fixpoint visit_count (z : string) (lastZone : option string)
    (names : list string) : nat :=
  match names with
  | [] => 0
  | n :: rest =>
      (if decide (n = z /\ lastZone <> Some n) then 1 else 0)
      + visit_count z (Some n) rest
  end.

(** A resting point at latitude [la] inside the zone named Home. *)
Definition home_pt (la : Q) (t : Z) : TrackPoint :=
  {| pos := {| lat := la; lng := 1 |};
     timestamp := t; accuracy := 5; battery := None; state := "home";
     zone := Some "Home"; zoneId := Some "zone.home"; speed := 0%R;
     isMoving := false; isDriving := false |}.

(** *** Moving runs and trips *)

Definition is_moving_at (pts : list TrackPoint) (k : nat) : bool :=
  match pts !! k with
  | Some p => isMoving p
  | None => false
  end.

(** The [n > 0] points from index [s] on are all moving and the point
    before them, if any, is not. *)
Definition moving_run (pts : list TrackPoint) (s n : nat) : Prop :=
  (0 < n)%nat /\
  (forall k, (s <= k < s + n)%nat -> is_moving_at pts k = true) /\
  (forall s', S s' = s -> is_moving_at pts s' = false).

(** A moving run that cannot be extended to the right either: it is
    followed by a point that is not moving, or by the end. *)
Definition maximal_run (pts : list TrackPoint) (s n : nat) : Prop :=
  moving_run pts s n /\ is_moving_at pts (s + n) = false.

(** The run is followed by the point [c], which is not moving. *)
Definition closed_by (pts : list TrackPoint) (s n : nat) (c : TrackPoint)
  : Prop :=
  pts !! (s + n)%nat = Some c /\ isMoving c = false.

Definition run_points (pts : list TrackPoint) (s n : nat) : list TrackPoint :=
  take n (drop s pts).

(** Route distance of the run, in kilometres. *)
Definition run_distance (pts : list TrackPoint) (s n : nat) : R :=
  routeDistance (map pos (run_points pts s n)).

Definition point_before (pts : list TrackPoint) (s : nat)
  : option TrackPoint :=
  match s with
  | O => None
  | S s' => pts !! s'
  end.

(** The trip [t] is the one of the run of [n] points from index [s]. *)
Definition trip_of_run (pts : list TrackPoint) (r : nat * nat) (t : Trip)
  : Prop :=
  exists p c,
    pts !! r.1 = Some p /\ pts !! (r.1 + r.2)%nat = Some c /\
    tpoints t = run_points pts r.1 r.2 /\
    startTime t = timestamp p /\
    startZone t = or_null (point_before pts r.1 ≫= zone) /\
    endTime t = timestamp c /\
    endZone t = zone c /\
    distance t = run_distance pts r.1 r.2 /\
    duration t = seconds (timestamp p) (timestamp c).

(** The runs come in order and each ends, closing point included,
    before the next one starts. *)
Definition runs_apart (ranges : list (nat * nat)) : Prop :=
  forall i j r1 r2, (i < j)%nat ->
    ranges !! i = Some r1 -> ranges !! j = Some r2 ->
    (r1.1 + r1.2 < r2.1)%nat.

(** The runs for which a trip is emitted: closed by a point that is not
    moving, and longer than 0.1 km. *)
Definition emitted_run (pts : list TrackPoint) (s n : nat) : Prop :=
  moving_run pts s n /\
  (exists c, closed_by pts s n c) /\
  (run_distance pts s n > 1 / 10)%R.

(** Invariants of the loop of [_detectTrips] before iteration [k]. *)
Definition open_ok (pts : list TrackPoint) (k : nat)
    (cur : option OpenTrip) : Prop :=
  match cur with
  | None => forall k', S k' = k -> is_moving_at pts k' = false
  | Some o =>
      exists s n p,
        (s + n = k)%nat /\ moving_run pts s n /\ pts !! s = Some p /\
        o_points o = run_points pts s n /\
        o_startTime o = timestamp p /\
        o_startZone o = or_null (point_before pts s ≫= zone)
  end.

Definition trips_inv (pts : list TrackPoint) (k : nat) (acc : list Trip)
    (ranges : list (nat * nat)) : Prop :=
  Forall2 (trip_of_run pts) ranges acc /\
  (forall s n, In (s, n) ranges <-> emitted_run pts s n /\ (s + n < k)%nat) /\
  runs_apart ranges.

(** A moving point at position [p] and instant [t]. *)
Definition moving_pt (p : LatLng) (t : Z) : TrackPoint :=
  {| pos := p; timestamp := t; accuracy := 5; battery := None;
     state := "not_home"; zone := None; zoneId := None; speed := 60%R;
     isMoving := true; isDriving := true |}.

(** Three samples a minute apart, each far from the one before. *)
Definition round_trip_history : list RawSample :=
  [sample_at north 0; sample_at south 60000; sample_at north 120000].

(** A stop followed by a moving run that reaches the end. *)
Definition open_ended : list TrackPoint :=
  [pt 0; moving_pt north 60000; moving_pt south 120000].

End Props.

Module CrashProps.
Import CrashDetector.

(** A reading with speed 80 at instant [T]. *)
Definition fast (T : Z) (z : option string) : Reading :=
  {| speed := 80; timestamp := T; zone := z;
     activity := Some "driving"; accuracy := 10 |}.

(** A reading with speed 2 four seconds after [T]. *)
Definition slow (T : Z) (z : option string) : Reading :=
  {| speed := 2; timestamp := T + 4000; zone := z;
     activity := Some "driving"; accuracy := 10 |}.

(** A call [addReading(person, reading)] made at instant [now]. *)
Definition Call : Type := Z * string * Reading.

Definition run (cfg : Config) (calls : list Call) (st : State) : State :=
  foldl (fun st (c : Call) => addReading cfg c.1.1 c.1.2 c.2 st) st calls.



(** The data of the alert raised by [fast] followed by [slow]. *)
Definition sample_data : AlertData :=
  {| speedBefore := 80; speedAfter := 2; location := slow 0 None;
     conditions := {| speed_drop := true; activity_ok := true;
                      not_zone_entry := true; gps_accurate := true |} |}.

End CrashProps.

(** ** Vocabulary of the statements on the duration loops *)

Module LoopProps.
Import GeoUtils History Loops.

(** The consecutive pairs [(points[i-1], points[i])] the loops walk. *)
Definition steps (pts : list TrackPoint) : list (TrackPoint * TrackPoint) :=
  zip pts (tail pts).

(** The intervals of the listed pairs added up from 0 one after the
    other, as [x += dt] does. *)
Definition running_sum (A : Arith) (l : list (TrackPoint * TrackPoint))
  : num A :=
  fold_left (fun acc ab => add A acc (secs A (timestamp ab.1) (timestamp ab.2)))
            l (zero A).

(** The duration of an entry of the table, 0 when there is none. *)
Definition duration_in (A : Arith) (z : string) (m : gmap string (Entry A))
  : num A :=
  match m !! z with
  | Some e => e_duration e
  | None => zero A
  end.

(** The durations of all entries of a table added up, in the order the
    table lists them. *)
Definition total_in (A : Arith) (m : gmap string (Entry A)) : num A :=
  map_fold (fun _ e acc => add A (e_duration e) acc) (zero A) m.

(** Seconds from the first to the last point; 0 below two points. *)
Definition elapsed_in (A : Arith) (pts : list TrackPoint) : num A :=
  match pts with
  | p0 :: (_ :: _) as rest => secs A (timestamp p0) (timestamp (List.last rest p0))
  | _ => zero A
  end.

(** The pairs whose interval goes to movingTime (the others go to
    stationaryTime) and to drivingTime. *)
Definition moving_step (ab : TrackPoint * TrackPoint) : bool :=
  isDriving ab.2 || isMoving ab.2.

Definition driving_step (ab : TrackPoint * TrackPoint) : bool :=
  isDriving ab.2.

(** An entry over the real numbers, as an entry of the idealised table. *)
Definition to_entry (e : Entry exact) : ZoneEntry :=
  {| ze_duration := e_duration e;
     visits := e_visits e;
     lastVisit := e_lastVisit e |}.

(** The times of the statistics, in the order of [stats_times]. *)
Definition times_of (st : Stats) : R * R * R * R :=
  (st_duration st, movingTime st, stationaryTime st, drivingTime st).

(** What the duration loops read of a point. *)
Definition view (p : TrackPoint) : Z * string * bool * bool :=
  (timestamp p, zoneNameOf p, isMoving p, isDriving p).

(** Three samples 100 ms and 200 ms apart, each far from the one
    before. *)
Definition uneven_history : list RawSample :=
  [Props.sample_at Props.north 1000; Props.sample_at Props.south 1100;
   Props.sample_at Props.north 1300].

(** Points with the instants, zones and flags of the points that
    [processHistory] returns for [uneven_history]. *)
Definition uneven_points : list TrackPoint :=
  [Props.pt 1000; Props.moving_pt Props.south 1100;
   Props.moving_pt Props.north 1300].

End LoopProps.

(** ** TimeUtils: the text shown for a duration *)

Module TimeUtils.

(** The numbers passed in are finite doubles, read as the rationals
    they are ([None] stands for a missing one or NaN).  The quotients by
    60 and 3600 are exact here; the script rounds them, which below 2^53
    seconds changes neither their floor nor their nearest integer. *)

(** The text of an integer in a template string, for an integer below
    2^53 in size (from there on the script prints the shortest digits
    that read back as the same double, not the integer's own). *)
Definition show (n : Z) : string := NilZero.string_of_int (Z.to_int n).

(** The bound below which every integer is a double and is printed with
    its own digits. *)
Definition plain_bound : Z := 2 ^ 53.

(** [x % 3600] for a number that is not negative. *)
Definition mod3600 (x : Q) : Q := (x - 3600 * inject_Z (Qfloor (x / 3600)))%Q.

Definition formatDuration (seconds : option Q) : string :=
  match seconds with
  | None => "0m"
  | Some sec =>
      if Qeq_bool sec 0 || Qltb sec 0 then "0m"
      else if Qltb sec 60 then show (CrashDetector.round sec) ++ "s"
      else if Qltb sec 3600 then show (CrashDetector.round (sec / 60)) ++ "m"
      else
        let h := Qfloor (sec / 3600) in
        let m := CrashDetector.round (mod3600 sec / 60) in
        if (0 <? m)%Z then show h ++ "h " ++ show m ++ "m"
        else show h ++ "h"
  end.

End TimeUtils.

(** ** Location720Card: timeline, playback, lists and the crash handler *)

Module Card.
Import History.

(** The routes of the card are the ones [_loadHistory] stores, each the
    result of [processHistory]; the routes [_loadHistoryFromCoordSensors]
    stores instead hold points and a point count only. *)

(** The integer time value of [new Date(t)]. *)
Definition time_clip (t : Q) : Z :=
  if Qle_bool 0 t then Qfloor t else Qceiling t.

Record Timeline := { tl_start : Z; tl_end : Z; tl_current : Z }.

(** [_onTimelineChange]: the new timeline; the markers are then moved to
    the points found for [tl_current]. *)
Definition _onTimelineChange (value : Q) (tl : Timeline) : Timeline :=
  let range := (tl_end tl - tl_start tl)%Z in
  let offset := (value / 1000 * inject_Z range)%Q in
  {| tl_start := tl_start tl;
     tl_end := tl_end tl;
     tl_current := time_clip (inject_Z (tl_start tl) + offset) |}.

(** The point each person's marker is moved to, [None] for an empty
    route. *)
Definition _updateMarkersToTime (targetTime : Z)
    (routes : list (string * Route)) : list (string * option TrackPoint) :=
  map (fun nr : string * Route =>
         (nr.1, Playback.lookupPoint targetTime (points nr.2))) routes.

(** One animation frame of [_startPlayback]: the new slider position
    after [delta] milliseconds at playback speed [speed]. *)
Definition animate (speed delta value : Q) : Q :=
  let increment := (delta / (1667 # 100) * (1 # 20) * speed)%Q in
  let value' := (value + increment)%Q in
  if Qle_bool 1000 value' then 0%Q else value'.

Definition _rewind (value : Z) : Z := Z.max 0 (value - 50).
Definition _forward (value : Z) : Z := Z.min 1000 (value + 50).

(** A trip with the person it belongs to. *)
Record ListedTrip := { lt_trip : Trip; lt_person : string }.

(** The stable sort by start time, newest first. *)
Fixpoint insert_recent (x : ListedTrip) (l : list ListedTrip)
  : list ListedTrip :=
  match l with
  | [] => [x]
  | y :: l' =>
      if (startTime (lt_trip y) <=? startTime (lt_trip x))%Z
      then x :: y :: l'
      else y :: insert_recent x l'
  end.

Definition sort_recent (l : list ListedTrip) : list ListedTrip :=
  foldr insert_recent [] l.

Definition allTrips (routes : list (string * Route)) : list ListedTrip :=
  flat_map (fun nr : string * Route =>
              map (fun t => {| lt_trip := t; lt_person := nr.1 |})
                  (trips nr.2)) routes.

(** The trips listed by [_updateTripsList]. *)
Definition recent_trips (routes : list (string * Route)) : list ListedTrip :=
  take 6 (sort_recent (allTrips routes)).


(** [_cancelCrash]: cancel the pending alert of every person listed by
    [Object.keys] when the call starts. *)
Definition _cancelCrash (st : CrashDetector.State) : CrashDetector.State :=
  foldl (fun st p => (CrashDetector.cancelPendingAlert p st).2) st
        (map fst (map_to_list (CrashDetector.pendingAlerts st))).

(** [_confirmAndSendAlert] with the card listening: the dispatched event
    runs [_sendCrashNotifications], which ends with [_cancelCrash]. *)
Definition confirm_with_card (now : Z) (personName : string)
    (st : CrashDetector.State) : CrashDetector.State :=
  match CrashDetector.pendingAlerts st !! personName with
  | None => st
  | Some _ => _cancelCrash (CrashDetector._confirmAndSendAlert now personName st)
  end.

(** [_checkAutoFollow]: whether the map is asked to pan, and the new
    [_lastAutoFollowPan]. *)
Definition _checkAutoFollow (target : option string) (now : Z)
    (personName : string) (lastPan : Z) : bool * Z :=
  if negb (truthy_str target) || bool_decide (target = Some "off")
  then (false, lastPan)
  else if negb (lastPan =? 0)%Z && (now - lastPan <? 1000)%Z
  then (false, lastPan)
  else if bool_decide (target = Some "all")
          || bool_decide (target = Some personName)
  then (true, now)
  else (false, lastPan).

End Card.

(** ** Vocabulary of the further statements *)

Module RouteProps.
Import GeoUtils History.

(** What a point keeps of its sample: position, instant, accuracy,
    battery and state. *)
Definition core (p : TrackPoint) : LatLng * Z * Q * option Q * string :=
  (pos p, timestamp p, accuracy p, battery p, state p).

(** Each point's speed is the one computed from the point before it,
    starting from the last kept point [lp]; 0 when there is none. *)
Fixpoint speeds_from (lp : option TrackPoint) (pts : list TrackPoint) : Prop :=
  match pts with
  | [] => True
  | q :: rest =>
      speed q = match lp with
                | Some p => GeoUtils.speed (pos p) (timestamp p)
                                           (pos q) (timestamp q)
                | None => 0%R
                end /\
      speeds_from (Some q) rest
  end.

(** The centre of a zone. *)
Definition centre (z : Zone) : LatLng := {| lat := zlat z; lng := zlng z |}.

(** The recorded maximum speed is the largest speed among the points. *)
Definition max_of (l : list TrackPoint) (m : R) : Prop :=
  (forall p, In p l -> (speed p <= m)%R) /\
  (exists p, In p l /\ speed p = m).



End RouteProps.

Module DetectorProps.
Import CrashDetector.

(** Every queued timer is the timer of the pending alert of its person,
    every pending alert has its timer queued under its person's name, and
    the ids of the queued timers are below the next id. *)
Definition timers_ok (st : State) : Prop :=
  (forall id tm, timers st !! id = Some tm ->
     exists pd, pendingAlerts st !! tm_person tm = Some pd /\ timer pd = id) /\
  (forall p pd, pendingAlerts st !! p = Some pd ->
     exists tm, timers st !! timer pd = Some tm /\ tm_person tm = p) /\
  (forall id, is_Some (timers st !! id) -> (id < nextTimer st)%nat).

(** The stored readings of a history that are newer than the lookback of
    [time_window] seconds before [now]. *)
Definition window (cfg : Config) (now : Z) (history : list Reading)
  : list Reading :=
  filter (fun r => Qgtb (inject_Z (timestamp r))
                        (inject_Z now - time_window cfg * 1000)%Q = true)
         history.

(** The stored history of a person, empty when there is none. *)
Definition history_of (p : string) (st : State) : list Reading :=
  default [] (speedHistory st !! p).

(** The alert dispatched when the pending alert [pd] of [p] is confirmed
    at [now]. *)
Definition alert_of (p : string) (pd : Pending) (now : Z) : Alert :=
  {| al_person := p;
     al_speedBefore := round (speedBefore (data pd));
     al_speedAfter := round (speedAfter (data pd));
     al_location := location (data pd);
     al_timestamp := now |}.

(** A detector with one pending alert, for Alice. *)
Definition alice_pending : State :=
  _triggerPendingAlert (default_config true) 970000 "alice"
    CrashProps.sample_data init.

(** Cancel the pending alerts of the listed persons, in order. *)
Definition cancel_each (keys : list string) (st : State) : State :=
  foldl (fun st p => (cancelPendingAlert p st).2) st keys.

(** A detector that holds one accepted reading of Alice, taken outside
    every zone. *)
Definition alice_driving : State :=
  set_history "alice" [CrashProps.fast 0 None] init.

End DetectorProps.

Module CardProps.
Import History Card.

(** The pan requests of a series of [_checkAutoFollow] calls, each made
    at an instant for a person, starting from [lastPan]: the instants at
    which the map is asked to pan. *)
Fixpoint follow_run (target : option string) (calls : list (Z * string))
    (lastPan : Z) : list Z :=
  match calls with
  | [] => []
  | (now, name) :: rest =>
      let res := _checkAutoFollow target now name lastPan in
      (if res.1 then [now] else []) ++ follow_run target rest res.2
  end.

(** Start times never increase along the list, starting below [t]. *)
Fixpoint newest_first_from (t : Z) (l : list ListedTrip) : Prop :=
  match l with
  | [] => True
  | x :: rest =>
      (startTime (lt_trip x) <= t)%Z /\
      newest_first_from (startTime (lt_trip x)) rest
  end.

Definition newest_first (l : list ListedTrip) : Prop :=
  match l with
  | [] => True
  | x :: rest => newest_first_from (startTime (lt_trip x)) rest
  end.


(** The marker of the same person, at a point that is not earlier. *)
Definition not_earlier (a b : string * option TrackPoint) : Prop :=
  a.1 = b.1 /\
  match a.2, b.2 with
  | Some p, Some q => (timestamp p <= timestamp q)%Z
  | None, None => True
  | _, _ => False
  end.

(** The markers with the slider at position [v]. *)
Definition markers_at (tl : Timeline) (routes : list (string * Route))
    (v : Q) : list (string * option TrackPoint) :=
  _updateMarkersToTime (tl_current (_onTimelineChange v tl)) routes.

(** The points of every route are in time order. *)
Definition ordered_routes (routes : list (string * Route)) : Prop :=
  Forall (fun nr : string * Route =>
            Props.time_ordered (points nr.2) = true) routes.

(** The current instant with the slider at position [v]. *)
Definition current_at (tl : Timeline) (v : Z) : Z :=
  tl_current (_onTimelineChange (inject_Z v) tl).

(** A day of timeline and a route of two resting points, for examples. *)
Definition sample_timeline : Timeline :=
  {| tl_start := 0; tl_end := 86400000; tl_current := 0 |}.

Definition sample_routes : list (string * Route) :=
  [("ann", {| points := [Props.pt 1000; Props.pt 50000000];
              stats := zero_stats; trips := []; zoneVisits := ∅ |})].

End CardProps.

(** * Facts *)

(** ** Comparisons *)

Lemma Rgtb_true a b : Rgtb a b = true <-> (a > b)%R.
Proof. unfold Rgtb. destruct (Rgt_dec a b); split; auto; discriminate. Qed.

Lemma Rgtb_false a b : Rgtb a b = false <-> (a <= b)%R.
Proof.
  unfold Rgtb. destruct (Rgt_dec a b); split; auto; try discriminate.
  - intros H. lra.
  - intros _. lra.
Qed.

(** ** Playback lookup *)

Module PlaybackFacts.
Import History Playback Props.

Lemma time_ordered_cons p rest :
  time_ordered (p :: rest) = true ->
  time_ordered rest = true /\
  Forall (fun q => (timestamp p <= timestamp q)%Z) rest.
Proof.
  revert p. induction rest as [|q rest IH]; intros p H.
  - split; [reflexivity | constructor].
  - cbn [time_ordered] in H. apply andb_prop in H as [Hpq Hrest].
    apply Z.leb_le in Hpq. split; [exact Hrest|].
    destruct (IH q Hrest) as [_ Hall]. constructor; [exact Hpq|].
    eapply Forall_impl; [exact Hall|]. cbn. intros x Hx. lia.
Qed.

Lemma last_cons_default {A} (x : A) l d d' :
  List.last (x :: l) d = List.last (x :: l) d'.
Proof.
  revert x. induction l as [|y l IH]; intros x; [reflexivity|].
  change (List.last (y :: l) d = List.last (y :: l) d'). apply IH.
Qed.

(** The scan stops at the first point later than the target and returns
    the point just before it. *)
Lemma scan_split targetTime pts point :
  exists l1 l2,
    pts = l1 ++ l2 /\
    Forall (fun q => (timestamp q <= targetTime)%Z) l1 /\
    match l2 with
    | [] => True
    | q :: _ => (targetTime < timestamp q)%Z
    end /\
    scan targetTime pts point = List.last l1 point.
Proof.
  revert point. induction pts as [|p rest IH]; intros point.
  - exists [], []. repeat split; constructor.
  - cbn [scan]. destruct (Z.leb_spec (timestamp p) targetTime) as [Hle|Hgt].
    + destruct (IH p) as (l1 & l2 & -> & Hall & Hl2 & Hscan).
      exists (p :: l1), l2. repeat split; auto.
      rewrite Hscan. destruct l1 as [|x l1]; [reflexivity|].
      change (List.last (p :: x :: l1) point) with (List.last (x :: l1) point).
      apply last_cons_default.
    + exists [], (p :: rest). repeat split; auto.
Qed.

Lemma time_ordered_app_r l1 l2 :
  time_ordered (l1 ++ l2) = true -> time_ordered l2 = true.
Proof.
  induction l1 as [|p l1 IH]; [auto|].
  intros H. apply IH. apply (time_ordered_cons p (l1 ++ l2) H).
Qed.

Lemma time_ordered_app_l l1 l2 :
  time_ordered (l1 ++ l2) = true -> time_ordered l1 = true.
Proof.
  induction l1 as [|a l1 IH]; [reflexivity|]. intros H.
  destruct l1 as [|b l1]; [reflexivity|].
  cbn [app time_ordered] in H |- *. apply andb_prop in H as [H1 H2].
  rewrite H1. apply IH. exact H2.
Qed.

Lemma time_ordered_le_last l d :
  time_ordered l = true ->
  forall q, In q l -> (timestamp q <= timestamp (List.last l d))%Z.
Proof.
  induction l as [|p l IH]; intros Hord q Hq; [destruct Hq|].
  destruct (time_ordered_cons _ _ Hord) as [Hl Hall].
  destruct l as [|x l].
  - destruct Hq as [->|[]]. cbn. lia.
  - change (List.last (p :: x :: l) d) with (List.last (x :: l) d).
    destruct Hq as [->|Hq]; [|apply IH; assumption].
    rewrite List.Forall_forall in Hall.
    specialize (IH Hl x (or_introl eq_refl)).
    specialize (Hall x (or_introl eq_refl)). lia.
Qed.

Lemma last_in {A} (x : A) l d : In (List.last (x :: l) d) (x :: l).
Proof.
  revert x. induction l as [|y l IH]; intros x; [left; reflexivity|].
  right. apply IH.
Qed.

Lemma last_app_cons {A} (l1 : list A) x l2 d :
  List.last (l1 ++ x :: l2) d = List.last (x :: l2) d.
Proof.
  induction l1 as [|y l1 IH]; [reflexivity|].
  rewrite <- IH. cbn [app]. destruct (l1 ++ x :: l2) eqn:E; [|reflexivity].
  destruct l1; discriminate.
Qed.

(** C9. On a non-empty sequence with non-decreasing timestamps the lookup
    returns a point of the sequence; when some point is at or before the
    target it is one with the latest timestamp not after the target; when
    the target precedes every point it is the first point; when the
    target is at or after the last point's timestamp it is the last
    point. *)
Theorem lookupPoint_latest (targetTime : Z) (pts : list TrackPoint) :
  pts <> [] ->
  time_ordered pts = true ->
  exists p,
    lookupPoint targetTime pts = Some p /\
    In p pts /\
    ((exists q, In q pts /\ (timestamp q <= targetTime)%Z) ->
     (timestamp p <= targetTime)%Z /\
     forall q, In q pts -> (timestamp q <= targetTime)%Z ->
               (timestamp q <= timestamp p)%Z) /\
    ((forall q, In q pts -> (targetTime < timestamp q)%Z) ->
     head pts = Some p) /\
    (forall l, last pts = Some l -> (timestamp l <= targetTime)%Z -> p = l).
Proof.
  intros Hne Hord. destruct pts as [|p0 rest]; [congruence|]. clear Hne.
  cbn [lookupPoint].
  destruct (scan_split targetTime (p0 :: rest) p0)
    as (l1 & l2 & Hsplit & Hl1 & Hl2 & Hscan).
  exists (scan targetTime (p0 :: rest) p0). split; [reflexivity|].
  rewrite Hscan. rewrite List.Forall_forall in Hl1.
  assert (Hafter : forall q, In q l2 -> (targetTime < timestamp q)%Z).
  { rewrite Hsplit in Hord. apply time_ordered_app_r in Hord.
    destruct l2 as [|x l2]; [intros q []|].
    destruct (time_ordered_cons _ _ Hord) as [_ Hall].
    rewrite List.Forall_forall in Hall.
    intros q [<-|Hq]; [exact Hl2|]. specialize (Hall q Hq). lia. }
  assert (Hlast : forall l, last (p0 :: rest) = Some l ->
                            l = List.last (p0 :: rest) p0).
  { intros l Hl. rewrite last_lookup in Hl.
    pose proof (last_in p0 rest p0) as Hin. revert Hl.
    generalize (p0 :: rest) at 1 2 3. intros pts.
    induction pts as [|x pts IH]; [discriminate|].
    destruct pts as [|y pts]; cbn; [congruence|]. intros H. apply IH. exact H. }
  destruct l1 as [|x l1].
  - cbn [List.last]. cbn [app] in Hsplit. subst l2.
    split; [left; reflexivity|]. split; [|split].
    + intros (q & Hq & Hle). specialize (Hafter q Hq). lia.
    + intros _. reflexivity.
    + intros l Hl Hle. apply Hlast in Hl.
      pose proof (last_in p0 rest p0) as Hin. rewrite <- Hl in Hin.
      specialize (Hafter l Hin). lia.
  - pose proof (last_in x l1 p0) as Hin.
    assert (Hp : (timestamp (List.last (x :: l1) p0) <= targetTime)%Z)
      by (apply Hl1; exact Hin).
    split; [rewrite Hsplit; apply in_or_app; left; exact Hin|].
    split; [|split].
    + intros _. split; [exact Hp|]. intros q Hq Hle.
      rewrite Hsplit in Hq. apply in_app_or in Hq as [Hq|Hq].
      * apply time_ordered_le_last; [|exact Hq].
        rewrite Hsplit in Hord. exact (time_ordered_app_l _ _ Hord).
      * specialize (Hafter q Hq). lia.
    + intros Hall. exfalso.
      assert (In (List.last (x :: l1) p0) (p0 :: rest))
        by (rewrite Hsplit; apply in_or_app; left; exact Hin).
      specialize (Hall _ H). lia.
    + intros l Hl Hle. apply Hlast in Hl. subst l.
      destruct l2 as [|y l2].
      * rewrite Hsplit, app_nil_r. apply last_cons_default.
      * exfalso. rewrite Hsplit, last_app_cons in Hle.
        pose proof (last_in y l2 p0) as Hy. specialize (Hafter _ Hy). lia.
Qed.

Lemma lookupPoint_latest_witness :
  [pt 10; pt 20; pt 30] <> [] /\
  time_ordered [pt 10; pt 20; pt 30] = true /\
  exists p, lookupPoint 25 [pt 10; pt 20; pt 30] = Some p /\
            In p [pt 10; pt 20; pt 30].
Proof.
  split; [discriminate|]. split; [reflexivity|].
  destruct (lookupPoint_latest 25 [pt 10; pt 20; pt 30])
    as (p & H1 & H2 & _); [discriminate | reflexivity |].
  exists p. split; assumption.
Defined.

End PlaybackFacts.

(** ** The sample filter of processHistory *)

Module FilterFacts.
Import GeoUtils History Props.

Lemma retained_filters h :
  retained h = has_coords h && in_range h && not_zero h.
Proof.
  unfold retained, has_coords, in_range, not_zero, truthy_num, strict_nonzero.
  destruct (a h) as [[[la|] [lo|] acc bat]|]; cbn; try reflexivity.
  - destruct (Qeq_bool la 0), (Qeq_bool lo 0),
      (Qle_bool (Qabs la) 90), (Qle_bool (Qabs lo) 180); reflexivity.
  - destruct (Qeq_bool la 0); reflexivity.
Qed.

(** C3, as the script has it. The filter keeps, in order, exactly the
    samples whose two coordinates are present, are both different from
    zero, and satisfy |lat| <= 90 and |lng| <= 180. *)
Theorem filter_samples_retained (history : list RawSample) :
  filter_samples history = filter (fun h => retained h = true) history /\
  forall h, In h (filter_samples history) <->
    In h history /\
    exists at_ la lo,
      a h = Some at_ /\ latitude at_ = Some la /\ longitude at_ = Some lo /\
      ~ (la == 0)%Q /\ ~ (lo == 0)%Q /\
      (Qabs la <= 90)%Q /\ (Qabs lo <= 180)%Q.
Proof.
  assert (Heq : filter_samples history
                = filter (fun h => retained h = true) history).
  { unfold filter_samples. induction history as [|h history IH]; [reflexivity|].
    rewrite !filter_cons. rewrite retained_filters.
    destruct (has_coords h) eqn:E1; cbn.
    - rewrite decide_True by reflexivity. rewrite filter_cons.
      destruct (in_range h) eqn:E2; cbn.
      + rewrite decide_True by reflexivity. rewrite filter_cons.
        destruct (not_zero h) eqn:E3; cbn.
        * rewrite !decide_True by reflexivity. f_equal. exact IH.
        * rewrite !decide_False by discriminate. exact IH.
      + rewrite !decide_False by discriminate. exact IH.
    - rewrite !decide_False by discriminate. exact IH. }
  split; [exact Heq|]. intros h. rewrite Heq.
  rewrite <- list_elem_of_In, list_elem_of_filter, list_elem_of_In.
  unfold retained. split.
  - intros [Hr Hin]. split; [exact Hin|].
    destruct (a h) as [[[la|] [lo|] acc bat]|]; try discriminate.
    apply andb_prop in Hr as [Hr Hlo]. apply andb_prop in Hr as [Hr Hla].
    apply andb_prop in Hr as [Hra Hro].
    exists {| latitude := Some la; longitude := Some lo;
              gps_accuracy := acc; battery_level := bat |}, la, lo.
    apply Qle_bool_iff in Hra, Hro.
    apply negb_true_iff in Hla, Hlo.
    repeat split; auto.
    + intros H. apply Qeq_bool_iff in H. congruence.
    + intros H. apply Qeq_bool_iff in H. congruence.
  - intros [Hin (at_ & la & lo & Ha & Hla & Hlo & Hnla & Hnlo & Hra & Hro)].
    split; [|exact Hin]. rewrite Ha. destruct at_ as [la' lo' acc bat].
    cbn in Hla, Hlo. subst la' lo'.
    apply Qle_bool_iff in Hra, Hro. rewrite Hra, Hro. cbn.
    destruct (Qeq_bool la 0) eqn:E1; [apply Qeq_bool_iff in E1; contradiction|].
    destruct (Qeq_bool lo 0) eqn:E2; [apply Qeq_bool_iff in E2; contradiction|].
    reflexivity.
Qed.

(** C3, as the specification has it, fails on a sample with latitude 0
    and longitude 10: it is in range and is not the point (0,0), yet the
    filter drops it. *)
Lemma filter_samples_drops_equator :
  spec_retained equator_sample = true /\
  filter_samples [equator_sample] = [].
Proof. split; reflexivity. Qed.

End FilterFacts.

(** ** Distances at the example positions *)

Module GeoFacts.
Import GeoUtils Props.
Local Open Scope R_scope.

Lemma hav_a_north_south : hav_a north south = 1 / 2.
Proof.
  unfold hav_a, north, south, toRad. cbn [lat lng].
  replace (Q2R 90 - Q2R 90) with 0 by lra.
  replace (0 * PI / 180 / 2) with 0 by lra. rewrite sin_0.
  replace ((Q2R (-45) - Q2R 45) * PI / 180 / 2) with (- (PI / 4))
    by (unfold Q2R; cbn; lra).
  rewrite sin_neg, sin_PI4.
  assert (H2 : sqrt 2 * sqrt 2 = 2) by (apply sqrt_sqrt; lra).
  assert (Hs : sqrt 2 <> 0) by (intros E; rewrite E in H2; lra).
  field_simplify; [|exact Hs].
  replace (sqrt 2 ^ 2) with 2 by (simpl; lra). lra.
Qed.

Lemma distance_north_south : distance north south = R_earth * PI / 2.
Proof.
  unfold distance. rewrite hav_a_north_south.
  replace (1 - 1 / 2) with (1 / 2) by lra.
  assert (Hp : 0 < sqrt (1 / 2)) by (apply sqrt_lt_R0; lra).
  unfold atan2. destruct (Rlt_dec 0 (sqrt (1 / 2))); [|contradiction].
  replace (sqrt (1 / 2) / sqrt (1 / 2)) with 1 by (field; lra).
  rewrite atan_1. lra.
Qed.

Lemma hav_a_sym p q : hav_a p q = hav_a q p.
Proof.
  unfold hav_a.
  replace (toRad (Q2R (lat p) - Q2R (lat q)) / 2)
    with (- (toRad (Q2R (lat q) - Q2R (lat p)) / 2)) by (unfold toRad; lra).
  replace (toRad (Q2R (lng p) - Q2R (lng q)) / 2)
    with (- (toRad (Q2R (lng q) - Q2R (lng p)) / 2)) by (unfold toRad; lra).
  rewrite !sin_neg. ring.
Qed.

Lemma distance_sym p q : distance p q = distance q p.
Proof. unfold distance. rewrite (hav_a_sym p q). reflexivity. Qed.

Lemma distance_north_south_far : distance north south > 9000000.
Proof.
  rewrite distance_north_south. unfold R_earth.
  pose proof PI2_3_2. lra.
Qed.

End GeoFacts.

(** ** Sorting and thinning in processHistory *)

Module ThinFacts.
Import GeoUtils History Props.

Lemma time_ordered_from p rest :
  time_ordered (p :: rest) = true <-> ordered_from (timestamp p) rest.
Proof.
  revert p. induction rest as [|q rest IH]; intros p.
  - cbn. tauto.
  - change (time_ordered (p :: q :: rest))
      with ((timestamp p <=? timestamp q)%Z && time_ordered (q :: rest)).
    cbn [ordered_from]. rewrite andb_true_iff, Z.leb_le, IH. tauto.
Qed.

Lemma ordered_from_weaken t t' pts :
  (t <= t')%Z -> ordered_from t' pts -> ordered_from t pts.
Proof. destruct pts; cbn; [auto|]. intros ? [? ?]. split; [lia|auto]. Qed.

Lemma insert_ordered p : forall t pts,
  (t <= timestamp p)%Z -> ordered_from t pts ->
  ordered_from t (insert_by_time p pts).
Proof.
  intros t pts. revert t. induction pts as [|q pts IH]; intros t Ht Hord.
  - cbn. auto.
  - cbn [insert_by_time]. destruct Hord as [Hq Hord].
    destruct (Z.leb_spec (timestamp p) (timestamp q)).
    + cbn. auto.
    + cbn [ordered_from]. split; [exact Hq|]. apply IH; [lia|exact Hord].
Qed.

Lemma sort_ordered pts : time_ordered (sort_by_time pts) = true.
Proof.
  induction pts as [|p pts IH]; [reflexivity|].
  cbn [sort_by_time foldr]. fold (sort_by_time pts).
  destruct (sort_by_time pts) as [|q l] eqn:E; [reflexivity|].
  apply time_ordered_from in IH. cbn [insert_by_time].
  destruct (Z.leb_spec (timestamp p) (timestamp q)).
  - apply time_ordered_from. cbn. auto.
  - apply time_ordered_from. apply insert_ordered; [lia|exact IH].
Qed.

Lemma enrich_timestamp lp zones point :
  timestamp (enrich lp zones point) = timestamp point.
Proof. reflexivity. Qed.

Lemma enrich_pos lp zones point : pos (enrich lp zones point) = pos point.
Proof. reflexivity. Qed.

Lemma thin_ordered zones : forall pts t lp,
  ordered_from t pts -> ordered_from t (thin zones lp pts).
Proof.
  induction pts as [|q pts IH]; intros t lp Hord; [exact I|].
  destruct Hord as [Hq Hord]. cbn [thin].
  match goal with |- context [if ?b then _ else _] => destruct b end.
  - cbn [ordered_from]. rewrite enrich_timestamp. split; [exact Hq|].
    apply IH. exact Hord.
  - apply IH. eapply ordered_from_weaken; eassumption.
Qed.

Lemma thin_separated zones : forall pts lp,
  separated_from lp (thin zones lp pts).
Proof.
  induction pts as [|q pts IH]; intros lp; [exact I|].
  cbn [thin]. destruct lp as [p|].
  - destruct (Rgtb (GeoUtils.distance (pos p) (pos q)) 15) eqn:E.
    + cbn [separated_from]. rewrite enrich_pos. split; [|apply IH].
      apply Rgtb_true. exact E.
    + apply IH.
  - cbn [separated_from]. split; [exact I|apply IH].
Qed.

Lemma separated_from_index lp pts :
  separated_from lp pts -> separated pts.
Proof.
  revert lp. induction pts as [|p pts IH]; intros lp Hsep i x y Hx Hy.
  - discriminate.
  - destruct Hsep as [_ Hsep]. destruct i as [|i].
    + cbn in Hx, Hy. injection Hx as <-.
      destruct pts as [|q pts]; [discriminate|].
      cbn in Hy. injection Hy as <-. apply Hsep.
    + exact (IH _ Hsep i x y Hx Hy).
Qed.

Lemma time_ordered_thin zones pts :
  time_ordered pts = true -> time_ordered (thin zones None pts) = true.
Proof.
  destruct pts as [|p pts]; [reflexivity|]. intros H.
  apply time_ordered_from in H. cbn [thin].
  apply time_ordered_from. rewrite enrich_timestamp.
  apply thin_ordered. exact H.
Qed.

(** C4, as the script has it. For every sample list the returned points
    have non-decreasing timestamps, every point after the first lies
    more than 15 m from its predecessor in the sequence, and the first
    sample that survives filtering and sorting is always kept. *)
Theorem processHistory_points_invariant
    (history : list RawSample) (zones : list (string * Zone)) :
  time_ordered (points (processHistory history zones)) = true /\
  separated (points (processHistory history zones)) /\
  head (points (processHistory history zones)) =
    enrich None zones <$>
      head (sort_by_time (map to_point (filter_samples history))).
Proof.
  unfold processHistory. cbn [points]. split; [|split].
  - apply time_ordered_thin, sort_ordered.
  - eapply separated_from_index, thin_separated.
  - destruct (sort_by_time _); reflexivity.
Qed.

Lemma timestamp_sample_at p t : timestamp (to_point (sample_at p t)) = t.
Proof.
  unfold to_point, stamp_of, sample_at. cbn [a lu lc timestamp].
  destruct (t =? 0)%Z; reflexivity.
Qed.

Lemma points_north_south t1 t2 zones :
  (t1 <= t2)%Z ->
  points (processHistory [sample_at north t1; sample_at south t2] zones) =
    [enrich None zones (to_point (sample_at north t1));
     enrich (Some (enrich None zones (to_point (sample_at north t1)))) zones
            (to_point (sample_at south t2))].
Proof.
  intros Ht. unfold processHistory. cbn [points].
  assert (Hf : filter_samples [sample_at north t1; sample_at south t2]
               = [sample_at north t1; sample_at south t2]) by reflexivity.
  rewrite Hf. cbn [map sort_by_time foldr insert_by_time].
  rewrite !timestamp_sample_at.
  apply Z.leb_le in Ht. rewrite Ht. cbn [thin].
  rewrite enrich_pos.
  replace (pos (to_point (sample_at north t1))) with north by reflexivity.
  replace (pos (to_point (sample_at south t2))) with south by reflexivity.
  assert (Hd : Rgtb (GeoUtils.distance north south) 15 = true).
  { apply Rgtb_true. pose proof GeoFacts.distance_north_south_far. lra. }
  rewrite Hd. reflexivity.
Qed.

(** C4, as the specification has it, fails on two samples that carry the
    same timestamp and lie far apart: both are kept, so the timestamps
    of the returned points do not strictly increase. *)
Lemma processHistory_points_not_increasing :
  time_increasing (points (processHistory twin_history [])) = false.
Proof.
  unfold twin_history. rewrite points_north_south by lia. reflexivity.
Qed.

End ThinFacts.

(** ** Statistics *)

Module StatsFacts.
Import GeoUtils History Props.
Local Open Scope R_scope.

Lemma seconds_chain t1 t2 t3 :
  seconds t1 t2 + seconds t2 t3 = seconds t1 t3.
Proof.
  unfold seconds. rewrite !minus_IZR. lra.
Qed.

Lemma seconds_nonneg t1 t2 : (t1 <= t2)%Z -> 0 <= seconds t1 t2.
Proof.
  intros H. unfold seconds. apply IZR_le in H. rewrite minus_IZR. lra.
Qed.

(** Every interval goes to exactly one of moving and stationary, and the
    driving intervals are among the moving ones. *)
Lemma time_loop_split : forall rest prev mv stn drv,
  match time_loop prev rest (mv, stn, drv) with
  | (mv', stn', drv') =>
      mv' + stn' =
        mv + stn + seconds (timestamp prev) (timestamp (List.last rest prev)) /\
      (ordered_from (timestamp prev) rest -> drv <= mv -> drv' <= mv')
  end.
Proof.
  induction rest as [|p rest IH]; intros prev mv stn drv.
  - cbn. unfold seconds. rewrite Z.sub_diag. split; lra.
  - cbn [time_loop]. unfold time_step.
    assert (Hlast : List.last (p :: rest) prev = List.last rest p)
      by (destruct rest as [|x r];
          [reflexivity | exact (PlaybackFacts.last_cons_default x r prev p)]).
    rewrite Hlast.
    rewrite <- (seconds_chain (timestamp prev) (timestamp p)
                  (timestamp (List.last rest p))).
    destruct (isDriving p); [|destruct (isMoving p)].
    + specialize (IH p (mv + seconds (timestamp prev) (timestamp p)) stn
                    (drv + seconds (timestamp prev) (timestamp p))).
      destruct (time_loop p rest _) as [[mv' stn'] drv'].
      destruct IH as [IH1 IH2]. split; [lra|].
      intros [Hp Hord] Hle. apply IH2; [exact Hord|lra].
    + specialize (IH p (mv + seconds (timestamp prev) (timestamp p)) stn drv).
      destruct (time_loop p rest _) as [[mv' stn'] drv'].
      destruct IH as [IH1 IH2]. split; [lra|].
      intros [Hp Hord] Hle. apply IH2; [exact Hord|].
      pose proof (seconds_nonneg _ _ Hp). lra.
    + specialize (IH p mv (stn + seconds (timestamp prev) (timestamp p)) drv).
      destruct (time_loop p rest _) as [[mv' stn'] drv'].
      destruct IH as [IH1 IH2]. split; [lra|].
      intros [Hp Hord] Hle. apply IH2; [exact Hord|lra].
Qed.

Lemma stats_split (pts : list TrackPoint) :
  time_ordered pts = true ->
  movingTime (_calculateStats pts) + stationaryTime (_calculateStats pts)
    = st_duration (_calculateStats pts) /\
  drivingTime (_calculateStats pts) <= movingTime (_calculateStats pts) /\
  forall p0 pl, (2 <= length pts)%nat -> head pts = Some p0 ->
                last pts = Some pl ->
    st_duration (_calculateStats pts) = seconds (timestamp p0) (timestamp pl).
Proof.
  intros Hord. destruct pts as [|p0 [|p1 rest]].
  - cbn. split; [lra|]. split; [lra|]. intros ? ? H. cbn in H. lia.
  - cbn. split; [lra|]. split; [lra|]. intros ? ? H. cbn in H. lia.
  - apply ThinFacts.time_ordered_from in Hord.
    unfold _calculateStats.
    pose proof (time_loop_split (p1 :: rest) p0 0 0 0) as H.
    destruct (time_loop p0 (p1 :: rest) (0, 0, 0)) as [[mv stn] drv].
    destruct H as [H1 H2]. cbn [movingTime stationaryTime drivingTime st_duration].
    assert (Hl : List.last (p0 :: p1 :: rest) p0 = List.last (p1 :: rest) p0)
      by reflexivity.
    rewrite Hl. split; [lra|]. split; [apply H2; [exact Hord|lra]|].
    intros q0 ql _ Hq0 Hql. cbn in Hq0. injection Hq0 as <-.
    f_equal. f_equal.
    clear -Hql. revert Hql. change (p0 :: p1 :: rest) with ([p0] ++ p1 :: rest).
    rewrite last_app. generalize p0 at 2. revert p1.
    induction rest as [|x rest IH]; intros p1 d; cbn.
    + congruence.
    + intros H. apply (IH x d). cbn. exact H.
Qed.

End StatsFacts.

(** ** Zone-time aggregation *)

Module ZoneFacts.
Import GeoUtils History Props.
Local Open Scope R_scope.

Lemma total_duration_insert_fresh (m : gmap string ZoneEntry) k e :
  m !! k = None ->
  total_duration (<[k := e]> m) = ze_duration e + total_duration m.
Proof.
  intros Hk. unfold total_duration.
  rewrite map_fold_insert_L; [reflexivity| |exact Hk].
  intros. lra.
Qed.

Lemma total_duration_delete (m : gmap string ZoneEntry) k :
  total_duration m = duration_of k m + total_duration (delete k m).
Proof.
  unfold duration_of. destruct (m !! k) as [e|] eqn:E.
  - rewrite <- (insert_delete_id m k e E) at 1.
    apply total_duration_insert_fresh, lookup_delete_eq.
  - rewrite delete_id by exact E. lra.
Qed.

Lemma total_duration_insert (m : gmap string ZoneEntry) k e :
  total_duration (<[k := e]> m)
  = total_duration m - duration_of k m + ze_duration e.
Proof.
  rewrite <- insert_delete_eq.
  rewrite total_duration_insert_fresh by apply lookup_delete_eq.
  rewrite (total_duration_delete m k). lra.
Qed.

(** The effect of one iteration on the table, in closed form. *)
Lemma zone_step_insert prev p lastZone (zt : gmap string ZoneEntry) :
  zone_step prev p (lastZone, zt) =
    (Some (zoneNameOf p),
     <[zoneNameOf p :=
         (if decide (lastZone = Some (zoneNameOf p)) then fun e => e
          else add_visit)
           (add_time (seconds (timestamp prev) (timestamp p)) (timestamp p)
              (default empty_entry (zt !! zoneNameOf p)))]> zt).
Proof.
  unfold zone_step. f_equal.
  set (zn := zoneNameOf p). set (dt := seconds _ _).
  destruct (zt !! zn) as [e|] eqn:E; cbn [default].
  - rewrite (alter_alt_Some _ _ _ e E).
    destruct (decide (lastZone = Some zn)); [reflexivity|].
    apply alter_insert_eq.
  - rewrite alter_insert_eq.
    destruct (decide (lastZone = Some zn)); [reflexivity|].
    apply alter_insert_eq.
Qed.

Lemma zone_step_total prev p lastZone (zt : gmap string ZoneEntry) :
  total_duration (zone_step prev p (lastZone, zt)).2
  = total_duration zt + seconds (timestamp prev) (timestamp p).
Proof.
  rewrite zone_step_insert. cbn [snd]. rewrite total_duration_insert.
  unfold duration_of.
  destruct (decide (lastZone = Some (zoneNameOf p)));
    destruct (zt !! zoneNameOf p); cbn; lra.
Qed.

Lemma zone_loop_total : forall rest prev lastZone (zt : gmap string ZoneEntry),
  total_duration (zone_loop prev rest (lastZone, zt))
  = total_duration zt
    + seconds (timestamp prev) (timestamp (List.last rest prev)).
Proof.
  induction rest as [|p rest IH]; intros prev lastZone zt.
  - cbn. unfold seconds. rewrite Z.sub_diag. lra.
  - cbn [zone_loop]. destruct (zone_step prev p (lastZone, zt)) as [lz zt'] eqn:E.
    rewrite IH. pose proof (zone_step_total prev p lastZone zt) as H.
    rewrite E in H. cbn [snd] in H. rewrite H.
    assert (Hlast : List.last (p :: rest) prev = List.last rest p)
      by (destruct rest as [|x r];
          [reflexivity | exact (PlaybackFacts.last_cons_default x r prev p)]).
    rewrite Hlast.
    rewrite <- (StatsFacts.seconds_chain (timestamp prev) (timestamp p)
                  (timestamp (List.last rest p))).
    lra.
Qed.

Lemma foldl_empty_entries zones : forall (m : gmap string ZoneEntry),
  (forall k e, m !! k = Some e -> e = empty_entry) ->
  forall k e,
    foldl (fun (m : gmap string ZoneEntry) (z : string * Zone) =>
             <[zname (snd z) := empty_entry]> m) m zones !! k = Some e ->
    e = empty_entry.
Proof.
  induction zones as [|z zones IH]; intros m Hm k e; cbn [foldl].
  - apply Hm.
  - apply IH. intros k' e'. rewrite lookup_insert.
    destruct (decide (zname z.2 = k')); [congruence|apply Hm].
Qed.

Lemma init_zoneTime_entries zones k e :
  init_zoneTime zones !! k = Some e -> e = empty_entry.
Proof.
  unfold init_zoneTime. rewrite lookup_insert.
  destruct (decide ("Away" = k)); [congruence|].
  apply foldl_empty_entries. intros k' e'. rewrite lookup_empty. discriminate.
Qed.

Lemma total_duration_zero (m : gmap string ZoneEntry) :
  (forall k e, m !! k = Some e -> ze_duration e = 0) ->
  total_duration m = 0.
Proof.
  unfold total_duration.
  apply (map_fold_weak_ind
           (fun r (m : gmap string ZoneEntry) =>
              (forall k e, m !! k = Some e -> ze_duration e = 0) -> r = 0)).
  - reflexivity.
  - intros i x m' r Hi IH Hall.
    rewrite (Hall i x) by apply lookup_insert_eq.
    rewrite IH; [lra|]. intros k e Hk. apply (Hall k).
    rewrite lookup_insert_ne; [exact Hk|]. congruence.
Qed.

Lemma init_zoneTime_total zones : total_duration (init_zoneTime zones) = 0.
Proof.
  apply total_duration_zero. intros k e H.
  apply init_zoneTime_entries in H. subst e. reflexivity.
Qed.

(** Over the real numbers the durations of all entries add up to the
    time from the first to the last point. *)
Lemma zoneTime_total_exact
    (pts : list TrackPoint) (zones : list (string * Zone)) :
  total_duration (_calculateZoneTime pts zones) = elapsed pts /\
  ((length pts <= 1)%nat ->
   total_duration (_calculateZoneTime pts zones) = 0).
Proof.
  assert (H : total_duration (_calculateZoneTime pts zones) = elapsed pts).
  { destruct pts as [|p0 rest]; cbn [_calculateZoneTime elapsed].
    - apply init_zoneTime_total.
    - rewrite zone_loop_total, init_zoneTime_total. lra. }
  split; [exact H|]. intros Hlen. rewrite H.
  destruct pts as [|p0 [|p1 rest]]; cbn [elapsed List.last].
  - reflexivity.
  - unfold seconds. rewrite Z.sub_diag. lra.
  - cbn in Hlen. lia.
Qed.

Lemma visits_of_insert (m : gmap string ZoneEntry) k e z :
  visits_of z (<[k := e]> m) = if decide (k = z) then visits e else visits_of z m.
Proof.
  unfold visits_of. rewrite lookup_insert.
  destruct (decide (k = z)); reflexivity.
Qed.

Lemma zone_step_visits prev p lastZone (zt : gmap string ZoneEntry) z :
  visits_of z (zone_step prev p (lastZone, zt)).2
  = (visits_of z zt
     + if decide (zoneNameOf p = z /\ lastZone <> Some (zoneNameOf p))
       then 1 else 0)%nat.
Proof.
  rewrite zone_step_insert. cbn [snd]. rewrite visits_of_insert.
  destruct (decide (zoneNameOf p = z)) as [Hz|Hz].
  - subst z. unfold visits_of.
    destruct (decide (lastZone = Some (zoneNameOf p))) as [Hl|Hl].
    + rewrite decide_False by tauto.
      destruct (zt !! zoneNameOf p); cbn; lia.
    + rewrite decide_True by tauto.
      destruct (zt !! zoneNameOf p); cbn; lia.
  - rewrite decide_False by tauto. lia.
Qed.

Lemma zone_loop_visits z : forall rest prev lastZone (zt : gmap string ZoneEntry),
  visits_of z (zone_loop prev rest (lastZone, zt))
  = (visits_of z zt + visit_count z lastZone (map zoneNameOf rest))%nat.
Proof.
  induction rest as [|p rest IH]; intros prev lastZone zt.
  - cbn. lia.
  - cbn [zone_loop map visit_count].
    pose proof (zone_step_visits prev p lastZone zt z) as H.
    rewrite zone_step_insert in H |- *. cbn [snd] in H.
    rewrite IH, H. lia.
Qed.

Lemma init_zoneTime_visits zones z : visits_of z (init_zoneTime zones) = 0%nat.
Proof.
  unfold visits_of. destruct (init_zoneTime zones !! z) as [e|] eqn:E;
    [|reflexivity].
  apply init_zoneTime_entries in E. subst e. reflexivity.
Qed.

(** The loop counts a visit at a point whenever its zone name differs
    from [lastZone], which is [null] at the first pair. *)
Lemma visits_counted pts zones z :
  visits_of z (_calculateZoneTime pts zones)
  = visit_count z None (map zoneNameOf (tail pts)).
Proof.
  destruct pts as [|p0 rest]; cbn [_calculateZoneTime tail].
  - apply init_zoneTime_visits.
  - rewrite zone_loop_visits, init_zoneTime_visits. reflexivity.
Qed.

Lemma visit_count_changes z : forall names a,
  visit_count z (Some a) names = zone_changes z (a :: names).
Proof.
  unfold zone_changes.
  induction names as [|n names IH]; intros a; [reflexivity|].
  cbn [visit_count tail zip zip_with]. rewrite filter_cons. cbn [fst snd].
  rewrite IH. cbn [tail].
  destruct (decide (n = z /\ Some a <> Some n)) as [H|H].
  - rewrite decide_True; [reflexivity|]. destruct H as [H1 H2].
    split; [exact H1|]. congruence.
  - rewrite decide_False; [reflexivity|]. intros [H1 H2]. apply H.
    split; [exact H1|]. congruence.
Qed.

(** C8, as the script has it. The visit count of a zone is the number of
    points i >= 1 whose zone name (or Away) is that zone and for which
    either i = 1 or the zone name differs from that of point i-1: the
    first pair always counts a visit for the second point's zone, later
    pairs count exactly on a change of zone. *)
Theorem visits_first_pair_and_changes
    (pts : list TrackPoint) (zones : list (string * Zone)) (z : string) :
  visits_of z (_calculateZoneTime pts zones)
  = (match pts with
     | _ :: p1 :: _ => if decide (zoneNameOf p1 = z) then 1 else 0
     | _ => 0
     end
     + zone_changes z (map zoneNameOf (tail pts)))%nat.
Proof.
  rewrite visits_counted. destruct pts as [|p0 [|p1 rest]]; try reflexivity.
  cbn [tail map visit_count]. rewrite visit_count_changes.
  destruct (decide (zoneNameOf p1 = z)) as [H|H].
  - rewrite decide_True; [reflexivity|]. split; [exact H|discriminate].
  - rewrite decide_False; [reflexivity|]. tauto.
Qed.

(** C8, as the specification has it, fails on two points in the same
    zone: the zone does not change between them, yet walking the pair
    counts one visit. *)
Lemma visits_same_zone_counted :
  zoneNameOf (home_pt 1 0) = zoneNameOf (home_pt (1001 # 1000) 60000) /\
  zone_changes "Home"
    (map zoneNameOf [home_pt 1 0; home_pt (1001 # 1000) 60000]) = 0%nat /\
  visits_of "Home"
    (_calculateZoneTime [home_pt 1 0; home_pt (1001 # 1000) 60000] []) = 1%nat.
Proof.
  split; [reflexivity|]. split; [reflexivity|].
  rewrite visits_counted. reflexivity.
Qed.

End ZoneFacts.

(** ** The duration loops: what holds in every arithmetic *)

Module LoopFacts.
Import GeoUtils History Props Loops LoopProps.

Section Generic.
Context (A : Arith).

(** The effect of one iteration on the table, in closed form. *)
Lemma loop_zone_step_insert prev p lastZone (zt : gmap string (Entry A)) :
  zone_step_in A prev p (lastZone, zt) =
    (Some (zoneNameOf p),
     <[zoneNameOf p :=
         (if decide (lastZone = Some (zoneNameOf p)) then fun e => e
          else add_visit_in A)
           (add_time_in A (secs A (timestamp prev) (timestamp p)) (timestamp p)
              (default (empty_entry_in A) (zt !! zoneNameOf p)))]> zt).
Proof.
  unfold zone_step_in. f_equal.
  set (zn := zoneNameOf p). set (dt := secs A _ _).
  destruct (zt !! zn) as [e|] eqn:E; cbn [default].
  - rewrite (alter_alt_Some _ _ _ e E).
    destruct (decide (lastZone = Some zn)); [reflexivity|].
    apply alter_insert_eq.
  - rewrite alter_insert_eq.
    destruct (decide (lastZone = Some zn)); [reflexivity|].
    apply alter_insert_eq.
Qed.

Lemma duration_in_insert (m : gmap string (Entry A)) k e z :
  duration_in A z (<[k := e]> m)
  = if decide (k = z) then e_duration e else duration_in A z m.
Proof.
  unfold duration_in. rewrite lookup_insert.
  destruct (decide (k = z)); reflexivity.
Qed.

Lemma loop_zone_loop_running z :
  forall rest prev lastZone (zt : gmap string (Entry A)),
  duration_in A z (zone_loop_in A prev rest (lastZone, zt))
  = fold_left (fun acc ab =>
                 add A acc (secs A (timestamp ab.1) (timestamp ab.2)))
      (filter (fun ab : TrackPoint * TrackPoint => zoneNameOf ab.2 = z)
              (steps (prev :: rest)))
      (duration_in A z zt).
Proof.
  unfold steps.
  induction rest as [|p rest IH]; intros prev lastZone zt.
  - reflexivity.
  - cbn [zone_loop_in]. rewrite loop_zone_step_insert, IH, duration_in_insert.
    cbn [tail zip zip_with]. rewrite (filter_cons _ (prev, p)). cbn [snd].
    destruct (decide (zoneNameOf p = z)) as [Hz|Hz]; [|reflexivity].
    cbn [fold_left fst snd]. f_equal. subst z. unfold duration_in.
    destruct (decide (lastZone = Some (zoneNameOf p)));
      destruct (zt !! zoneNameOf p); reflexivity.
Qed.

Lemma loop_zone_loop_keys z :
  forall rest prev lastZone (zt : gmap string (Entry A)),
  is_Some (zone_loop_in A prev rest (lastZone, zt) !! z) <->
  is_Some (zt !! z) \/ exists p, In p rest /\ zoneNameOf p = z.
Proof.
  induction rest as [|p rest IH]; intros prev lastZone zt.
  - cbn. split; [auto|]. intros [H|(p & [] & _)]. exact H.
  - cbn [zone_loop_in]. rewrite loop_zone_step_insert, IH, lookup_insert.
    destruct (decide (zoneNameOf p = z)) as [Hz|Hz].
    + split; [|intros _; left; eauto].
      intros _. right. exists p. split; [left; reflexivity|exact Hz].
    + split.
      * intros [H|(q & Hin & Hq)]; [left; exact H|].
        right. exists q. split; [right; exact Hin|exact Hq].
      * intros [H|(q & [<-|Hin] & Hq)]; [left; exact H|contradiction|].
        right. exists q. split; assumption.
Qed.

Lemma loop_foldl_empty zones : forall (m : gmap string (Entry A)),
  (forall k e, m !! k = Some e -> e = empty_entry_in A) ->
  forall k e,
    foldl (fun (m : gmap string (Entry A)) (z : string * Zone) =>
             <[zname (snd z) := empty_entry_in A]> m) m zones !! k = Some e ->
    e = empty_entry_in A.
Proof.
  induction zones as [|z zones IH]; intros m Hm k e; cbn [foldl].
  - apply Hm.
  - apply IH. intros k' e'. rewrite lookup_insert.
    destruct (decide (zname z.2 = k')); [congruence|apply Hm].
Qed.

Lemma loop_init_duration zones z :
  duration_in A z (init_zoneTime_in A zones) = zero A.
Proof.
  unfold duration_in. destruct (init_zoneTime_in A zones !! z) as [e|] eqn:E;
    [|reflexivity].
  assert (He : e = empty_entry_in A); [|subst e; reflexivity].
  revert E. unfold init_zoneTime_in. rewrite lookup_insert.
  destruct (decide ("Away" = z)); [congruence|].
  apply loop_foldl_empty. intros k' e'. rewrite lookup_empty. discriminate.
Qed.

Lemma zoneTime_duration_sum pts zones z :
  duration_in A z (Loops._calculateZoneTime_in A pts zones)
  = running_sum A (filter (fun ab : TrackPoint * TrackPoint =>
                             zoneNameOf ab.2 = z) (steps pts)).
Proof.
  unfold running_sum.
  destruct pts as [|p0 rest]; cbn [Loops._calculateZoneTime_in].
  - apply loop_init_duration.
  - rewrite loop_zone_loop_running, loop_init_duration. reflexivity.
Qed.

Lemma zoneTime_has_entry pts zones p :
  In p (tail pts) ->
  is_Some (Loops._calculateZoneTime_in A pts zones !! zoneNameOf p).
Proof.
  destruct pts as [|p0 rest]; cbn [tail Loops._calculateZoneTime_in];
    [intros []|].
  intros Hp. apply loop_zone_loop_keys. right. exists p. auto.
Qed.

Lemma loop_time_loop_running : forall rest prev mv stn drv,
  time_loop_in A prev rest (mv, stn, drv)
  = (fold_left (fun acc ab =>
                  add A acc (secs A (timestamp ab.1) (timestamp ab.2)))
       (filter (fun ab => moving_step ab = true) (steps (prev :: rest))) mv,
     fold_left (fun acc ab =>
                  add A acc (secs A (timestamp ab.1) (timestamp ab.2)))
       (filter (fun ab => moving_step ab = false) (steps (prev :: rest))) stn,
     fold_left (fun acc ab =>
                  add A acc (secs A (timestamp ab.1) (timestamp ab.2)))
       (filter (fun ab => driving_step ab = true) (steps (prev :: rest))) drv).
Proof.
  unfold steps.
  induction rest as [|p rest IH]; intros prev mv stn drv; [reflexivity|].
  cbn [time_loop_in tail zip zip_with]. rewrite !(filter_cons _ (prev, p)).
  unfold time_step_in.
  destruct (isDriving p) eqn:Ed; [|destruct (isMoving p) eqn:Em];
    rewrite IH; repeat case_decide;
    unfold moving_step, driving_step in *; cbn [snd] in *;
    rewrite ?Ed, ?Em in *; cbn [orb negb] in *;
    try congruence; reflexivity.
Qed.

(** The loops read the view of a point only. *)
Lemma zone_loop_in_view : forall rest rest' prev prev' st,
  timestamp prev = timestamp prev' -> map view rest = map view rest' ->
  zone_loop_in A prev rest st = zone_loop_in A prev' rest' st.
Proof.
  induction rest as [|p rest IH]; intros [|p' rest'] prev prev' st Hprev Hv;
    try discriminate; [reflexivity|].
  cbn [map] in Hv. injection Hv as Ht Hz _ _ Hrest.
  cbn [zone_loop_in].
  assert (Hstep : zone_step_in A prev p st = zone_step_in A prev' p' st).
  { destruct st as [lastZone zt]. unfold zone_step_in.
    rewrite Hprev, Ht, Hz. reflexivity. }
  rewrite Hstep. apply IH; assumption.
Qed.

Lemma time_loop_in_view : forall rest rest' prev prev' acc,
  timestamp prev = timestamp prev' -> map view rest = map view rest' ->
  time_loop_in A prev rest acc = time_loop_in A prev' rest' acc.
Proof.
  induction rest as [|p rest IH]; intros [|p' rest'] prev prev' acc Hprev Hv;
    try discriminate; [reflexivity|].
  cbn [map] in Hv. injection Hv as Ht _ Hm Hd Hrest.
  cbn [time_loop_in].
  assert (Hstep : time_step_in A prev p acc = time_step_in A prev' p' acc).
  { destruct acc as [[mv stn] drv]. unfold time_step_in.
    rewrite Hprev, Ht, Hm, Hd. reflexivity. }
  rewrite Hstep. apply IH; assumption.
Qed.

Lemma last_view : forall rest rest' (d d' : TrackPoint),
  timestamp d = timestamp d' -> map view rest = map view rest' ->
  timestamp (List.last rest d) = timestamp (List.last rest' d').
Proof.
  induction rest as [|p rest IH]; intros [|p' rest'] d d' Hd Hv;
    try discriminate; [exact Hd|].
  cbn [map] in Hv. injection Hv as Ht _ _ _ Hrest.
  destruct rest as [|q rest]; destruct rest' as [|q' rest'];
    try discriminate.
  - exact Ht.
  - change (List.last (p :: q :: rest) d) with (List.last (q :: rest) d).
    change (List.last (p' :: q' :: rest') d')
      with (List.last (q' :: rest') d').
    apply IH; assumption.
Qed.

Lemma loops_view pts pts' zones :
  map view pts = map view pts' ->
  _calculateZoneTime_in A pts zones = _calculateZoneTime_in A pts' zones /\
  stats_times A pts = stats_times A pts' /\
  elapsed_in A pts = elapsed_in A pts'.
Proof.
  intros Hv. destruct pts as [|p0 rest]; destruct pts' as [|p0' rest'];
    try discriminate; [repeat split|].
  cbn [map] in Hv. injection Hv as Ht Hz Hm Hd Hrest.
  split; [|split].
  - cbn [_calculateZoneTime_in]. apply zone_loop_in_view; assumption.
  - destruct rest as [|p1 rest]; destruct rest' as [|p1' rest'];
      try discriminate; [reflexivity|].
    unfold stats_times.
    rewrite (time_loop_in_view (p1 :: rest) (p1' :: rest') p0 p0' _ Ht Hrest).
    rewrite (last_view (p0 :: p1 :: rest) (p0' :: p1' :: rest') p0 p0' Ht).
    + rewrite Ht. reflexivity.
    + cbn [map]. unfold view at 1 3. rewrite Ht, Hz, Hm, Hd. f_equal.
      exact Hrest.
  - destruct rest as [|p1 rest]; destruct rest' as [|p1' rest'];
      try discriminate; [reflexivity|].
    unfold elapsed_in.
    rewrite (last_view (p1 :: rest) (p1' :: rest') p0 p0' Ht Hrest), Ht.
    reflexivity.
Qed.

Lemma stats_times_sums pts :
  stats_times A pts
  = (elapsed_in A pts,
     running_sum A (filter (fun ab => moving_step ab = true) (steps pts)),
     running_sum A (filter (fun ab => moving_step ab = false) (steps pts)),
     running_sum A (filter (fun ab => driving_step ab = true) (steps pts))).
Proof.
  destruct pts as [|p0 [|p1 rest]]; [reflexivity|reflexivity|].
  unfold stats_times. rewrite loop_time_loop_running. reflexivity.
Qed.

End Generic.

(** *** The real numbers: the idealised embedding *)

Lemma time_loop_exact : forall rest prev acc,
  Loops.time_loop_in exact prev rest acc = History.time_loop prev rest acc.
Proof.
  induction rest as [|p rest IH]; intros prev acc; [reflexivity|].
  cbn [Loops.time_loop_in History.time_loop]. rewrite IH. reflexivity.
Qed.

Lemma stats_times_exact pts :
  stats_times exact pts = times_of (_calculateStats pts).
Proof.
  destruct pts as [|p0 [|p1 rest]]; [reflexivity|reflexivity|].
  unfold stats_times, _calculateStats, times_of. rewrite time_loop_exact.
  cbv beta iota delta [num zero exact].
  destruct (History.time_loop p0 (p1 :: rest) (0, 0, 0)%R) as [[mv stn] drv].
  reflexivity.
Qed.

Lemma foldl_zones_exact zones : forall (m : gmap string (Entry exact)),
  to_entry <$> foldl (fun (m : gmap string (Entry exact)) (z : string * Zone) =>
                        <[zname (snd z) := Loops.empty_entry_in exact]> m) m zones
  = foldl (fun (m : gmap string ZoneEntry) (z : string * Zone) =>
             <[zname (snd z) := History.empty_entry]> m) (to_entry <$> m) zones.
Proof.
  induction zones as [|z zones IH]; intros m; [reflexivity|].
  cbn [foldl]. rewrite IH, fmap_insert. reflexivity.
Qed.

Lemma init_zoneTime_exact zones :
  to_entry <$> Loops.init_zoneTime_in exact zones = History.init_zoneTime zones.
Proof.
  unfold Loops.init_zoneTime_in, History.init_zoneTime.
  rewrite fmap_insert, foldl_zones_exact, fmap_empty. reflexivity.
Qed.

Lemma zone_loop_exact : forall rest prev lastZone (zt : gmap string (Entry exact)),
  to_entry <$> Loops.zone_loop_in exact prev rest (lastZone, zt)
  = History.zone_loop prev rest (lastZone, to_entry <$> zt).
Proof.
  induction rest as [|p rest IH]; intros prev lastZone zt; [reflexivity|].
  cbn [Loops.zone_loop_in History.zone_loop].
  rewrite loop_zone_step_insert, ZoneFacts.zone_step_insert, IH.
  f_equal. f_equal. rewrite fmap_insert, lookup_fmap. f_equal.
  destruct (decide (lastZone = Some (zoneNameOf p)));
    destruct (zt !! zoneNameOf p); reflexivity.
Qed.

Lemma calculateZoneTime_exact pts zones :
  to_entry <$> Loops._calculateZoneTime_in exact pts zones
  = History._calculateZoneTime pts zones.
Proof.
  destruct pts as [|p0 rest];
    cbn [Loops._calculateZoneTime_in History._calculateZoneTime].
  - apply init_zoneTime_exact.
  - rewrite zone_loop_exact, init_zoneTime_exact. reflexivity.
Qed.

(** *** The example: three samples 100 ms and 200 ms apart *)

Lemma uneven_views :
  map view (points (processHistory uneven_history []))
  = map view uneven_points.
Proof.
  assert (Hfar : (GeoUtils.distance north south > 9000000)%R)
    by exact GeoFacts.distance_north_south_far.
  assert (Hfar' : (GeoUtils.distance south north > 9000000)%R)
    by (rewrite GeoFacts.distance_sym; exact Hfar).
  assert (Hns : Rgtb (GeoUtils.distance north south) 15 = true)
    by (apply Rgtb_true; lra).
  assert (Hsn : Rgtb (GeoUtils.distance south north) 15 = true)
    by (apply Rgtb_true; lra).
  assert (Hs1 : (GeoUtils.speed north 1000 south 1100 > 25)%R).
  { unfold GeoUtils.speed. replace (1100 - 1000)%Z with 100%Z by lia.
    destruct (Z.leb_spec 100 0); [lia|lra]. }
  assert (Hs2 : (GeoUtils.speed south 1100 north 1300 > 25)%R).
  { unfold GeoUtils.speed. replace (1300 - 1100)%Z with 200%Z by lia.
    destruct (Z.leb_spec 200 0); [lia|lra]. }
  assert (Hpts : points (processHistory uneven_history []) =
    [enrich None [] (to_point (sample_at north 1000));
     enrich (Some (enrich None [] (to_point (sample_at north 1000)))) []
            (to_point (sample_at south 1100));
     enrich (Some (enrich (Some (enrich None [] (to_point (sample_at north 1000))))
                          [] (to_point (sample_at south 1100)))) []
            (to_point (sample_at north 1300))]).
  { unfold processHistory. cbn [points].
    assert (Hf : filter_samples uneven_history = uneven_history)
      by reflexivity.
    rewrite Hf.
    assert (Hs : sort_by_time (map to_point uneven_history)
                 = map to_point uneven_history) by reflexivity.
    rewrite Hs. unfold uneven_history. cbn [map thin].
    rewrite !ThinFacts.enrich_pos.
    replace (pos (to_point (sample_at north 1000))) with north by reflexivity.
    replace (pos (to_point (sample_at south 1100))) with south by reflexivity.
    replace (pos (to_point (sample_at north 1300))) with north by reflexivity.
    rewrite Hns, Hsn. reflexivity. }
  rewrite Hpts. unfold uneven_points, view, zoneNameOf. cbn [map].
  cbn [enrich findZone zone isMoving isDriving timestamp or_null truthy_str
       pt moving_pt].
  rewrite !ThinFacts.timestamp_sample_at, !ThinFacts.enrich_pos.
  replace (pos (to_point (sample_at north 1000))) with north by reflexivity.
  replace (pos (to_point (sample_at south 1100))) with south by reflexivity.
  replace (pos (to_point (sample_at north 1300))) with north by reflexivity.
  assert (Hm1 : GeoUtils.isMoving (GeoUtils.speed north 1000 south 1100) = true)
    by (apply Rgtb_true; lra).
  assert (Hd1 : GeoUtils.isDriving (GeoUtils.speed north 1000 south 1100) = true)
    by (apply Rgtb_true; lra).
  assert (Hm2 : GeoUtils.isMoving (GeoUtils.speed south 1100 north 1300) = true)
    by (apply Rgtb_true; lra).
  assert (Hd2 : GeoUtils.isDriving (GeoUtils.speed south 1100 north 1300) = true)
    by (apply Rgtb_true; lra).
  rewrite Hm1, Hd1, Hm2, Hd2. reflexivity.
Qed.

Lemma total_in_exact (m : gmap string (Entry exact)) :
  total_in exact m = total_duration (to_entry <$> m).
Proof. unfold total_in, total_duration. rewrite map_fold_fmap. reflexivity. Qed.

Lemma elapsed_in_exact pts : elapsed_in exact pts = elapsed pts.
Proof.
  destruct pts as [|p0 [|p1 rest]]; cbn [elapsed_in elapsed List.last].
  - reflexivity.
  - cbn [zero exact]. unfold seconds. rewrite Z.sub_diag. lra.
  - reflexivity.
Qed.

(** *** The claims on the sums of durations *)

(** C7, as the script has it. In every arithmetic, the doubles of the
    script included, each interval between consecutive points is added
    to the entry of the later point's zone (Away for a point in no zone),
    which the table holds, and the duration of an entry is the running
    sum of the intervals added to it; below two points every duration is
    0. The table over the real numbers is the one of the idealised
    embedding, and there, where nothing is rounded, the durations of all
    entries add up to the time from the first to the last point. *)
Theorem zoneTime_running_sums (A : Arith) (pts : list TrackPoint)
    (zones : list (string * Zone)) :
  (forall p, In p (tail pts) ->
     is_Some (Loops._calculateZoneTime_in A pts zones !! zoneNameOf p)) /\
  (forall z,
     duration_in A z (Loops._calculateZoneTime_in A pts zones)
     = running_sum A (filter (fun ab : TrackPoint * TrackPoint =>
                                zoneNameOf ab.2 = z) (steps pts))) /\
  ((length pts <= 1)%nat ->
   forall z, duration_in A z (Loops._calculateZoneTime_in A pts zones) = zero A) /\
  to_entry <$> Loops._calculateZoneTime_in exact pts zones
    = History._calculateZoneTime pts zones /\
  total_in exact (Loops._calculateZoneTime_in exact pts zones)
    = elapsed_in exact pts.
Proof.
  split; [intros p; apply zoneTime_has_entry|].
  split; [intros z; apply zoneTime_duration_sum|].
  split; [|split].
  - intros Hlen z. rewrite zoneTime_duration_sum.
    destruct pts as [|p0 [|p1 rest]]; [reflexivity|reflexivity|].
    cbn in Hlen. lia.
  - apply calculateZoneTime_exact.
  - rewrite total_in_exact, calculateZoneTime_exact, elapsed_in_exact.
    apply ZoneFacts.zoneTime_total_exact.
Qed.

(** C10, as the script has it. In every arithmetic, the doubles of the
    script included, the duration of the statistics is the seconds from
    the first to the last point (0 below two points), and movingTime,
    stationaryTime and drivingTime are the running sums of the intervals
    whose later point is driving or moving, is neither, and is driving:
    every interval goes to exactly one of movingTime and stationaryTime.
    The times over the real numbers are those of the idealised
    embedding. On the points processHistory returns,
    drivingTime <= movingTime; and there, where nothing is rounded,
    movingTime + stationaryTime = duration. *)
Theorem stats_times_running_sums (A : Arith) (pts : list TrackPoint)
    (history : list RawSample) (zones : list (string * Zone)) :
  stats_times A pts
  = (elapsed_in A pts,
     running_sum A (filter (fun ab => moving_step ab = true) (steps pts)),
     running_sum A (filter (fun ab => moving_step ab = false) (steps pts)),
     running_sum A (filter (fun ab => driving_step ab = true) (steps pts))) /\
  stats_times exact pts = times_of (_calculateStats pts) /\
  (drivingTime (stats (processHistory history zones))
   <= movingTime (stats (processHistory history zones)))%R /\
  (movingTime (stats (processHistory history zones)) +
   stationaryTime (stats (processHistory history zones))
   = st_duration (stats (processHistory history zones)))%R.
Proof.
  split; [apply stats_times_sums|]. split; [apply stats_times_exact|].
  assert (Hord : time_ordered (points (processHistory history zones)) = true)
    by (apply ThinFacts.time_ordered_thin, ThinFacts.sort_ordered).
  change (stats (processHistory history zones))
    with (_calculateStats (points (processHistory history zones))).
  destruct (StatsFacts.stats_split _ Hord) as (H1 & H2 & _).
  split; [exact H2|exact H1].
Qed.

End LoopFacts.

(** ** The duration loops on doubles: sums that round *)

Module RoundingFacts.
Import PrimFloat.
Import GeoUtils History Props Loops LoopProps.

(** The doubles of the example: the zone-time table, the statistics and
    the elapsed time of the points processHistory returns. *)
Lemma uneven_doubles :
  _calculateZoneTime_in doubles (points (processHistory uneven_history [])) []
    = _calculateZoneTime_in doubles uneven_points [] /\
  stats_times doubles (points (processHistory uneven_history []))
    = stats_times doubles uneven_points /\
  elapsed_in doubles (points (processHistory uneven_history []))
    = elapsed_in doubles uneven_points.
Proof. apply LoopFacts.loops_view, LoopFacts.uneven_views. Qed.

(** C7 as claimed fails on doubles. For three samples 100 ms and 200 ms
    apart, each far from the one before and outside every zone,
    processHistory keeps three points; the durations of all entries of
    their zone-time table add up to 0x1.3333333333334p-2
    (0.30000000000000004), and the time from the first to the last point
    is 0x1.3333333333333p-2 (0.3). *)
Lemma zoneTime_total_rounded :
  length (points (processHistory uneven_history [])) = 3%nat /\
  total_in doubles
    (_calculateZoneTime_in doubles (points (processHistory uneven_history [])) [])
    = 0x1.3333333333334p-2%float /\
  elapsed_in doubles (points (processHistory uneven_history []))
    = 0x1.3333333333333p-2%float /\
  total_in doubles
    (_calculateZoneTime_in doubles (points (processHistory uneven_history [])) [])
    <> elapsed_in doubles (points (processHistory uneven_history [])).
Proof.
  destruct uneven_doubles as (Hz & _ & He). rewrite Hz, He.
  split.
  { rewrite <- (length_map view), LoopFacts.uneven_views. reflexivity. }
  split; [vm_compute; reflexivity|]. split; [vm_compute; reflexivity|].
  intros H.
  apply (f_equal (fun x => PrimFloat.eqb x (elapsed_in doubles uneven_points)))
    in H.
  vm_compute in H. discriminate.
Qed.

(** C10 as claimed fails on doubles. For the same three samples the
    statistics of the points processHistory returns have duration
    0x1.3333333333333p-2 (0.3), movingTime and drivingTime
    0x1.3333333333334p-2 (0.30000000000000004) and stationaryTime 0, so
    movingTime + stationaryTime is not the duration. *)
Lemma stats_split_rounded :
  length (points (processHistory uneven_history [])) = 3%nat /\
  stats_times doubles (points (processHistory uneven_history []))
  = (0x1.3333333333333p-2, 0x1.3333333333334p-2, 0x0p+0,
     0x1.3333333333334p-2)%float /\
  PrimFloat.add 0x1.3333333333334p-2 0x0p+0 <> 0x1.3333333333333p-2%float.
Proof.
  destruct uneven_doubles as (_ & Hs & _). rewrite Hs.
  split.
  { rewrite <- (length_map view), LoopFacts.uneven_views. reflexivity. }
  split; [vm_compute; reflexivity|]. intros H.
  apply (f_equal (fun x => PrimFloat.eqb x 0x1.3333333333333p-2)) in H.
  vm_compute in H. discriminate.
Qed.

End RoundingFacts.

(** ** Trip segmentation *)

Module TripFacts.
Import GeoUtils History Props.

Lemma drop_cons_lookup {A} (l : list A) k x r :
  drop k l = x :: r -> l !! k = Some x /\ drop (S k) l = r.
Proof.
  intros H.
  assert (Hx : l !! k = Some x).
  { rewrite <- (Nat.add_0_r k), <- lookup_drop, H. reflexivity. }
  split; [exact Hx|]. rewrite (drop_S l x k Hx) in H. congruence.
Qed.

(** A moving run is determined by where it ends. *)
Lemma moving_run_start pts s n s' n' :
  moving_run pts s n -> moving_run pts s' n' ->
  (s + n = s' + n')%nat -> s = s' /\ n = n'.
Proof.
  intros (Hn & Hmov & Hleft) (Hn' & Hmov' & Hleft') Hend.
  assert (s = s'); [|lia].
  destruct (Nat.lt_total s s') as [Hlt|[Heq|Hlt]]; [|exact Heq|].
  - destruct s' as [|p]; [lia|].
    specialize (Hleft' p eq_refl). rewrite Hmov in Hleft' by lia. discriminate.
  - destruct s as [|p]; [lia|].
    specialize (Hleft p eq_refl). rewrite Hmov' in Hleft by lia. discriminate.
Qed.

Lemma emitted_extend_moving pts k (ranges : list (nat * nat)) :
  is_moving_at pts k = true ->
  (forall s n, In (s, n) ranges <-> emitted_run pts s n /\ (s + n < k)%nat) ->
  forall s n, In (s, n) ranges <-> emitted_run pts s n /\ (s + n < S k)%nat.
Proof.
  intros Hmk Hiff s n. rewrite Hiff. split.
  - intros [He Hlt]. split; [exact He|lia].
  - intros [He Hlt]. split; [exact He|].
    destruct (decide (s + n = k)%nat) as [Heq|Hne]; [|lia].
    destruct He as (_ & (c & Hc & Hcm) & _).
    unfold is_moving_at in Hmk. rewrite <- Heq, Hc, Hcm in Hmk. discriminate.
Qed.

Lemma trip_step_inv pts k point prev cur acc ranges :
  pts !! k = Some point ->
  prev = point_before pts k ->
  open_ok pts k cur ->
  trips_inv pts k acc ranges ->
  exists ranges',
    open_ok pts (S k) (trip_step prev point (cur, acc)).1 /\
    trips_inv pts (S k) (trip_step prev point (cur, acc)).2 ranges'.
Proof.
  intros Hk -> Hopen (HF & Hiff & Hapart).
  assert (Hmk : is_moving_at pts k = isMoving point)
    by (unfold is_moving_at; rewrite Hk; reflexivity).
  unfold trip_step.
  destruct (isMoving point) eqn:Hm; destruct cur as [o|]; cbn [fst snd].
  - (* the open trip continues *)
    destruct Hopen as (s & n & p & Hsn & Hrun & Hp & Hpts & Hst & Hsz).
    exists ranges. split.
    + exists s, (S n), p. cbn [o_points o_startTime o_startZone].
      split; [lia|]. split; [|split; [exact Hp|split; [|split; assumption]]].
      * destruct Hrun as (Hn & Hmov & Hleft). split; [lia|]. split; [|exact Hleft].
        intros j Hj. destruct (decide (j = k)) as [->|Hne]; [exact Hmk|].
        apply Hmov. lia.
      * unfold run_points in *. rewrite (take_S_r _ _ point).
        -- rewrite Hpts. reflexivity.
        -- rewrite lookup_drop, Hsn. exact Hk.
    + split; [exact HF|]. split; [|exact Hapart].
      apply emitted_extend_moving; assumption.
  - (* a trip starts *)
    exists ranges. split.
    + exists k, 1%nat, point. cbn [o_points o_startTime o_startZone].
      split; [lia|]. split; [|split; [exact Hk|split; [|split; reflexivity]]].
      * split; [lia|]. split; [|exact Hopen].
        intros j Hj. assert (j = k) as -> by lia. exact Hmk.
      * unfold run_points. rewrite (drop_S pts point k Hk). reflexivity.
    + split; [exact HF|]. split; [|exact Hapart].
      apply emitted_extend_moving; assumption.
  - (* the open trip is closed *)
    destruct Hopen as (s & n & p & Hsn & Hrun & Hp & Hpts & Hst & Hsz).
    assert (Hc : closed_by pts s n point)
      by (split; [rewrite Hsn; exact Hk | exact Hm]).
    assert (Hdist : distance (close_trip o point) = run_distance pts s n)
      by (unfold run_distance; rewrite <- Hpts; reflexivity).
    assert (Htrip : trip_of_run pts (s, n) (close_trip o point)).
    { exists p, point. cbn [fst snd]. rewrite Hsn.
      split; [exact Hp|]. split; [exact Hk|]. split; [exact Hpts|].
      split; [exact Hst|]. split; [exact Hsz|]. split; [reflexivity|].
      split; [reflexivity|]. split; [exact Hdist|].
      cbn [duration close_trip]. rewrite Hst. reflexivity. }
    assert (Hopen' : open_ok pts (S k) None).
    { intros k' Hk'. assert (k' = k) as -> by lia. exact Hmk. }
    assert (Hlast : forall s' n', emitted_run pts s' n' -> (s' + n' < S k)%nat ->
                      (s' + n' < k)%nat \/ (s' = s /\ n' = n)).
    { intros s' n' (Hrun' & _) Hlt.
      destruct (decide (s' + n' = k)%nat) as [Heq|Hne]; [right|left; lia].
      apply (moving_run_start pts s' n' s n Hrun' Hrun). lia. }
    destruct (Rgtb (distance (close_trip o point)) (1 / 10)) eqn:Hd.
    + exists (ranges ++ [(s, n)]). split; [exact Hopen'|]. split; [|split].
      * apply Forall2_app; [exact HF|]. constructor; [exact Htrip|constructor].
      * intros s' n'. rewrite in_app_iff, Hiff. split.
        -- intros [[He Hlt]|[Heq|[]]]; [split; [exact He|lia]|].
           injection Heq as <- <-. split; [|lia].
           split; [exact Hrun|]. split; [exists point; exact Hc|].
           rewrite <- Hdist. apply Rgtb_true. exact Hd.
        -- intros [He Hlt]. destruct (Hlast s' n' He Hlt) as [Hlt'|[-> ->]].
           ++ left. split; assumption.
           ++ right. left. reflexivity.
      * intros i j r1 r2 Hij H1 H2.
        apply lookup_snoc_Some in H2 as [[Hj H2]|[Hj <-]].
        -- rewrite lookup_app_l in H1 by lia. exact (Hapart i j r1 r2 Hij H1 H2).
        -- rewrite lookup_app_l in H1 by lia. cbn [fst].
           destruct r1 as [s1 n1]. cbn [fst snd].
           assert (Hin : In (s1, n1) ranges)
             by (apply list_elem_of_In, list_elem_of_lookup; eauto).
           apply Hiff in Hin as [(_ & (c & Hc1 & Hcm) & _) Hlt].
           destruct (le_lt_dec s (s1 + n1)) as [Hge|Hlt']; [|exact Hlt'].
           destruct Hrun as (_ & Hmov & _).
           specialize (Hmov (s1 + n1)%nat ltac:(lia)).
           unfold is_moving_at in Hmov. rewrite Hc1, Hcm in Hmov. discriminate.
    + exists ranges. split; [exact Hopen'|]. split; [exact HF|].
      split; [|exact Hapart]. intros s' n'. rewrite Hiff. split.
      * intros [He Hlt]. split; [exact He|lia].
      * intros [He Hlt]. split; [exact He|].
        destruct (Hlast s' n' He Hlt) as [Hlt'|[-> ->]]; [exact Hlt'|].
        destruct He as (_ & _ & Hlong). apply Rgtb_false in Hd.
        rewrite Hdist in Hd. lra.
  - (* nothing is open *)
    exists ranges. split.
    + intros k' Hk'. assert (k' = k) as -> by lia. exact Hmk.
    + split; [exact HF|]. split; [|exact Hapart].
      intros s n. rewrite Hiff. split.
      * intros [He Hlt]. split; [exact He|lia].
      * intros [He Hlt]. split; [exact He|].
        destruct (decide (s + n = k)%nat) as [Heq|Hne]; [|lia].
        destruct He as ((Hn & Hmov & _) & _).
        destruct k as [|k']; [lia|].
        specialize (Hopen k' eq_refl).
        rewrite Hmov in Hopen by lia. discriminate.
Qed.

Lemma trip_loop_inv pts : forall rest k cur acc ranges,
  drop k pts = rest ->
  open_ok pts k cur ->
  trips_inv pts k acc ranges ->
  exists ranges' k',
    (length pts <= k')%nat /\
    trips_inv pts k' (trip_loop (point_before pts k) rest (cur, acc)) ranges'.
Proof.
  induction rest as [|point rest IH]; intros k cur acc ranges Hdrop Hopen Hinv.
  - exists ranges, k. split; [|exact Hinv].
    apply (f_equal length) in Hdrop. rewrite length_drop in Hdrop.
    cbn in Hdrop. lia.
  - apply drop_cons_lookup in Hdrop as [Hk Hdrop].
    cbn [trip_loop].
    destruct (trip_step_inv pts k point _ cur acc ranges Hk eq_refl Hopen Hinv)
      as (ranges' & Hopen' & Hinv').
    destruct (trip_step (point_before pts k) point (cur, acc))
      as [cur' acc'] eqn:E.
    cbn [fst snd] in Hopen', Hinv'.
    replace (Some point) with (point_before pts (S k))
      by (cbn [point_before]; exact Hk).
    exact (IH (S k) cur' acc' ranges' Hdrop Hopen' Hinv').
Qed.

(** C1, as the script has it. The trips emitted for a point sequence are,
    in order, exactly those of the moving runs (maximal to the left) that
    are followed by a point that is not moving and whose route distance
    exceeds 0.1 km; each trip holds the points of its run, and the runs,
    closing points included, do not overlap. *)
Theorem detectTrips_closed_runs (pts : list TrackPoint) :
  exists ranges : list (nat * nat),
    Forall2 (trip_of_run pts) ranges (_detectTrips pts) /\
    (forall s n, In (s, n) ranges <-> emitted_run pts s n) /\
    runs_apart ranges.
Proof.
  destruct (trip_loop_inv pts pts 0 None [] []) as (ranges & k & Hk & Hinv).
  - reflexivity.
  - intros k' Hk'. discriminate.
  - split; [constructor|]. split.
    + intros s n. split; [intros []|intros [_ H]; lia].
    + intros i j r1 r2 _ H. rewrite lookup_nil in H. discriminate.
  - exists ranges. destruct Hinv as (HF & Hiff & Hapart).
    split; [exact HF|]. split; [|exact Hapart].
    intros s n. rewrite Hiff. split; [intros [He _]; exact He|].
    intros He. split; [exact He|].
    destruct He as (_ & (c & Hc & _) & _).
    apply lookup_lt_Some in Hc. lia.
Qed.

(** C1, as the specification has it, fails on a stop followed by two
    moving points that reach the end of the sequence: the two points are
    a maximal moving run more than 0.1 km long, yet no trip is emitted. *)
Lemma detectTrips_drops_open_run :
  maximal_run open_ended 1 2 /\
  (run_distance open_ended 1 2 > 1 / 10)%R /\
  _detectTrips open_ended = [].
Proof.
  split; [|split].
  - split; [|reflexivity]. split; [lia|]. split.
    + intros k Hk. destruct k as [|[|[|k]]]; try lia; reflexivity.
    + intros s' Hs'. injection Hs' as ->. reflexivity.
  - unfold run_distance, run_points, open_ended.
    cbn [take drop map pos moving_pt routeDistance routeSum].
    pose proof GeoFacts.distance_north_south_far. lra.
  - reflexivity.
Qed.

(** The same on a processed route: of three samples a minute apart and
    far from each other, the second and third points are moving and reach
    the end of the route, and the route has no trip. *)
Lemma processHistory_drops_open_run (zones : list (string * Zone)) :
  map isMoving (points (processHistory round_trip_history zones))
    = [false; true; true] /\
  trips (processHistory round_trip_history zones) = [].
Proof.
  assert (Hfar : (GeoUtils.distance north south > 9000000)%R)
    by exact GeoFacts.distance_north_south_far.
  assert (Hfar' : (GeoUtils.distance south north > 9000000)%R)
    by (rewrite GeoFacts.distance_sym; exact Hfar).
  assert (Hns : Rgtb (GeoUtils.distance north south) 15 = true)
    by (apply Rgtb_true; lra).
  assert (Hsn : Rgtb (GeoUtils.distance south north) 15 = true)
    by (apply Rgtb_true; lra).
  assert (Hm1 : GeoUtils.isMoving (GeoUtils.speed north 0 south 60000) = true).
  { apply Rgtb_true. unfold GeoUtils.speed.
    replace (60000 - 0)%Z with 60000%Z by lia.
    destruct (Z.leb_spec 60000 0); [lia|lra]. }
  assert (Hm2 : GeoUtils.isMoving (GeoUtils.speed south 60000 north 120000) = true).
  { apply Rgtb_true. unfold GeoUtils.speed.
    replace (120000 - 60000)%Z with 60000%Z by lia.
    destruct (Z.leb_spec 60000 0); [lia|lra]. }
  assert (Hpts : points (processHistory round_trip_history zones) =
    [enrich None zones (to_point (sample_at north 0));
     enrich (Some (enrich None zones (to_point (sample_at north 0)))) zones
            (to_point (sample_at south 60000));
     enrich (Some (enrich (Some (enrich None zones (to_point (sample_at north 0))))
                          zones (to_point (sample_at south 60000)))) zones
            (to_point (sample_at north 120000))]).
  { unfold processHistory. cbn [points].
    assert (Hf : filter_samples round_trip_history = round_trip_history)
      by reflexivity.
    rewrite Hf.
    assert (Hs : sort_by_time (map to_point round_trip_history)
                 = map to_point round_trip_history) by reflexivity.
    rewrite Hs. unfold round_trip_history. cbn [map thin].
    rewrite !ThinFacts.enrich_pos.
    replace (pos (to_point (sample_at north 0))) with north by reflexivity.
    replace (pos (to_point (sample_at south 60000))) with south by reflexivity.
    replace (pos (to_point (sample_at north 120000))) with north by reflexivity.
    rewrite Hns, Hsn. reflexivity. }
  change (trips (processHistory round_trip_history zones))
    with (_detectTrips (points (processHistory round_trip_history zones))).
  rewrite Hpts. cbn [map].
  assert (H0 : forall q, isMoving (enrich None zones q) = false) by reflexivity.
  assert (H1 : isMoving
            (enrich (Some (enrich None zones (to_point (sample_at north 0))))
               zones (to_point (sample_at south 60000))) = true) by exact Hm1.
  assert (H2 : isMoving
            (enrich (Some (enrich (Some (enrich None zones
                                           (to_point (sample_at north 0))))
                             zones (to_point (sample_at south 60000)))) zones
               (to_point (sample_at north 120000))) = true) by exact Hm2.
  rewrite H0, H1, H2. split; [reflexivity|].
  unfold _detectTrips. cbn [trip_loop]. unfold trip_step.
  rewrite H0, H1, H2. reflexivity.
Qed.

End TripFacts.


(** ** Crash detector *)

Module CrashFacts.
Import CrashDetector CrashProps.

Lemma Qltb_true a b : Qltb a b = true <-> (a < b)%Q.
Proof.
  unfold Qltb. rewrite negb_true_iff. split.
  - intros H. apply Qnot_le_lt. intros Hle.
    apply Qle_bool_iff in Hle. congruence.
  - intros H. destruct (Qle_bool b a) eqn:E; [|reflexivity].
    apply Qle_bool_iff in E. apply Qlt_not_le in H. contradiction.
Qed.

Lemma first_reading T z person :
  addReading (default_config true) T person (fast T z) init =
  set_history person [fast T z] (set_history person [] init).
Proof.
  unfold addReading. cbn [enabled default_config negb].
  cbn [speedHistory init]. rewrite lookup_empty.
  change (Qgtb (accuracy (fast T z)) (min_gps_accuracy (default_config true)))
    with false.
  cbn iota. cbn [speedHistory set_history]. rewrite lookup_insert_eq.
  cbn [default from_option Datatypes.id app].
  rewrite filter_cons, filter_nil. cbn [timestamp fast].
  assert (H : (T >? T - 60000)%Z = true) by (apply Z.gtb_lt; lia).
  rewrite decide_True by exact H.
  unfold _checkForCrash. cbn [speedHistory set_history].
  rewrite lookup_insert_eq. reflexivity.
Qed.

Lemma same_zone_no_entry T z : _isZoneEntry [fast T z; slow T z] = false.
Proof. cbn. destruct (truthy_str z); reflexivity. Qed.

(** C2. With the default configuration and enabled = true, on a fresh
    detector, a reading with speed 80 at instant T followed by a reading
    with speed 2 four seconds later (accuracy 10, activity driving, the
    same zone value), each added at its own instant, leaves no pending
    alert after the first reading and creates one for the person at the
    second. *)
Theorem crash_pattern_creates_pending (T : Z) (z : option string)
    (person : string) :
  pendingAlerts (addReading (default_config true) T person (fast T z) init)
    !! person = None /\
  is_Some
    (pendingAlerts
       (addReading (default_config true) (T + 4000) person (slow T z)
          (addReading (default_config true) T person (fast T z) init))
     !! person).
Proof.
  rewrite first_reading. split; [apply lookup_empty|].
  unfold addReading. cbn [enabled default_config negb].
  cbn [speedHistory set_history]. rewrite lookup_insert_eq.
  change (Qgtb (accuracy (slow T z)) (min_gps_accuracy (default_config true)))
    with false.
  cbn iota. cbn [speedHistory set_history]. rewrite lookup_insert_eq.
  cbn [default from_option Datatypes.id app].
  rewrite !filter_cons, filter_nil. cbn [timestamp fast slow].
  rewrite !decide_True by (apply Z.gtb_lt; lia).
  unfold _checkForCrash.
  cbn [speedHistory set_history lastAlert pendingAlerts init].
  rewrite lookup_insert_eq. cbn [default from_option Datatypes.id rev app].
  rewrite !lookup_empty. cbn [cooldown_active].
  rewrite bool_decide_eq_false_2 by (intros [? ?]; discriminate).
  rewrite !filter_cons, filter_nil. cbn [timestamp fast slow time_window].
  assert (H1 : Qgtb (inject_Z T)
                 (inject_Z (T + 4000)
                  - time_window (default_config true) * 1000) = true)
    by (apply Qltb_true; unfold Qlt; cbn; lia).
  assert (H2 : Qgtb (inject_Z (T + 4000))
                 (inject_Z (T + 4000)
                  - time_window (default_config true) * 1000) = true)
    by (apply Qltb_true; unfold Qlt; cbn; lia).
  rewrite !(decide_True _ _ H1), !(decide_True _ _ H2).
  cbn iota. rewrite same_zone_no_entry.
  match goal with
  | |- context [if ?b then _ else _] => replace b with true by reflexivity
  end.
  cbn [pendingAlerts _triggerPendingAlert]. rewrite lookup_insert_eq.
  eexists. reflexivity.
Qed.

(** *** Cancelling *)

(** C6. When a pending alert exists for the person, cancelPendingAlert
    returns true, removes it and its timer, so that the scheduled
    confirmation has no effect when its time comes, and stamps no
    cooldown; when none exists it returns false and leaves the state as it
    is. A cancel repeated after a cancel returns false. *)
Theorem cancelPendingAlert_spec (person : string) (st : State) :
  match pendingAlerts st !! person with
  | Some pending =>
      (cancelPendingAlert person st).1 = true /\
      pendingAlerts (cancelPendingAlert person st).2
        = delete person (pendingAlerts st) /\
      pendingAlerts (cancelPendingAlert person st).2 !! person = None /\
      timers (cancelPendingAlert person st).2
        = delete (timer pending) (timers st) /\
      lastAlert (cancelPendingAlert person st).2 = lastAlert st /\
      speedHistory (cancelPendingAlert person st).2 = speedHistory st /\
      dispatched (cancelPendingAlert person st).2 = dispatched st /\
      forall now,
        fire_timer (timer pending) now (cancelPendingAlert person st).2
        = (cancelPendingAlert person st).2
  | None => cancelPendingAlert person st = (false, st)
  end /\
  cancelPendingAlert person (cancelPendingAlert person st).2
    = (false, (cancelPendingAlert person st).2).
Proof.
  destruct (pendingAlerts st !! person) as [pending|] eqn:E.
  - assert (Hc : cancelPendingAlert person st =
                 (true,
                  {| lastAlert := lastAlert st;
                     pendingAlerts := delete person (pendingAlerts st);
                     speedHistory := speedHistory st;
                     timers := delete (timer pending) (timers st);
                     nextTimer := nextTimer st;
                     dispatched := dispatched st |}))
      by (unfold cancelPendingAlert; rewrite E; reflexivity).
    rewrite Hc.
    cbn [fst snd pendingAlerts timers lastAlert speedHistory dispatched].
    repeat split.
    + apply lookup_delete_eq.
    + intros now. unfold fire_timer. cbn [timers].
      rewrite lookup_delete_eq. reflexivity.
    + unfold cancelPendingAlert. cbn [pendingAlerts].
      rewrite lookup_delete_eq. reflexivity.
  - assert (Hc : cancelPendingAlert person st = (false, st))
      by (unfold cancelPendingAlert; rewrite E; reflexivity).
    rewrite Hc. cbn [snd]. split; [reflexivity|exact Hc].
Qed.

(** *** Cooldown *)









Lemma run_app cfg calls1 calls2 st :
  run cfg (calls1 ++ calls2) st = run cfg calls2 (run cfg calls1 st).
Proof. unfold run. apply foldl_app. Qed.


(** The cooldown test reads the stamp through its truthiness: a stamp of
    0, the epoch itself, would not start a cooldown. *)
Lemma cooldown_active_epoch cfg now : cooldown_active cfg now (Some 0%Z) = false.
Proof. reflexivity. Qed.




End CrashFacts.

(** ** The definitions at work on small inputs *)

Module Examples.
Import Props CrashProps.

Example lookup_between :
  Playback.lookupPoint 25 [pt 10; pt 20; pt 30] = Some (pt 20).
Proof. reflexivity. Qed.

Example lookup_before_start :
  Playback.lookupPoint 5 [pt 10; pt 20; pt 30] = Some (pt 10).
Proof. reflexivity. Qed.

Example lookup_after_end :
  Playback.lookupPoint 99 [pt 10; pt 20; pt 30] = Some (pt 30).
Proof. reflexivity. Qed.

Example lookup_no_point : Playback.lookupPoint 5 [] = None.
Proof. reflexivity. Qed.

Example filter_keeps_north :
  History.filter_samples [sample_at north 0; equator_sample]
  = [sample_at north 0].
Proof. reflexivity. Qed.

Example driving_labels :
  map CrashDetector.driving_like
    [Some "IN_VEHICLE"; Some "Automotive"; Some "Driving"; Some "walking"; None]
  = [true; true; true; false; false].
Proof. reflexivity. Qed.

Example zone_entry_detected :
  CrashDetector._isZoneEntry [fast 0 None; slow 0 (Some "home")] = true.
Proof. reflexivity. Qed.

Example zone_exit_is_no_entry :
  CrashDetector._isZoneEntry [fast 0 (Some "home"); slow 0 None] = false.
Proof. reflexivity. Qed.

Example round_half_up :
  map CrashDetector.round [5 # 2; 7 # 3; -5 # 2]%Q = [3; 2; -2]%Z.
Proof. reflexivity. Qed.

Example cancel_nothing :
  CrashDetector.cancelPendingAlert "alice" CrashDetector.init
  = (false, CrashDetector.init).
Proof. reflexivity. Qed.

Example disabled_ignores_readings :
  CrashDetector.addReading (CrashDetector.default_config false) 0 "alice"
    (fast 0 None) CrashDetector.init
  = CrashDetector.init.
Proof. reflexivity. Qed.

End Examples.


(** ** GeoUtils: distance and route length *)

Module GeoMore.
Import GeoUtils RouteProps.
Local Open Scope R_scope.

Lemma atan2_quadrant y x :
  0 <= y -> 0 <= x -> 0 <= atan2 y x <= PI / 2.
Proof.
  intros Hy Hx. unfold atan2. pose proof PI_RGT_0 as Hpi.
  destruct (Rlt_dec 0 x) as [Hpos|Hnpos].
  - pose proof (atan_bound (y / x)) as [_ Hub].
    split; [|lra].
    assert (Hq : 0 <= y / x).
    { unfold Rdiv. apply Rmult_le_pos; [exact Hy|].
      left. apply Rinv_0_lt_compat. exact Hpos. }
    destruct Hq as [Hq|Hq].
    + pose proof (atan_increasing 0 (y / x) Hq) as H. rewrite atan_0 in H. lra.
    + rewrite <- Hq, atan_0. lra.
  - destruct (Rlt_dec x 0); [lra|].
    destruct (Rlt_dec 0 y); [lra|].
    destruct (Rlt_dec y 0); lra.
Qed.

Lemma hav_a_same p : hav_a p p = 0.
Proof.
  unfold hav_a, toRad.
  replace ((Q2R (lat p) - Q2R (lat p)) * PI / 180 / 2) with 0 by lra.
  replace ((Q2R (lng p) - Q2R (lng p)) * PI / 180 / 2) with 0 by lra.
  rewrite sin_0. ring.
Qed.

(** X1. The distance does not depend on the order of its two arguments,
    and the distance from a position to itself is 0. *)
Theorem distance_symmetric_zero (p q : LatLng) :
  distance p q = distance q p /\ distance p p = 0.
Proof.
  split; [apply GeoFacts.distance_sym|].
  unfold distance. rewrite hav_a_same.
  replace (1 - 0) with 1 by lra. rewrite sqrt_0, sqrt_1.
  unfold atan2. destruct (Rlt_dec 0 1); [|lra].
  replace (0 / 1) with 0 by lra. rewrite atan_0. lra.
Qed.

Lemma distance_nonneg p q : 0 <= distance p q.
Proof.
  unfold distance, R_earth.
  pose proof (atan2_quadrant (sqrt (hav_a p q)) (sqrt (1 - hav_a p q))
                (sqrt_pos _) (sqrt_pos _)) as [Hlo Hhi].
  nra.
Qed.

Lemma routeSum_nonneg : forall rest p, 0 <= routeSum p rest.
Proof.
  induction rest as [|q rest IH]; intros p; cbn [routeSum]; [lra|].
  pose proof (distance_nonneg p q). specialize (IH q). lra.
Qed.

End GeoMore.


(** ** processHistory: where the points come from and what they carry *)

Module RouteMore.
Import GeoUtils History Props RouteProps.

Lemma inZone_le p z :
  inZone p z = true <->
  (GeoUtils.distance p (centre z) <= Q2R (radius z))%R.
Proof.
  unfold inZone, Rleb, centre.
  destruct (Rle_dec _ _); split; auto; discriminate.
Qed.

(** X4. findZone returns the first entry, in the order of the directory,
    whose circle contains the point (distance to the centre at most the
    radius), and nothing exactly when no circle contains it. *)
Theorem findZone_first_match (p : LatLng) (zones : list (string * Zone)) :
  match findZone p zones with
  | Some (id, z) =>
      exists pre post,
        zones = pre ++ (id, z) :: post /\
        (GeoUtils.distance p (centre z) <= Q2R (radius z))%R /\
        Forall (fun e : string * Zone =>
                  (GeoUtils.distance p (centre e.2) > Q2R (radius e.2))%R) pre
  | None =>
      Forall (fun e : string * Zone =>
                (GeoUtils.distance p (centre e.2) > Q2R (radius e.2))%R) zones
  end.
Proof.
  induction zones as [|[id z] zones IH]; cbn [findZone]; [constructor|].
  destruct (inZone p z) eqn:E.
  - exists [], zones. split; [reflexivity|]. split; [|constructor].
    apply inZone_le. exact E.
  - assert (Hout : (GeoUtils.distance p (centre z) > Q2R (radius z))%R).
    { destruct (Rle_dec (GeoUtils.distance p (centre z)) (Q2R (radius z)))
        as [Hle|Hgt]; [|lra].
      apply inZone_le in Hle. congruence. }
    destruct (findZone p zones) as [[id' z']|].
    + destruct IH as (pre & post & -> & Hin & Hpre).
      exists ((id, z) :: pre), post. split; [reflexivity|].
      split; [exact Hin|]. constructor; assumption.
    + constructor; assumption.
Qed.

Lemma thin_Forall zones (P : TrackPoint -> Prop) :
  (forall lp q, P (enrich lp zones q)) ->
  forall pts lp, Forall P (thin zones lp pts).
Proof.
  intros HP. induction pts as [|q pts IH]; intros lp; cbn [thin]; [constructor|].
  match goal with |- context [if ?b then _ else _] => destruct b end.
  - constructor; [apply HP|apply IH].
  - apply IH.
Qed.

Lemma findZone_in p zones id z :
  findZone p zones = Some (id, z) -> In (id, z) zones /\ inZone p z = true.
Proof.
  induction zones as [|[id' z'] zones IH]; cbn [findZone]; [discriminate|].
  destruct (inZone p z') eqn:E.
  - intros H. injection H as -> ->. split; [left; reflexivity|exact E].
  - intros H. destruct (IH H) as [Hin Hz]. split; [right; exact Hin|exact Hz].
Qed.

Lemma findZone_none p zones :
  findZone p zones = None <->
  forall id z, In (id, z) zones -> inZone p z = false.
Proof.
  induction zones as [|[id' z'] zones IH]; cbn [findZone].
  - split; [intros _ id z []|reflexivity].
  - destruct (inZone p z') eqn:E.
    + split; [discriminate|]. intros H.
      specialize (H id' z' (or_introl eq_refl)). congruence.
    + rewrite IH. split.
      * intros H id z [Heq|Hin]; [injection Heq as <- <-; exact E|eauto].
      * intros H id z Hin. apply (H id z). right. exact Hin.
Qed.

(** X5. In the points processHistory returns, a point labelled with a
    zone name carries the id of a directory entry of that name whose
    circle contains it, and a point is labelled null exactly when no
    circle of the directory contains it. *)
Theorem processHistory_zone_labels
    (history : list RawSample) (zones : list (string * Zone)) :
  Forall (fun p =>
            (forall n, zone p = Some n ->
               exists id z,
                 In (id, z) zones /\ zoneId p = Some id /\ zname z = n /\
                 (GeoUtils.distance (pos p) (centre z) <= Q2R (radius z))%R) /\
            (zone p = None <->
             forall id z, In (id, z) zones ->
               (GeoUtils.distance (pos p) (centre z) > Q2R (radius z))%R))
         (points (processHistory history zones)).
Proof.
  unfold processHistory. cbn [points]. apply thin_Forall. intros lp q.
  cbn [zone zoneId pos enrich].
  destruct (findZone (pos q) zones) as [[id z]|] eqn:E.
  - destruct (findZone_in _ _ _ _ E) as [Hin Hz]. split.
    + intros n Hn. injection Hn as <-. exists id, z.
      split; [exact Hin|]. split; [reflexivity|]. split; [reflexivity|].
      apply inZone_le. exact Hz.
    + split; [discriminate|]. intros H. specialize (H id z Hin).
      apply inZone_le in Hz. lra.
  - split; [discriminate|]. split; [|reflexivity]. intros _ id z Hin.
    pose proof (proj1 (findZone_none _ _) E id z Hin) as Hz.
    destruct (Rle_dec (GeoUtils.distance (pos q) (centre z)) (Q2R (radius z)))
      as [Hle|Hgt]; [|lra].
    apply inZone_le in Hle. congruence.
Qed.

Lemma speed_nonneg p1 t1 p2 t2 : (0 <= GeoUtils.speed p1 t1 p2 t2)%R.
Proof.
  unfold GeoUtils.speed. destruct (Z.leb_spec (t2 - t1) 0) as [Hle|Hgt]; [lra|].
  pose proof (GeoMore.distance_nonneg p1 p2) as Hd.
  apply IZR_lt in Hgt.
  apply Rmult_le_pos; [lra|]. left. apply Rinv_0_lt_compat. lra.
Qed.

Lemma thin_speeds zones : forall pts lp, speeds_from lp (thin zones lp pts).
Proof.
  induction pts as [|q pts IH]; intros lp; cbn [thin]; [exact I|].
  match goal with |- context [if ?b then _ else _] => destruct b end.
  - cbn [speeds_from]. split; [|apply IH].
    destruct lp; reflexivity.
  - apply IH.
Qed.

(** X6. In the points processHistory returns, the first point has speed 0
    and every later point has the speed computed from the point before
    it in the sequence; speeds are never negative; a point is moving
    exactly when its speed exceeds 5 km/h and driving exactly when it
    exceeds 25 km/h, so a driving point is always a moving one. *)
Theorem processHistory_speed_flags
    (history : list RawSample) (zones : list (string * Zone)) :
  speeds_from None (points (processHistory history zones)) /\
  Forall (fun p =>
            (0 <= speed p)%R /\
            (isMoving p = true <-> (speed p > 5)%R) /\
            (isDriving p = true <-> (speed p > 25)%R) /\
            (isDriving p = true -> isMoving p = true))
         (points (processHistory history zones)).
Proof.
  unfold processHistory. cbn [points]. split; [apply thin_speeds|].
  apply thin_Forall. intros lp q. cbn [speed isMoving isDriving enrich].
  destruct lp as [p|].
  - unfold GeoUtils.isMoving, GeoUtils.isDriving. rewrite !Rgtb_true.
    split; [apply speed_nonneg|]. split; [reflexivity|].
    split; [reflexivity|]. lra.
  - split; [lra|]. split; [split; [discriminate|lra]|].
    split; [split; [discriminate|lra]|]. discriminate.
Qed.

Lemma insert_by_time_perm p l : insert_by_time p l ≡ₚ p :: l.
Proof.
  induction l as [|q l IH]; cbn [insert_by_time]; [reflexivity|].
  destruct (timestamp p <=? timestamp q)%Z; [reflexivity|].
  rewrite IH. apply Permutation_swap.
Qed.

Lemma sort_by_time_perm l : sort_by_time l ≡ₚ l.
Proof.
  induction l as [|p l IH]; [reflexivity|].
  cbn [sort_by_time foldr]. fold (sort_by_time l).
  rewrite insert_by_time_perm, IH. reflexivity.
Qed.

Lemma thin_core_sublist zones : forall pts lp,
  map core (thin zones lp pts) `sublist_of` map core pts.
Proof.
  induction pts as [|q pts IH]; intros lp; cbn [thin map]; [constructor|].
  match goal with |- context [if ?b then _ else _] => destruct b end.
  - cbn [map]. change (core (enrich lp zones q)) with (core q).
    apply sublist_skip, IH.
  - apply sublist_cons, IH.
Qed.

Lemma filter_samples_in history h :
  In h (filter_samples history) -> In h history /\ retained h = true.
Proof.
  unfold filter_samples. rewrite <- !list_elem_of_In.
  rewrite !list_elem_of_filter. intros (H3 & H2 & H1 & Hin).
  split; [exact Hin|]. rewrite FilterFacts.retained_filters, H1, H2, H3.
  reflexivity.
Qed.

(** X7. processHistory invents no point: the returned points, read as
    position, instant, accuracy, battery and state, are a subsequence of
    the retained samples sorted by time, which are a rearrangement of the
    retained samples; so there are no more points than samples, and every
    point has the coordinates, instant and state of a sample of the input
    whose coordinates are not 0 and lie within 90 and 180 degrees, the
    instant being the sample's lu, or its lc when lu is missing or 0. *)
Theorem processHistory_points_from_samples
    (history : list RawSample) (zones : list (string * Zone)) :
  map core (points (processHistory history zones))
    `sublist_of`
    map core (sort_by_time (map to_point (filter_samples history))) /\
  sort_by_time (map to_point (filter_samples history))
    ≡ₚ map to_point (filter_samples history) /\
  (length (points (processHistory history zones)) <= length history)%nat /\
  Forall (fun p =>
            exists h at_,
              In h history /\ a h = Some at_ /\
              latitude at_ = Some (lat (pos p)) /\
              longitude at_ = Some (lng (pos p)) /\
              timestamp p = stamp_of h /\
              state p = s h /\
              ~ (lat (pos p) == 0)%Q /\ ~ (lng (pos p) == 0)%Q /\
              (Qabs (lat (pos p)) <= 90)%Q /\ (Qabs (lng (pos p)) <= 180)%Q)
         (points (processHistory history zones)).
Proof.
  set (sorted := sort_by_time (map to_point (filter_samples history))).
  assert (Hsub : map core (points (processHistory history zones))
                   `sublist_of` map core sorted)
    by apply thin_core_sublist.
  assert (Hperm : sorted ≡ₚ map to_point (filter_samples history))
    by apply sort_by_time_perm.
  split; [exact Hsub|]. split; [exact Hperm|]. split.
  - apply sublist_length in Hsub. rewrite !length_map in Hsub.
    apply Permutation_length in Hperm. rewrite length_map in Hperm.
    unfold filter_samples in Hperm.
    pose proof (length_filter (fun h => has_coords h = true) history).
    pose proof (length_filter (fun h => in_range h = true)
                  (filter (fun h => has_coords h = true) history)).
    pose proof (length_filter (fun h => not_zero h = true)
                  (filter (fun h => in_range h = true)
                     (filter (fun h => has_coords h = true) history))).
    lia.
  - apply Forall_forall. intros p Hp.
    assert (Hc : core p ∈ map core sorted).
    { eapply elem_of_sublist; [|exact Hsub].
      apply (list_elem_of_fmap_2 core). exact Hp. }
    apply list_elem_of_fmap in Hc as (q & Hcq & Hq).
    rewrite Hperm in Hq. apply list_elem_of_fmap in Hq as (h & -> & Hh).
    apply list_elem_of_In, filter_samples_in in Hh as [Hin Hret].
    unfold retained in Hret. unfold core in Hcq.
    injection Hcq as Hpos Hts _ _ Hst.
    unfold to_point in Hpos, Hts, Hst.
    destruct (a h) as [[[la|] [lo|] acc bat]|] eqn:Ea; try discriminate.
    cbn [pos timestamp state] in Hpos, Hts, Hst.
    apply andb_prop in Hret as [Hret Hlo]. apply andb_prop in Hret as [Hret Hla].
    apply andb_prop in Hret as [Hra Hro].
    apply Qle_bool_iff in Hra, Hro. apply negb_true_iff in Hla, Hlo.
    exists h, {| latitude := Some la; longitude := Some lo;
                 gps_accuracy := acc; battery_level := bat |}.
    rewrite Hpos, Hts, Hst. cbn [lat lng latitude longitude].
    split; [exact Hin|]. split; [exact Ea|]. split; [reflexivity|].
    split; [reflexivity|]. split; [reflexivity|].
    split; [reflexivity|]. split; [|split; [|split; assumption]].
    + intros H. apply Qeq_bool_iff in H. congruence.
    + intros H. apply Qeq_bool_iff in H. congruence.
Qed.

End RouteMore.


(** ** _calculateStats: speeds and times *)

Module StatsMore.
Import GeoUtils History Props RouteProps.
Local Open Scope R_scope.

Lemma fold_left_Rmax_ge : forall l a,
  a <= fold_left Rmax l a /\
  forall x, In x l -> x <= fold_left Rmax l a.
Proof.
  induction l as [|y l IH]; intros a; cbn [fold_left].
  - split; [lra|intros x []].
  - destruct (IH (Rmax a y)) as [H1 H2].
    pose proof (Rmax_l a y). pose proof (Rmax_r a y).
    split; [lra|]. intros x [<-|Hx]; [lra|apply H2; exact Hx].
Qed.

Lemma fold_left_Rmax_in : forall l a,
  fold_left Rmax l a = a \/ In (fold_left Rmax l a) l.
Proof.
  induction l as [|y l IH]; intros a; cbn [fold_left]; [left; reflexivity|].
  destruct (IH (Rmax a y)) as [H|H].
  - rewrite H. apply Rmax_case; [left; reflexivity|right; left; reflexivity].
  - right. right. exact H.
Qed.

Lemma fold_left_Rplus_bounds (M : R) : forall l acc,
  (forall x, In x l -> 0 <= x <= M) ->
  acc <= fold_left Rplus l acc <= acc + INR (length l) * M.
Proof.
  induction l as [|y l IH]; intros acc Hall.
  - cbn. lra.
  - cbn [fold_left]. change (length (y :: l)) with (S (length l)).
    rewrite S_INR.
    assert (Hy : 0 <= y <= M) by (apply Hall; left; reflexivity).
    specialize (IH (acc + y) (fun x Hx => Hall x (or_intror Hx))).
    lra.
Qed.

(** X8. The average speed of the statistics is never negative, and the
    maximum speed is below 200 km/h: it is 0 or the speed of one of the
    points, and no point's speed strictly between 0 and 200 km/h exceeds
    it when there are at least two points. *)
Theorem stats_speed_bounds (pts : list TrackPoint) :
  0 <= avgSpeed (_calculateStats pts) /\
  st_maxSpeed (_calculateStats pts) < 200 /\
  (st_maxSpeed (_calculateStats pts) = 0 \/
   exists p, In p pts /\ speed p = st_maxSpeed (_calculateStats pts)) /\
  ((2 <= length pts)%nat ->
   forall p, In p pts -> 0 < speed p < 200 ->
             speed p <= st_maxSpeed (_calculateStats pts)).
Proof.
  destruct pts as [|p0 [|p1 rest]].
  - cbn. split; [lra|]. split; [lra|]. split; [left; reflexivity|].
    intros H. lia.
  - cbn. split; [lra|]. split; [lra|]. split; [left; reflexivity|].
    intros H. lia.
  - unfold _calculateStats.
    set (pts := p0 :: p1 :: rest).
    set (speeds := filter (fun sp => Rgtb sp 0 && Rltb sp 200 = true)
                          (map speed pts)).
    destruct (time_loop p0 (p1 :: rest) (0, 0, 0)) as [[mv stn] drv].
    cbn [avgSpeed st_maxSpeed].
    assert (Hin : forall x, In x speeds <->
                    (exists p, speed p = x /\ In p pts) /\ 0 < x < 200).
    { intros x. unfold speeds.
      rewrite <- list_elem_of_In, list_elem_of_filter, list_elem_of_In.
      rewrite in_map_iff, andb_true_iff, Rgtb_true.
      unfold Rltb. destruct (Rlt_dec x 200); split.
      - intros [[H1 _] H2]. split; [exact H2|lra].
      - intros [H2 [H1 _]]. split; [split; [lra|reflexivity]|exact H2].
      - intros [[_ H] _]. discriminate.
      - intros [_ [_ H]]. lra. }
    destruct speeds as [|s0 speeds'] eqn:E.
    + split; [lra|]. split; [lra|]. split; [left; reflexivity|].
      intros _ p Hp Hsp. exfalso.
      apply (proj2 (Hin (speed p))). split; [exists p; split; auto|exact Hsp].
    + destruct (fold_left_Rmax_ge speeds' s0) as [Hge0 Hge].
      assert (Hmax_in : In (fold_left Rmax speeds' s0) (s0 :: speeds')).
      { destruct (fold_left_Rmax_in speeds' s0) as [->|H];
          [left; reflexivity|right; exact H]. }
      apply Hin in Hmax_in as [(pm & Hpm & Hspm) Hrange].
      assert (Hall : forall x, In x (s0 :: speeds') ->
                       0 <= x <= fold_left Rmax speeds' s0).
      { intros x Hx. split.
        - apply Hin in Hx as [_ Hx]. lra.
        - destruct Hx as [<-|Hx]; [exact Hge0|apply Hge; exact Hx]. }
      pose proof (fold_left_Rplus_bounds _ (s0 :: speeds') 0 Hall) as Hsum.
      fold (Rsum (s0 :: speeds')) in Hsum.
      assert (Hlen : 0 < INR (length (s0 :: speeds')))
        by (apply lt_0_INR; cbn; lia).
      split; [|split; [lra|split]].
      * apply Rmult_le_pos; [lra|]. left. apply Rinv_0_lt_compat. exact Hlen.
      * right. exists pm. split; assumption.
      * intros _ p Hp Hsp.
        apply Hall. apply Hin. split; [exists p; split; auto|exact Hsp].
Qed.

Lemma time_loop_nonneg : forall rest prev mv stn drv,
  ordered_from (timestamp prev) rest ->
  0 <= mv -> 0 <= stn -> 0 <= drv ->
  match time_loop prev rest (mv, stn, drv) with
  | (mv', stn', drv') => 0 <= mv' /\ 0 <= stn' /\ 0 <= drv'
  end.
Proof.
  induction rest as [|p rest IH]; intros prev mv stn drv Hord Hmv Hstn Hdrv.
  - cbn. auto.
  - destruct Hord as [Hp Hord]. cbn [time_loop]. unfold time_step.
    pose proof (StatsFacts.seconds_nonneg _ _ Hp) as Hdt.
    destruct (isDriving p); [|destruct (isMoving p)];
      apply IH; try assumption; lra.
Qed.

(** X9. In the statistics processHistory returns, the distance, the
    duration and the moving, stationary and driving times are never
    negative, and all of them are 0 when fewer than two points remain. *)
Theorem processHistory_stats_nonneg
    (history : list RawSample) (zones : list (string * Zone)) :
  0 <= st_distance (stats (processHistory history zones)) /\
  0 <= st_duration (stats (processHistory history zones)) /\
  0 <= movingTime (stats (processHistory history zones)) /\
  0 <= stationaryTime (stats (processHistory history zones)) /\
  0 <= drivingTime (stats (processHistory history zones)) /\
  ((length (points (processHistory history zones)) < 2)%nat ->
   stats (processHistory history zones) = zero_stats).
Proof.
  change (stats (processHistory history zones))
    with (_calculateStats (points (processHistory history zones))).
  assert (Hord : time_ordered (points (processHistory history zones)) = true)
    by (apply ThinFacts.time_ordered_thin, ThinFacts.sort_ordered).
  destruct (points (processHistory history zones)) as [|p0 [|p1 rest]].
  - cbn. repeat split; lra.
  - cbn. repeat split; lra.
  - apply ThinFacts.time_ordered_from in Hord.
    unfold _calculateStats.
    pose proof (time_loop_nonneg (p1 :: rest) p0 0 0 0 Hord
                  (Rle_refl 0) (Rle_refl 0) (Rle_refl 0)) as H.
    destruct (time_loop p0 (p1 :: rest) (0, 0, 0)) as [[mv stn] drv].
    destruct H as (H1 & H2 & H3).
    cbn [st_distance st_duration movingTime stationaryTime drivingTime].
    split.
    { change (map pos (p0 :: p1 :: rest))
        with (pos p0 :: map pos (p1 :: rest)).
      cbn [routeDistance].
      pose proof (GeoMore.routeSum_nonneg (map pos (p1 :: rest)) (pos p0)). lra. }
    split.
    { apply StatsFacts.seconds_nonneg.
      assert (Hto : time_ordered (p0 :: p1 :: rest) = true)
        by (apply ThinFacts.time_ordered_from; exact Hord).
      apply (PlaybackFacts.time_ordered_le_last _ p0 Hto). left. reflexivity. }
    repeat split; try assumption. intros Hlen. cbn in Hlen. lia.
Qed.

End StatsMore.


(** ** _detectTrips: what a trip holds *)

Module TripMore.
Import GeoUtils History Props RouteProps.

Lemma trip_loop_Forall (P : Trip -> Prop) (Q : OpenTrip -> Prop) :
  (forall prev point,
      Q {| o_startTime := timestamp point;
           o_startZone := or_null (prev ≫= zone);
           o_points := [point];
           o_maxSpeed := speed point |}) ->
  (forall c point, Q c ->
      Q {| o_startTime := o_startTime c;
           o_startZone := o_startZone c;
           o_points := o_points c ++ [point];
           o_maxSpeed := if Rgtb (speed point) (o_maxSpeed c)
                         then speed point else o_maxSpeed c |}) ->
  (forall c point, Q c -> P (close_trip c point)) ->
  forall pts prev cur acc,
    Forall P acc ->
    (forall c, cur = Some c -> Q c) ->
    Forall P (trip_loop prev pts (cur, acc)).
Proof.
  intros Hnew Hext Hclose.
  induction pts as [|point pts IH]; intros prev cur acc Hacc Hcur; [exact Hacc|].
  cbn [trip_loop]. unfold trip_step.
  destruct (isMoving point); destruct cur as [c|]; apply IH; try exact Hacc.
  - intros c' Hc'. injection Hc' as <-. apply Hext, Hcur. reflexivity.
  - intros c' Hc'. injection Hc' as <-. apply Hnew.
  - destruct (Rgtb _ _); [|exact Hacc].
    apply Forall_app. split; [exact Hacc|].
    constructor; [|constructor]. apply Hclose, Hcur. reflexivity.
  - intros c' Hc'. discriminate.
  - intros c' Hc'. discriminate.
Qed.

Lemma detectTrips_max_speed pts :
  Forall (fun t => max_of (tpoints t) (maxSpeed t) /\
                   duration t = seconds (startTime t) (endTime t))
         (_detectTrips pts).
Proof.
  unfold _detectTrips.
  apply (trip_loop_Forall _ (fun c => max_of (o_points c) (o_maxSpeed c))).
  - intros prev point. cbn [o_points o_maxSpeed]. split.
    + intros p [<-|[]]. lra.
    + exists point. split; [left|]; reflexivity.
  - intros c point [Hle (pm & Hpm & Hspm)]. cbn [o_points o_maxSpeed].
    destruct (Rgtb (speed point) (o_maxSpeed c)) eqn:E.
    + apply Rgtb_true in E. split.
      * intros p Hp. apply in_app_or in Hp as [Hp|[<-|[]]]; [|lra].
        specialize (Hle p Hp). lra.
      * exists point. split; [|reflexivity].
        apply in_or_app. right. left. reflexivity.
    + apply Rgtb_false in E. split.
      * intros p Hp. apply in_app_or in Hp as [Hp|[<-|[]]]; [auto|lra].
      * exists pm. split; [|exact Hspm]. apply in_or_app. left. exact Hpm.
  - intros c point Hc. split; [exact Hc|reflexivity].
  - constructor.
  - intros c Hc. discriminate.
Qed.

Lemma time_ordered_lookup : forall pts i j p q,
  time_ordered pts = true -> (i <= j)%nat ->
  pts !! i = Some p -> pts !! j = Some q ->
  (timestamp p <= timestamp q)%Z.
Proof.
  induction pts as [|x pts IH]; intros i j p q Hord Hij Hi Hj; [discriminate|].
  destruct (PlaybackFacts.time_ordered_cons _ _ Hord) as [Hrest Hall].
  destruct i as [|i]; destruct j as [|j]; try lia.
  - cbn in Hi, Hj. injection Hi as <-. injection Hj as <-. lia.
  - cbn in Hi, Hj. injection Hi as <-.
    rewrite List.Forall_forall in Hall. apply Hall.
    apply list_elem_of_In, list_elem_of_lookup. eauto.
  - cbn in Hi, Hj. apply (IH i j); auto. lia.
Qed.

Lemma routeDistance_short (l : list LatLng) :
  (length l <= 1)%nat -> routeDistance l = 0%R.
Proof. destruct l as [|p [|q l]]; cbn; intros H; try lra. lia. Qed.

(** X10. Every trip that _detectTrips emits holds at least two points,
    all of them moving points of the sequence; its distance is the route
    length of its points and exceeds 0.1 km; its duration is the time
    from its start to its end; its maximum speed is the largest speed
    among its points; and when the timestamps of the sequence never
    decrease, it does not end before it starts. *)
Theorem detectTrips_trip_contents (pts : list TrackPoint) :
  Forall (fun t =>
            (2 <= length (tpoints t))%nat /\
            Forall (fun p => isMoving p = true /\ In p pts) (tpoints t) /\
            distance t = routeDistance (map pos (tpoints t)) /\
            (distance t > 1 / 10)%R /\
            duration t = seconds (startTime t) (endTime t) /\
            max_of (tpoints t) (maxSpeed t) /\
            (time_ordered pts = true -> (startTime t <= endTime t)%Z))
         (_detectTrips pts).
Proof.
  destruct (TripFacts.trip_loop_inv pts pts 0 None [] [])
    as (ranges & k & Hk & HF & Hiff & _).
  { reflexivity. }
  { intros k' Hk'. discriminate. }
  { split; [constructor|]. split.
    - intros s n. split; [intros []|intros [_ H]; lia].
    - intros i j r1 r2 _ H. rewrite lookup_nil in H. discriminate. }
  change (trip_loop (point_before pts 0) pts (None, []))
    with (_detectTrips pts) in HF.
  pose proof (detectTrips_max_speed pts) as Hmax.
  apply Forall_lookup. intros i t Ht.
  rewrite Forall_lookup in Hmax. destruct (Hmax i t Ht) as [Hm Hd].
  destruct (Forall2_lookup_r _ _ _ _ _ HF Ht) as ([s n] & Hr & Htr).
  assert (Hin : In (s, n) ranges)
    by (apply list_elem_of_In, list_elem_of_lookup; eauto).
  apply Hiff in Hin as [((Hn & Hmov & _) & (c' & Hc' & _) & Hlong) _].
  destruct Htr as (p & c & Hp & Hc & Hpts & Hst & _ & Het & _ & Hdist & _).
  cbn [fst snd] in *.
  assert (Hlen : length (tpoints t) = n).
  { rewrite Hpts. unfold run_points. rewrite length_take, length_drop.
    apply lookup_lt_Some in Hc. lia. }
  split.
  { destruct (le_lt_dec 2 n) as [H2|H1]; [lia|]. exfalso.
    unfold run_distance in Hlong. rewrite <- Hpts in Hlong.
    rewrite routeDistance_short in Hlong; [lra|].
    rewrite length_map. lia. }
  split.
  { rewrite Hpts. unfold run_points. apply Forall_forall. intros x Hx.
    apply list_elem_of_lookup in Hx as [j Hj].
    apply lookup_take_Some in Hj as [Hj Hjn].
    rewrite lookup_drop in Hj. split.
    - specialize (Hmov (s + j)%nat ltac:(lia)).
      unfold is_moving_at in Hmov. rewrite Hj in Hmov. exact Hmov.
    - apply list_elem_of_In, list_elem_of_lookup. eauto. }
  split; [rewrite Hdist, Hpts; reflexivity|].
  split; [rewrite Hdist; exact Hlong|].
  split; [exact Hd|]. split; [exact Hm|].
  intros Hord. rewrite Hst, Het.
  apply (time_ordered_lookup pts s (s + n) p c Hord); [lia|exact Hp|exact Hc].
Qed.

End TripMore.


(** ** _calculateZoneTime: the entries of the table *)

Module ZoneMore.
Import GeoUtils History Props RouteProps.
Local Open Scope R_scope.

Lemma foldl_zone_keys zones : forall (m : gmap string ZoneEntry) z,
  is_Some (foldl (fun (m : gmap string ZoneEntry) (e : string * Zone) =>
                    <[zname (snd e) := empty_entry]> m) m zones !! z) <->
  is_Some (m !! z) \/ exists e, In e zones /\ zname e.2 = z.
Proof.
  induction zones as [|e zones IH]; intros m z; cbn [foldl].
  - split; [auto|]. intros [H|(e & [] & _)]. exact H.
  - rewrite IH, lookup_insert. destruct (decide (zname e.2 = z)) as [Hz|Hz].
    + split; [|intros _; left; eauto].
      intros _. right. exists e. split; [left; reflexivity|exact Hz].
    + split.
      * intros [H|(e' & Hin & He')]; [left; exact H|].
        right. exists e'. split; [right; exact Hin|exact He'].
      * intros [H|(e' & [<-|Hin] & He')]; [left; exact H|contradiction|].
        right. exists e'. split; assumption.
Qed.

Lemma zone_loop_keys z : forall rest prev lastZone (zt : gmap string ZoneEntry),
  is_Some (zone_loop prev rest (lastZone, zt) !! z) <->
  is_Some (zt !! z) \/ exists p, In p rest /\ zoneNameOf p = z.
Proof.
  induction rest as [|p rest IH]; intros prev lastZone zt.
  - cbn. split; [auto|]. intros [H|(p & [] & _)]. exact H.
  - cbn [zone_loop]. rewrite ZoneFacts.zone_step_insert, IH, lookup_insert.
    destruct (decide (zoneNameOf p = z)) as [Hz|Hz].
    + split; [|intros _; left; eauto].
      intros _. right. exists p. split; [left; reflexivity|exact Hz].
    + split.
      * intros [H|(q & Hin & Hq)]; [left; exact H|].
        right. exists q. split; [right; exact Hin|exact Hq].
      * intros [H|(q & [<-|Hin] & Hq)]; [left; exact H|contradiction|].
        right. exists q. split; assumption.
Qed.

(** X11. The zone-time table has an entry for Away, for the name of every
    zone of the directory and for the zone name of every point after the
    first, and for nothing else; this holds for an empty sequence too. *)
Theorem zoneTime_keys (pts : list TrackPoint) (zones : list (string * Zone))
    (z : string) :
  is_Some (_calculateZoneTime pts zones !! z) <->
  z = "Away" \/
  (exists e, In e zones /\ zname e.2 = z) \/
  (exists p, In p (tail pts) /\ zoneNameOf p = z).
Proof.
  assert (Hinit : is_Some (init_zoneTime zones !! z) <->
                  z = "Away" \/ exists e, In e zones /\ zname e.2 = z).
  { unfold init_zoneTime. rewrite lookup_insert.
    destruct (decide ("Away" = z)) as [Hz|Hz].
    - split; [auto|eauto].
    - rewrite foldl_zone_keys, lookup_empty. split.
      + intros [[x Hx]|H]; [discriminate|right; exact H].
      + intros [H|H]; [congruence|right; exact H]. }
  destruct pts as [|p0 rest]; cbn [_calculateZoneTime tail].
  - rewrite Hinit. split; [tauto|].
    intros [H|[H|(p & [] & _)]]; tauto.
  - rewrite zone_loop_keys, Hinit. tauto.
Qed.





End ZoneMore.


(** ** CrashDetector: triggering, timers and confirmation *)

Module DetectorMore.
Import CrashDetector CrashProps DetectorProps.

Lemma rev_cons_last {A} (l : list A) x t : rev l = x :: t -> last l = Some x.
Proof.
  intros H. apply (f_equal (@rev A)) in H. rewrite rev_involutive in H.
  rewrite H. cbn [rev]. apply last_snoc.
Qed.

Lemma Qgtb_false a b : Qgtb a b = false <-> (a <= b)%Q.
Proof.
  unfold Qgtb, Qltb. rewrite negb_false_iff. apply Qle_bool_iff.
Qed.

Lemma max_speed_reading_spec : forall l first,
  In (max_speed_reading first l) (first :: l) /\
  (speed first <= speed (max_speed_reading first l))%Q /\
  forall r, In r l -> (speed r <= speed (max_speed_reading first l))%Q.
Proof.
  unfold max_speed_reading.
  induction l as [|x l IH]; intros first; cbn [fold_left].
  - split; [left; reflexivity|]. split; [apply Qle_refl|intros r []].
  - destruct (Qgtb (speed x) (speed first)) eqn:E.
    + destruct (IH x) as (Hin & Hle & Hall).
      apply CrashFacts.Qltb_true in E.
      split; [right; exact Hin|]. split.
      * eapply Qle_trans; [apply Qlt_le_weak; exact E|exact Hle].
      * intros r [<-|Hr]; [exact Hle|apply Hall; exact Hr].
    + destruct (IH first) as (Hin & Hle & Hall).
      apply Qgtb_false in E. split.
      * destruct Hin as [Hin|Hin]; [left; exact Hin|right; right; exact Hin].
      * split; [exact Hle|].
        intros r [<-|Hr]; [eapply Qle_trans; eassumption|apply Hall; exact Hr].
Qed.

(** What [_checkForCrash] does: nothing, or one trigger whose data meet
    every condition of the crash pattern. *)
Lemma checkForCrash_cases cfg now p st :
  _checkForCrash cfg now p st = st \/
  exists d latest,
    _checkForCrash cfg now p st = _triggerPendingAlert cfg now p d st /\
    pendingAlerts st !! p = None /\
    cooldown_active cfg now (lastAlert st !! p) = false /\
    last (history_of p st) = Some latest /\
    location d = latest /\ speedAfter d = speed latest /\
    (min_speed_before cfg <= speedBefore d)%Q /\
    (speedAfter d <= max_speed_after cfg)%Q /\
    (accuracy latest <= min_gps_accuracy cfg)%Q /\
    (2 <= length (window cfg now (history_of p st)))%nat /\
    (forall r, In r (window cfg now (history_of p st)) ->
               (speed r <= speedBefore d)%Q) /\
    (exists r, In r (window cfg now (history_of p st)) /\
               speed r = speedBefore d) /\
    (require_driving_activity cfg = true ->
     _wasRecentlyDriving (window cfg now (history_of p st)) = true) /\
    (ignore_zone_entry cfg = true -> _isZoneEntry (history_of p st) = false).
Proof.
  unfold _checkForCrash. fold (history_of p st).
  destruct (rev (history_of p st)) as [|latest [|prev front]] eqn:Erev;
    [left; reflexivity|left; reflexivity|].
  destruct (cooldown_active cfg now (lastAlert st !! p)) eqn:Ecool;
    [left; reflexivity|].
  destruct (bool_decide (is_Some (pendingAlerts st !! p))) eqn:Epend;
    [left; reflexivity|].
  apply bool_decide_eq_false in Epend.
  fold (window cfg now (history_of p st)).
  destruct (window cfg now (history_of p st)) as [|first [|second rest]] eqn:Ewin;
    [left; reflexivity|left; reflexivity|].
  cbn [speed_drop activity_ok not_zone_entry gps_accurate].
  match goal with |- context [if ?b then _ else _] => destruct b eqn:Econd end;
    [|left; reflexivity].
  right.
  apply andb_prop in Econd as [Econd Hgps].
  apply andb_prop in Econd as [Econd Hzone].
  apply andb_prop in Econd as [Hdrop Hact].
  apply andb_prop in Hdrop as [Hbefore Hafter].
  apply Qle_bool_iff in Hbefore, Hafter, Hgps.
  destruct (max_speed_reading_spec (first :: second :: rest) first)
    as (Hin & _ & Hall).
  eexists _, latest. split; [reflexivity|].
  cbn [location speedAfter speedBefore].
  split; [destruct (pendingAlerts st !! p); [exfalso; eauto|reflexivity]|].
  split; [reflexivity|].
  split; [apply rev_cons_last with (t := prev :: front); exact Erev|].
  split; [reflexivity|]. split; [reflexivity|].
  split; [exact Hbefore|]. split; [exact Hafter|]. split; [exact Hgps|].
  split; [cbn [length]; lia|]. split; [exact Hall|]. split.
  - eexists. split; [|reflexivity].
    destruct Hin as [<-|Hin]; [left; reflexivity|exact Hin].
  - split.
    + intros Hreq. rewrite Hreq in Hact. exact Hact.
    + intros Hign. rewrite Hign in Hzone. cbn in Hzone.
      apply negb_true_iff in Hzone. exact Hzone.
Qed.


(** *** Timers *)

Lemma timers_ok_init : timers_ok init.
Proof.
  split; [|split]; cbn [timers pendingAlerts init].
  - intros id tm H. rewrite lookup_empty in H. discriminate.
  - intros p pd H. rewrite lookup_empty in H. discriminate.
  - intros id [tm H]. rewrite lookup_empty in H. discriminate.
Qed.

Lemma timers_ok_trigger cfg now p d st :
  timers_ok st -> pendingAlerts st !! p = None ->
  timers_ok (_triggerPendingAlert cfg now p d st).
Proof.
  intros (Ht & Hp & Hf) Hnone.
  split; [|split]; cbn [timers pendingAlerts nextTimer _triggerPendingAlert].
  - intros id tm. rewrite lookup_insert.
    destruct (decide (nextTimer st = id)) as [<-|Hne].
    + intros H. injection H as <-. cbn [tm_person].
      rewrite lookup_insert_eq. eexists. split; reflexivity.
    + intros H. destruct (Ht id tm H) as (pd & Hpd & Hid).
      exists pd. split; [|exact Hid].
      rewrite lookup_insert_ne; [exact Hpd|].
      intros Heq. rewrite <- Heq in Hpd. congruence.
  - intros q pd. rewrite lookup_insert.
    destruct (decide (p = q)) as [<-|Hne].
    + intros H. injection H as <-. cbn [timer].
      rewrite lookup_insert_eq. eexists. split; reflexivity.
    + intros H. destruct (Hp q pd H) as (tm & Htm & Hq).
      exists tm. split; [|exact Hq].
      rewrite lookup_insert_ne; [exact Htm|].
      assert (timer pd < nextTimer st)%nat by (apply Hf; eauto). lia.
  - intros id. rewrite lookup_insert.
    destruct (decide (nextTimer st = id)) as [<-|Hne]; [lia|].
    intros H. specialize (Hf id H). lia.
Qed.

(** Removing a pending alert together with its timer keeps the timers
    in order. *)
Lemma timers_ok_remove st st' p pd :
  timers_ok st -> pendingAlerts st !! p = Some pd ->
  pendingAlerts st' = delete p (pendingAlerts st) ->
  timers st' = delete (timer pd) (timers st) ->
  nextTimer st' = nextTimer st ->
  timers_ok st'.
Proof.
  intros (Ht & Hp & Hf) Hpd Hpe Hti Hnx.
  destruct (Hp p pd Hpd) as (tm0 & Htm0 & Hperson0).
  split; [|split]; rewrite ?Hpe, ?Hti, ?Hnx.
  - intros id tm. rewrite lookup_delete.
    destruct (decide (timer pd = id)) as [Heq|Hne]; [discriminate|].
    intros H. destruct (Ht id tm H) as (pd' & Hpd' & Hid).
    exists pd'. split; [|exact Hid].
    rewrite lookup_delete_ne; [exact Hpd'|]. intros Heq.
    rewrite <- Heq, Hpd in Hpd'. injection Hpd' as <-. contradiction.
  - intros q pd'. rewrite lookup_delete.
    destruct (decide (p = q)) as [Heq|Hne]; [discriminate|].
    intros H. destruct (Hp q pd' H) as (tm & Htm & Hq).
    exists tm. split; [|exact Hq].
    rewrite lookup_delete_ne; [exact Htm|]. intros Heq.
    rewrite <- Heq, Htm0 in Htm. injection Htm as <-. congruence.
  - intros id. rewrite lookup_delete.
    destruct (decide (timer pd = id)); [intros [x Hx]; discriminate|apply Hf].
Qed.

Lemma timers_ok_set_history p h st :
  timers_ok st -> timers_ok (set_history p h st).
Proof. intros H. exact H. Qed.

Lemma timers_ok_addReading cfg now p r st :
  timers_ok st -> timers_ok (addReading cfg now p r st).
Proof.
  intros Hok. unfold addReading.
  destruct (negb (enabled cfg)); [exact Hok|].
  set (st1 := match speedHistory st !! p with
              | Some _ => st
              | None => set_history p [] st
              end).
  assert (Hok1 : timers_ok st1)
    by (unfold st1; destruct (speedHistory st !! p); exact Hok).
  destruct (Qgtb (accuracy r) (min_gps_accuracy cfg)); [exact Hok1|].
  set (st2 := set_history p _ st1).
  assert (Hok2 : timers_ok st2) by exact Hok1.
  destruct (checkForCrash_cases cfg now p st2)
    as [->|(d & latest & -> & Hnone & _)]; [exact Hok2|].
  apply timers_ok_trigger; assumption.
Qed.

Lemma timers_ok_cancel p st :
  timers_ok st -> timers_ok (cancelPendingAlert p st).2.
Proof.
  intros Hok. unfold cancelPendingAlert.
  destruct (pendingAlerts st !! p) as [pd|] eqn:E; [|exact Hok].
  cbn [snd]. apply (timers_ok_remove st _ p pd Hok E); reflexivity.
Qed.

Lemma timers_ok_fire id now st :
  timers_ok st -> timers_ok (fire_timer id now st).
Proof.
  intros Hok. unfold fire_timer.
  destruct (timers st !! id) as [tm|] eqn:E; [|exact Hok].
  destruct (Qle_bool (tm_due tm) (inject_Z now)); [|exact Hok].
  destruct (proj1 Hok id tm E) as (pd & Hpd & Hid).
  unfold _confirmAndSendAlert. cbn [pendingAlerts]. rewrite Hpd.
  apply (timers_ok_remove st _ (tm_person tm) pd Hok Hpd);
    cbn [pendingAlerts timers nextTimer]; [reflexivity| |reflexivity].
  rewrite Hid. reflexivity.
Qed.

(** X14. In a detector whose queued timers are exactly those of the
    pending alerts, one per alert, this stays so after adding a reading,
    after cancelling an alert and after a timer fires. *)
Theorem timers_ok_preserved (cfg : Config) (st : State) :
  timers_ok st ->
  (forall now p r, timers_ok (addReading cfg now p r st)) /\
  (forall p, timers_ok (cancelPendingAlert p st).2) /\
  (forall id now, timers_ok (fire_timer id now st)).
Proof.
  intros Hok. split; [|split].
  - intros now p r. apply timers_ok_addReading. exact Hok.
  - intros p. apply timers_ok_cancel. exact Hok.
  - intros id now. apply timers_ok_fire. exact Hok.
Qed.

Lemma timers_ok_preserved_witness :
  timers_ok init /\
  timers_ok (addReading (default_config true) 4000 "alice" (slow 0 None)
               (addReading (default_config true) 0 "alice" (fast 0 None) init)).
Proof.
  split; [exact timers_ok_init|].
  apply (timers_ok_preserved (default_config true)
           (addReading (default_config true) 0 "alice" (fast 0 None) init)).
  apply (timers_ok_preserved (default_config true) init).
  exact timers_ok_init.
Defined.

Lemma timers_ok_alice : timers_ok alice_pending.
Proof.
  apply timers_ok_trigger; [exact timers_ok_init|apply lookup_empty].
Qed.

(** X15. In a detector whose timers are in order, the pending alert of a
    person has its timer queued. When that timer fires at or after its
    due time the alert is confirmed: the entry is removed, lastAlert of
    the person is set to the instant of firing, and one alert with the
    rounded speeds is dispatched; the histories are untouched and firing
    the same timer again changes nothing. Fired before its due time the
    timer changes nothing. *)
Theorem fire_timer_confirms (st : State) (p : string) (pd : Pending) (now : Z) :
  timers_ok st ->
  pendingAlerts st !! p = Some pd ->
  exists tm,
    timers st !! timer pd = Some tm /\ tm_person tm = p /\
    ((tm_due tm <= inject_Z now)%Q ->
     lastAlert (fire_timer (timer pd) now st) = <[p := now]> (lastAlert st) /\
     pendingAlerts (fire_timer (timer pd) now st) = delete p (pendingAlerts st) /\
     timers (fire_timer (timer pd) now st) = delete (timer pd) (timers st) /\
     dispatched (fire_timer (timer pd) now st)
       = dispatched st ++ [alert_of p pd now] /\
     speedHistory (fire_timer (timer pd) now st) = speedHistory st /\
     forall now',
       fire_timer (timer pd) now' (fire_timer (timer pd) now st)
       = fire_timer (timer pd) now st) /\
    (~ (tm_due tm <= inject_Z now)%Q -> fire_timer (timer pd) now st = st).
Proof.
  intros Hok Hpd. destruct (proj1 (proj2 Hok) p pd Hpd) as (tm & Htm & Hperson).
  exists tm. split; [exact Htm|]. split; [exact Hperson|].
  split.
  - intros Hdue.
    assert (Hfire : fire_timer (timer pd) now st =
              {| lastAlert := <[p := now]> (lastAlert st);
                 pendingAlerts := delete p (pendingAlerts st);
                 speedHistory := speedHistory st;
                 timers := delete (timer pd) (timers st);
                 nextTimer := nextTimer st;
                 dispatched := dispatched st ++ [alert_of p pd now] |}).
    { unfold fire_timer. rewrite Htm. apply Qle_bool_iff in Hdue. rewrite Hdue.
      unfold _confirmAndSendAlert. cbn [pendingAlerts].
      rewrite Hperson, Hpd. reflexivity. }
    rewrite Hfire.
    cbn [lastAlert pendingAlerts timers dispatched speedHistory].
    repeat split.
    intros now'. unfold fire_timer. cbn [timers].
    rewrite lookup_delete_eq. reflexivity.
  - intros Hdue. unfold fire_timer. rewrite Htm.
    destruct (Qle_bool (tm_due tm) (inject_Z now)) eqn:E; [|reflexivity].
    apply Qle_bool_iff in E. contradiction.
Qed.

Lemma fire_timer_confirms_witness :
  lastAlert (fire_timer 0 1000000 alice_pending) !! "alice" = Some 1000000%Z.
Proof.
  destruct (fire_timer_confirms alice_pending "alice"
              {| data := sample_data; p_timestamp := 970000; timer := 0 |}
              1000000 timers_ok_alice eq_refl)
    as (tm & Htm & _ & Hfire & _).
  assert (Hdue : (tm_due tm <= inject_Z 1000000)%Q).
  { vm_compute in Htm. injection Htm as <-. vm_compute. discriminate. }
  destruct (Hfire Hdue) as (Hl & _). cbn [timer] in Hl.
  rewrite Hl. apply lookup_insert_eq.
Defined.

(** X16. In a detector whose timers are in order, after
    cancelPendingAlert for a person no queued timer belongs to that
    person, so whatever timer fires afterwards, and whenever, the person
    gets no cooldown stamp, no pending alert and no dispatched alert. *)
Theorem cancel_silences_person (st : State) (p : string) :
  timers_ok st ->
  (forall id tm, timers (cancelPendingAlert p st).2 !! id = Some tm ->
                 tm_person tm <> p) /\
  forall id now,
    lastAlert (fire_timer id now (cancelPendingAlert p st).2) !! p
      = lastAlert st !! p /\
    pendingAlerts (fire_timer id now (cancelPendingAlert p st).2) !! p = None /\
    filter (fun al => al_person al = p)
           (dispatched (fire_timer id now (cancelPendingAlert p st).2))
      = filter (fun al => al_person al = p) (dispatched st).
Proof.
  intros Hok.
  pose proof (timers_ok_cancel p st Hok) as Hok'.
  assert (Hnone : pendingAlerts (cancelPendingAlert p st).2 !! p = None).
  { unfold cancelPendingAlert. destruct (pendingAlerts st !! p) eqn:E;
      cbn [snd pendingAlerts]; [apply lookup_delete_eq|exact E]. }
  assert (Hla : lastAlert (cancelPendingAlert p st).2 = lastAlert st)
    by (unfold cancelPendingAlert; destruct (pendingAlerts st !! p); reflexivity).
  assert (Hdi : dispatched (cancelPendingAlert p st).2 = dispatched st)
    by (unfold cancelPendingAlert; destruct (pendingAlerts st !! p); reflexivity).
  assert (Hno : forall id tm, timers (cancelPendingAlert p st).2 !! id = Some tm ->
                              tm_person tm <> p).
  { intros id tm Htm Heq.
    destruct (proj1 Hok' id tm Htm) as (pd & Hpd & _).
    rewrite Heq, Hnone in Hpd. discriminate. }
  split; [exact Hno|]. intros id now.
  set (st' := (cancelPendingAlert p st).2) in *.
  unfold fire_timer. destruct (timers st' !! id) as [tm|] eqn:E;
    [|rewrite Hla, Hdi; auto].
  destruct (Qle_bool (tm_due tm) (inject_Z now)); [|rewrite Hla, Hdi; auto].
  specialize (Hno id tm E).
  unfold _confirmAndSendAlert. cbn [pendingAlerts].
  destruct (pendingAlerts st' !! tm_person tm) as [pd|] eqn:Epd.
  - cbn [lastAlert pendingAlerts dispatched].
    rewrite lookup_insert_ne by exact Hno.
    rewrite lookup_delete_ne by exact Hno. rewrite Hla, Hdi.
    split; [reflexivity|]. split; [exact Hnone|].
    rewrite filter_app, filter_cons, filter_nil. cbn [al_person].
    rewrite decide_False by exact Hno. apply app_nil_r.
  - cbn [lastAlert pendingAlerts dispatched]. rewrite Hla, Hdi. auto.
Qed.

Lemma cancel_silences_person_witness :
  lastAlert (fire_timer 0 1000000 (cancelPendingAlert "alice" alice_pending).2)
    !! "alice" = None.
Proof.
  destruct (cancel_silences_person alice_pending "alice" timers_ok_alice)
    as [_ H].
  destruct (H 0%nat 1000000%Z) as [Hl _]. rewrite Hl. reflexivity.
Defined.

(** *** The card's crash handler *)

Lemma cancel_each_spec : forall keys st,
  pendingAlerts (cancel_each keys st)
    = foldl (fun m k => delete k m) (pendingAlerts st) keys /\
  lastAlert (cancel_each keys st) = lastAlert st /\
  speedHistory (cancel_each keys st) = speedHistory st /\
  dispatched (cancel_each keys st) = dispatched st /\
  (timers_ok st -> timers_ok (cancel_each keys st)).
Proof.
  unfold cancel_each.
  induction keys as [|k keys IH]; intros st; cbn [foldl].
  - split; [reflexivity|]. split; [reflexivity|]. split; [reflexivity|].
    split; [reflexivity|]. intros H. exact H.
  - destruct (IH (cancelPendingAlert k st).2) as (H1 & H2 & H3 & H4 & H5).
    rewrite H1, H2, H3, H4.
    assert (Hc : pendingAlerts (cancelPendingAlert k st).2
                   = delete k (pendingAlerts st) /\
                 lastAlert (cancelPendingAlert k st).2 = lastAlert st /\
                 speedHistory (cancelPendingAlert k st).2 = speedHistory st /\
                 dispatched (cancelPendingAlert k st).2 = dispatched st).
    { unfold cancelPendingAlert.
      destruct (pendingAlerts st !! k) eqn:E; cbn [snd pendingAlerts].
      - split; [reflexivity|]. split; [reflexivity|]. split; reflexivity.
      - split; [symmetry; apply delete_id; exact E|].
        split; [reflexivity|]. split; reflexivity. }
    destruct Hc as (-> & -> & -> & ->).
    split; [reflexivity|]. split; [reflexivity|]. split; [reflexivity|].
    split; [reflexivity|].
    intros Hok. apply H5, timers_ok_cancel, Hok.
Qed.

Lemma foldl_delete_lookup {A} (keys : list string) : forall (m : gmap string A) k,
  foldl (fun m k => delete k m) m keys !! k
  = if bool_decide (k ∈ keys) then None else m !! k.
Proof.
  induction keys as [|x keys IH]; intros m k; cbn [foldl].
  - rewrite bool_decide_eq_false_2; [reflexivity|]. apply not_elem_of_nil.
  - rewrite IH. destruct (bool_decide (k ∈ keys)) eqn:E.
    + apply bool_decide_eq_true in E.
      rewrite bool_decide_eq_true_2; [reflexivity|]. right. exact E.
    + apply bool_decide_eq_false in E.
      destruct (decide (k = x)) as [->|Hne].
      * rewrite lookup_delete_eq.
        rewrite bool_decide_eq_true_2; [reflexivity|]. left.
      * rewrite lookup_delete_ne by congruence.
        rewrite bool_decide_eq_false_2; [reflexivity|].
        intros H. apply elem_of_cons in H as [H|H]; contradiction.
Qed.

(** X17. _cancelCrash cancels the pending alert of every person: no
    pending alert is left, while the cooldown stamps, the histories and
    the dispatched alerts stay as they are; in a detector whose timers
    are in order no timer is left queued either. *)
Theorem cancelCrash_clears (st : State) :
  pendingAlerts (Card._cancelCrash st) = ∅ /\
  lastAlert (Card._cancelCrash st) = lastAlert st /\
  speedHistory (Card._cancelCrash st) = speedHistory st /\
  dispatched (Card._cancelCrash st) = dispatched st /\
  (timers_ok st -> timers (Card._cancelCrash st) = ∅).
Proof.
  change (Card._cancelCrash st)
    with (cancel_each (map fst (map_to_list (pendingAlerts st))) st).
  destruct (cancel_each_spec (map fst (map_to_list (pendingAlerts st))) st)
    as (H1 & H2 & H3 & H4 & H5).
  assert (Hempty : pendingAlerts
                     (cancel_each (map fst (map_to_list (pendingAlerts st))) st)
                   = ∅).
  { rewrite H1. apply map_eq. intros k.
    rewrite foldl_delete_lookup, lookup_empty.
    destruct (bool_decide _) eqn:E; [reflexivity|].
    apply bool_decide_eq_false in E.
    destruct (pendingAlerts st !! k) as [pd|] eqn:Ek; [|reflexivity].
    exfalso. apply E. apply (list_elem_of_fmap_2' fst _ (k, pd));
      [|reflexivity].
    apply elem_of_map_to_list. exact Ek. }
  split; [exact Hempty|]. split; [exact H2|]. split; [exact H3|].
  split; [exact H4|]. intros Hok. apply map_eq. intros id.
  rewrite lookup_empty.
  destruct (timers _ !! id) as [tm|] eqn:E; [|reflexivity].
  destruct (proj1 (H5 Hok) id tm E) as (pd & Hpd & _).
  rewrite Hempty, lookup_empty in Hpd. discriminate.
Qed.

(** X18. When the alert of a person is confirmed while the card listens,
    the card's handler cancels every pending alert that is left: after
    the confirmation nobody has a pending alert, only the confirmed
    person has received a cooldown stamp, and the confirmed alert is the
    only one dispatched, so the alerts then pending for other persons are
    dropped unconfirmed. Without a pending alert nothing happens. *)
Theorem confirm_with_card_drops_others (now : Z) (p : string) (st : State) :
  match pendingAlerts st !! p with
  | Some pd =>
      pendingAlerts (Card.confirm_with_card now p st) = ∅ /\
      lastAlert (Card.confirm_with_card now p st) = <[p := now]> (lastAlert st) /\
      dispatched (Card.confirm_with_card now p st)
        = dispatched st ++ [alert_of p pd now] /\
      speedHistory (Card.confirm_with_card now p st) = speedHistory st
  | None => Card.confirm_with_card now p st = st
  end.
Proof.
  unfold Card.confirm_with_card.
  destruct (pendingAlerts st !! p) as [pd|] eqn:E; [|reflexivity].
  change (Card._cancelCrash (_confirmAndSendAlert now p st))
    with (cancel_each
            (map fst (map_to_list (pendingAlerts (_confirmAndSendAlert now p st))))
            (_confirmAndSendAlert now p st)).
  set (st1 := _confirmAndSendAlert now p st).
  destruct (cancel_each_spec (map fst (map_to_list (pendingAlerts st1))) st1)
    as (H1 & H2 & H3 & H4 & _).
  rewrite H2, H3, H4. split.
  - rewrite H1. apply map_eq. intros k.
    rewrite foldl_delete_lookup, lookup_empty.
    destruct (bool_decide _) eqn:Eb; [reflexivity|].
    apply bool_decide_eq_false in Eb.
    destruct (pendingAlerts st1 !! k) as [pd'|] eqn:Ek; [|reflexivity].
    exfalso. apply Eb. apply (list_elem_of_fmap_2' fst _ (k, pd'));
      [|reflexivity].
    apply elem_of_map_to_list. exact Ek.
  - unfold st1, _confirmAndSendAlert. rewrite E.
    cbn [lastAlert dispatched speedHistory]. repeat split.
Qed.

(** *** The stored readings *)

Lemma checkForCrash_history cfg now q st :
  speedHistory (_checkForCrash cfg now q st) = speedHistory st.
Proof. unfold _checkForCrash. repeat case_match; reflexivity. Qed.

(** The history of each person after one call. *)
Lemma addReading_history cfg now q r st p :
  history_of p (addReading cfg now q r st) =
  if decide (p = q) then
    if enabled cfg && negb (Qgtb (accuracy r) (min_gps_accuracy cfg))
    then filter (fun x => (timestamp x >? now - 60000)%Z = true)
                (history_of q st ++ [r])
    else history_of q st
  else history_of p st.
Proof.
  unfold history_of, addReading.
  destruct (decide (p = q)) as [->|Hne].
  - destruct (enabled cfg); cbn [negb andb]; [|reflexivity].
    destruct (Qgtb (accuracy r) (min_gps_accuracy cfg)); cbn [negb].
    + destruct (speedHistory st !! q) eqn:E; cbn [speedHistory set_history].
      * rewrite E. reflexivity.
      * rewrite lookup_insert_eq. reflexivity.
    + rewrite checkForCrash_history. cbn [speedHistory set_history].
      rewrite lookup_insert_eq. cbn [default].
      destruct (speedHistory st !! q) eqn:E; cbn [speedHistory set_history].
      * rewrite E. reflexivity.
      * rewrite lookup_insert_eq. reflexivity.
  - destruct (enabled cfg); cbn [negb]; [|reflexivity].
    destruct (Qgtb (accuracy r) (min_gps_accuracy cfg)).
    + destruct (speedHistory st !! q); cbn [speedHistory set_history];
        [reflexivity|].
      rewrite lookup_insert_ne by congruence. reflexivity.
    + rewrite checkForCrash_history. cbn [speedHistory set_history].
      rewrite lookup_insert_ne by congruence.
      destruct (speedHistory st !! q); cbn [speedHistory set_history];
        [reflexivity|].
      rewrite lookup_insert_ne by congruence. reflexivity.
Qed.


Lemma run_snoc cfg calls c st :
  run cfg (calls ++ [c]) st = addReading cfg c.1.1 c.1.2 c.2 (run cfg calls st).
Proof. unfold run. rewrite foldl_app. reflexivity. Qed.

(** X20. Whatever calls of addReading a fresh detector has served, every
    reading it stores for a person was passed in one of the calls for
    that person and is accurate enough (accuracy at most
    min_gps_accuracy). *)
Theorem stored_readings_accurate (cfg : Config) (calls : list Call)
    (p : string) :
  Forall (fun r => (accuracy r <= min_gps_accuracy cfg)%Q /\
                   exists now, In (now, p, r) calls)
         (history_of p (run cfg calls init)).
Proof.
  induction calls as [|[[now q] r] calls IH] using rev_ind.
  - cbn. constructor.
  - rewrite run_snoc. cbn [fst snd]. rewrite addReading_history.
    assert (Hold : Forall (fun r0 => (accuracy r0 <= min_gps_accuracy cfg)%Q /\
                             exists now0, In (now0, p, r0) (calls ++ [(now, q, r)]))
                          (history_of p (run cfg calls init))).
    { eapply Forall_impl; [exact IH|]. cbn. intros x [Hx (n & Hn)].
      split; [exact Hx|]. exists n. apply in_or_app. left. exact Hn. }
    destruct (decide (p = q)) as [<-|Hne]; [|exact Hold].
    destruct (enabled cfg); cbn [andb]; [|exact Hold].
    destruct (Qgtb (accuracy r) (min_gps_accuracy cfg)) eqn:E; cbn [negb];
      [exact Hold|].
    apply Qgtb_false in E.
    apply Forall_forall. intros x Hx.
    apply list_elem_of_filter in Hx as [_ Hx].
    apply elem_of_app in Hx as [Hx|Hx].
    + rewrite Forall_forall in Hold. apply Hold. exact Hx.
    + apply list_elem_of_singleton in Hx as ->.
      split; [exact E|]. exists now. apply in_or_app. right. left. reflexivity.
Qed.

(** *** Arriving in a zone *)

Lemma addReading_pending_cases cfg now p r st :
  (pendingAlerts (addReading cfg now p r st) = pendingAlerts st /\
   timers (addReading cfg now p r st) = timers st) \/
  (enabled cfg = true /\
   Qgtb (accuracy r) (min_gps_accuracy cfg) = false /\
   (ignore_zone_entry cfg = true ->
    _isZoneEntry (history_of p (addReading cfg now p r st)) = false)).
Proof.
  unfold addReading.
  destruct (enabled cfg) eqn:Een; cbn [negb]; [|left; split; reflexivity].
  set (st1 := match speedHistory st !! p with
              | Some _ => st
              | None => set_history p [] st
              end).
  assert (H1 : pendingAlerts st1 = pendingAlerts st /\ timers st1 = timers st)
    by (unfold st1; destruct (speedHistory st !! p); split; reflexivity).
  destruct (Qgtb (accuracy r) (min_gps_accuracy cfg)) eqn:Eacc;
    [left; exact H1|].
  set (st2 := set_history p _ st1).
  destruct (checkForCrash_cases cfg now p st2)
    as [->|(d & latest & -> & _ & _ & _ & _ & _ & _ & _ & _ & _ & _ & _ & _
            & Hzone)].
  - left. exact H1.
  - right. split; [reflexivity|]. split; [reflexivity|].
    change (history_of p (_triggerPendingAlert cfg now p d st2))
      with (history_of p st2).
    exact Hzone.
Qed.

(** X21. With ignore_zone_entry switched on, when the latest stored
    reading of a person has no zone, the new reading has one, and both
    are newer than 60 seconds before the call, addReading raises no
    pending alert and queues no timer, whatever the speeds. *)
Theorem zone_entry_suppressed (cfg : Config) (now : Z) (p : string)
    (r prev : Reading) (h : list Reading) (st : State) :
  ignore_zone_entry cfg = true ->
  speedHistory st !! p = Some (h ++ [prev]) ->
  truthy_str (zone prev) = false ->
  truthy_str (zone r) = true ->
  (now - 60000 < timestamp prev)%Z ->
  (now - 60000 < timestamp r)%Z ->
  pendingAlerts (addReading cfg now p r st) = pendingAlerts st /\
  timers (addReading cfg now p r st) = timers st.
Proof.
  intros Hign Hh Hprev Hr Htp Htr.
  destruct (addReading_pending_cases cfg now p r st)
    as [H|(Hen & Hacc & Hzone)]; [exact H|].
  exfalso. specialize (Hzone Hign). revert Hzone.
  rewrite addReading_history, decide_True by reflexivity.
  rewrite Hen, Hacc. cbn [andb negb].
  unfold history_of at 1. rewrite Hh. cbn [default from_option Datatypes.id].
  rewrite !filter_app, !filter_cons, !filter_nil.
  rewrite !decide_True by (apply Z.gtb_lt; lia).
  unfold _isZoneEntry. rewrite !rev_app_distr. cbn [rev app].
  rewrite Hprev, Hr. discriminate.
Qed.

Lemma zone_entry_suppressed_witness :
  pendingAlerts (addReading (default_config true) 4000 "alice"
                   (slow 0 (Some "home")) alice_driving)
  = pendingAlerts alice_driving.
Proof.
  refine (proj1 (zone_entry_suppressed (default_config true) 4000 "alice"
                   (slow 0 (Some "home")) (fast 0 None) [] alice_driving
                   _ _ _ _ _ _)).
  - reflexivity.
  - reflexivity.
  - reflexivity.
  - reflexivity.
  - cbn. lia.
  - cbn. lia.
Defined.

End DetectorMore.


(** ** Card: timeline, playback and lists *)

Module CardMore.
Import History Card CardProps.

Lemma time_clip_mono a b : (a <= b)%Q -> (time_clip a <= time_clip b)%Z.
Proof.
  intros Hab. unfold time_clip.
  destruct (Qle_bool 0 a) eqn:Ea; destruct (Qle_bool 0 b) eqn:Eb.
  - apply Qfloor_resp_le. exact Hab.
  - apply Qle_bool_iff in Ea. exfalso.
    assert (H : (0 <= b)%Q) by (eapply Qle_trans; eassumption).
    apply Qle_bool_iff in H. congruence.
  - apply Qle_bool_iff in Eb.
    assert (Ha : (a <= 0)%Q).
    { destruct (Qlt_le_dec 0 a) as [H|H]; [|exact H].
      apply Qlt_le_weak, Qle_bool_iff in H. congruence. }
    pose proof (Qceiling_resp_le _ _ Ha) as H1.
    pose proof (Qfloor_resp_le _ _ Eb) as H2.
    change 0%Q with (inject_Z 0) in H1, H2.
    rewrite Qceiling_Z in H1. rewrite Qfloor_Z in H2. lia.
  - apply Qceiling_resp_le. exact Hab.
Qed.

Lemma time_clip_Z z : time_clip (inject_Z z) = z.
Proof.
  unfold time_clip. destruct (Qle_bool 0 (inject_Z z));
    [apply Qfloor_Z|apply Qceiling_Z].
Qed.

Lemma time_clip_eq a z : (a == inject_Z z)%Q -> time_clip a = z.
Proof.
  intros H. apply Z.le_antisymm.
  - pose proof (time_clip_mono a (inject_Z z)) as Hm.
    rewrite time_clip_Z in Hm. apply Hm. rewrite H. apply Qle_refl.
  - pose proof (time_clip_mono (inject_Z z) a) as Hm.
    rewrite time_clip_Z in Hm. apply Hm. rewrite H. apply Qle_refl.
Qed.

(** X22. Moving the timeline slider keeps the start and the end of the
    timeline, puts the current instant at the start for position 0 and at
    the end for position 1000, and, when the start is not after the end,
    never moves the current instant backwards as the position grows: for
    positions from 0 to 1000 the current instant stays between start and
    end. *)
Theorem onTimelineChange_between (tl : Timeline) :
  (forall v, tl_start (_onTimelineChange v tl) = tl_start tl /\
             tl_end (_onTimelineChange v tl) = tl_end tl) /\
  tl_current (_onTimelineChange 0 tl) = tl_start tl /\
  tl_current (_onTimelineChange 1000 tl) = tl_end tl /\
  ((tl_start tl <= tl_end tl)%Z ->
   forall v v', (v <= v')%Q ->
     (tl_current (_onTimelineChange v tl)
      <= tl_current (_onTimelineChange v' tl))%Z).
Proof.
  split; [intros v; split; reflexivity|].
  unfold _onTimelineChange. cbn [tl_current].
  split; [|split].
  - apply time_clip_eq. field.
  - apply time_clip_eq. unfold Z.sub.
    rewrite inject_Z_plus, inject_Z_opp. field.
  - intros Hse v v' Hv. apply time_clip_mono.
    apply Qplus_le_r. apply Qmult_le_compat_r.
    + apply Qmult_le_compat_r; [exact Hv|]. discriminate.
    + change 0%Q with (inject_Z 0). rewrite <- Zle_Qle. lia.
Qed.

(** X23. One animation frame of the playback never takes the slider
    position out of the range from 0 (included) to 1000 (excluded), given
    a position, an elapsed time and a speed that are not negative; the
    position never moves back, except to 0 when the advance reaches
    1000. *)
Theorem animate_in_range (speed delta value : Q) :
  (0 <= speed)%Q -> (0 <= delta)%Q -> (0 <= value)%Q ->
  (0 <= animate speed delta value)%Q /\
  (animate speed delta value < 1000)%Q /\
  (animate speed delta value = 0%Q \/
   (value <= animate speed delta value)%Q).
Proof.
  intros Hs Hd Hv. unfold animate.
  assert (Hinc : (0 <= delta / (1667 # 100) * (1 # 20) * speed)%Q).
  { apply Qmult_le_0_compat; [|exact Hs].
    apply Qmult_le_0_compat; [|discriminate].
    apply Qmult_le_0_compat; [exact Hd|discriminate]. }
  destruct (Qle_bool 1000 (value + delta / (1667 # 100) * (1 # 20) * speed))
    eqn:E.
  - split; [apply Qle_refl|]. split; [reflexivity|left; reflexivity].
  - split; [|split].
    + rewrite <- (Qplus_0_r 0). apply Qplus_le_compat; assumption.
    + apply Qnot_le_lt. intros H. apply Qle_bool_iff in H. congruence.
    + right. rewrite <- (Qplus_0_r value) at 1.
      apply Qplus_le_compat; [apply Qle_refl|exact Hinc].
Qed.

Lemma animate_in_range_witness :
  (0 <= animate 4 (1667 # 100) 999)%Q /\ (animate 4 (1667 # 100) 999 < 1000)%Q.
Proof.
  destruct (animate_in_range 4 (1667 # 100) 999) as (H1 & H2 & _);
    [discriminate|discriminate|discriminate|].
  split; assumption.
Defined.

(** *** The list of recent trips *)

Lemma insert_recent_perm x l : insert_recent x l ≡ₚ x :: l.
Proof.
  induction l as [|y l IH]; cbn [insert_recent]; [reflexivity|].
  destruct (startTime (lt_trip y) <=? startTime (lt_trip x))%Z; [reflexivity|].
  rewrite IH. apply Permutation_swap.
Qed.

Lemma sort_recent_perm l : sort_recent l ≡ₚ l.
Proof.
  induction l as [|x l IH]; [reflexivity|].
  cbn [sort_recent foldr]. fold (sort_recent l).
  rewrite insert_recent_perm, IH. reflexivity.
Qed.

Lemma insert_recent_from x : forall t l,
  (startTime (lt_trip x) <= t)%Z -> newest_first_from t l ->
  newest_first_from t (insert_recent x l).
Proof.
  intros t l. revert t. induction l as [|y l IH]; intros t Ht Hl.
  - cbn. auto.
  - destruct Hl as [Hy Hl]. cbn [insert_recent].
    destruct (Z.leb_spec (startTime (lt_trip y)) (startTime (lt_trip x))).
    + cbn. auto.
    + cbn [newest_first_from]. split; [exact Hy|]. apply IH; [lia|exact Hl].
Qed.

Lemma sort_recent_sorted l : newest_first (sort_recent l).
Proof.
  induction l as [|x l IH]; [exact I|].
  cbn [sort_recent foldr]. fold (sort_recent l).
  destruct (sort_recent l) as [|y l'] eqn:E; [exact I|].
  cbn [insert_recent newest_first] in IH |- *.
  destruct (Z.leb_spec (startTime (lt_trip y)) (startTime (lt_trip x))).
  - cbn. auto.
  - cbn [newest_first]. apply insert_recent_from; [lia|exact IH].
Qed.

Lemma newest_first_from_all : forall l t,
  newest_first_from t l ->
  Forall (fun y => (startTime (lt_trip y) <= t)%Z) l.
Proof.
  induction l as [|x l IH]; intros t H; [constructor|].
  destruct H as [Hx Hl]. constructor; [exact Hx|].
  eapply Forall_impl; [apply IH; exact Hl|]. cbn. intros y Hy. lia.
Qed.

Lemma newest_first_lookup : forall l i j x y,
  newest_first l -> (i <= j)%nat ->
  l !! i = Some x -> l !! j = Some y ->
  (startTime (lt_trip y) <= startTime (lt_trip x))%Z.
Proof.
  induction l as [|a l IH]; intros i j x y Hs Hij Hi Hj; [discriminate|].
  cbn [newest_first] in Hs.
  destruct i as [|i]; destruct j as [|j]; try lia.
  - cbn in Hi, Hj. injection Hi as <-. injection Hj as <-. lia.
  - cbn in Hi, Hj. injection Hi as <-.
    pose proof (newest_first_from_all _ _ Hs) as Hall.
    rewrite Forall_forall in Hall. apply Hall.
    apply list_elem_of_lookup. eauto.
  - cbn in Hi, Hj. apply (IH i j); [|lia|exact Hi|exact Hj].
    destruct l as [|b l]; [exact I|]. destruct Hs as [_ Hs]. exact Hs.
Qed.

(** X24. The trip list shows at most six trips, newest start first; each
    is a trip of the route of the person it is shown for; and the trips
    it leaves out all start no later than every trip it shows. Shown and
    left out together are exactly the trips of all routes. *)
Theorem recent_trips_newest (routes : list (string * Route)) :
  (length (recent_trips routes) <= 6)%nat /\
  (forall i j x y, (i <= j)%nat ->
     recent_trips routes !! i = Some x -> recent_trips routes !! j = Some y ->
     (startTime (lt_trip y) <= startTime (lt_trip x))%Z) /\
  Forall (fun x => exists route,
            In (lt_person x, route) routes /\ In (lt_trip x) (trips route))
         (recent_trips routes) /\
  exists rest,
    allTrips routes ≡ₚ recent_trips routes ++ rest /\
    length rest = (length (allTrips routes) - 6)%nat /\
    Forall (fun x => Forall (fun y => (startTime (lt_trip y)
                                       <= startTime (lt_trip x))%Z) rest)
           (recent_trips routes).
Proof.
  unfold recent_trips.
  pose proof (sort_recent_sorted (allTrips routes)) as Hsorted.
  pose proof (sort_recent_perm (allTrips routes)) as Hperm.
  split; [rewrite length_take; lia|]. split; [|split].
  - intros i j x y Hij Hi Hj.
    apply lookup_take_Some in Hi as [Hi _]. apply lookup_take_Some in Hj as [Hj _].
    exact (newest_first_lookup _ i j x y Hsorted Hij Hi Hj).
  - apply Forall_forall. intros x Hx.
    assert (Hin : x ∈ allTrips routes).
    { rewrite <- Hperm. eapply elem_of_sublist; [exact Hx|apply sublist_take]. }
    apply list_elem_of_In in Hin. unfold allTrips in Hin.
    apply in_flat_map in Hin as ([name route] & Hr & Hx').
    apply in_map_iff in Hx' as (t & <- & Ht). cbn [lt_person lt_trip fst snd].
    exists route. split; assumption.
  - exists (drop 6 (sort_recent (allTrips routes))).
    split; [rewrite take_drop; symmetry; exact Hperm|]. split.
    + rewrite length_drop. apply Permutation_length in Hperm. lia.
    + apply Forall_forall. intros x Hx. apply Forall_forall. intros y Hy.
      apply list_elem_of_lookup in Hx as [i Hi].
      apply list_elem_of_lookup in Hy as [j Hj].
      apply lookup_take_Some in Hi as [Hi Hi6].
      rewrite lookup_drop in Hj.
      apply (newest_first_lookup _ i (6 + j) x y Hsorted); [lia|exact Hi|exact Hj].
Qed.

(** *** Auto-follow *)

Lemma checkAutoFollow_cases target now name lastPan :
  _checkAutoFollow target now name lastPan = (false, lastPan) \/
  (_checkAutoFollow target now name lastPan = (true, now) /\
   (lastPan = 0 \/ 1000 <= now - lastPan)%Z /\
   target <> Some "off" /\
   (target = Some "all" \/ target = Some name)).
Proof.
  unfold _checkAutoFollow.
  destruct (truthy_str target); cbn [negb orb]; [|left; reflexivity].
  destruct (bool_decide (target = Some "off")) eqn:Eoff; [left; reflexivity|].
  apply bool_decide_eq_false in Eoff.
  destruct (Z.eqb_spec lastPan 0) as [Hz|Hz]; cbn [negb andb].
  - destruct (bool_decide (target = Some "all")) eqn:Eall; cbn [orb].
    + apply bool_decide_eq_true in Eall. right. auto.
    + destruct (bool_decide (target = Some name)) eqn:Ename;
        [|left; reflexivity].
      apply bool_decide_eq_true in Ename. right. auto.
  - destruct (Z.ltb_spec (now - lastPan) 1000); [left; reflexivity|].
    destruct (bool_decide (target = Some "all")) eqn:Eall; cbn [orb].
    + apply bool_decide_eq_true in Eall. right. auto.
    + destruct (bool_decide (target = Some name)) eqn:Ename;
        [|left; reflexivity].
      apply bool_decide_eq_true in Ename. right. auto.
Qed.

Lemma follow_run_spaced target : forall calls lastPan,
  (forall c, In c calls -> c.1 <> 0%Z) ->
  (forall b, head (follow_run target calls lastPan) = Some b ->
             (lastPan = 0 \/ 1000 <= b - lastPan)%Z) /\
  (forall i a b,
      follow_run target calls lastPan !! i = Some a ->
      follow_run target calls lastPan !! S i = Some b ->
      (1000 <= b - a)%Z) /\
  Forall (fun t => exists name,
            In (t, name) calls /\ target <> Some "off" /\
            (target = Some "all" \/ target = Some name))
         (follow_run target calls lastPan).
Proof.
  induction calls as [|[now name] calls IH]; intros lastPan Hclock.
  - cbn. split; [discriminate|]. split; [discriminate|constructor].
  - cbn [follow_run].
    assert (Hrest : forall c, In c calls -> c.1 <> 0%Z)
      by (intros c Hc; apply Hclock; right; exact Hc).
    destruct (checkAutoFollow_cases target now name lastPan)
      as [->|(-> & Hgap & Hoff & Hwho)]; cbn [fst snd app].
    + destruct (IH lastPan Hrest) as (H1 & H2 & H3).
      split; [exact H1|]. split; [exact H2|].
      eapply Forall_impl; [exact H3|]. cbn. intros t (n & Hn & Ht).
      exists n. split; [right; exact Hn|exact Ht].
    + destruct (IH now Hrest) as (H1 & H2 & H3).
      assert (Hnow : now <> 0%Z) by (apply (Hclock (now, name)); left; reflexivity).
      split; [|split].
      * intros b Hb. cbn in Hb. injection Hb as <-. exact Hgap.
      * intros i a b Ha Hb. destruct i as [|i].
        -- cbn in Ha. injection Ha as <-. cbn in Hb.
           destruct (H1 b) as [Hz|Hz]; [|contradiction|exact Hz].
           destruct (follow_run target calls now); [discriminate|].
           cbn in Hb |- *. exact Hb.
        -- cbn in Ha, Hb. exact (H2 i a b Ha Hb).
      * constructor.
        -- exists name. split; [left; reflexivity|]. split; assumption.
        -- eapply Forall_impl; [exact H3|]. cbn. intros t (n & Hn & Ht).
           exists n. split; [right; exact Hn|exact Ht].
Qed.

(** X25. Over any series of _checkAutoFollow calls made at clock readings
    other than 0, starting with no earlier pan, two successive pan
    requests are at least 1000 ms apart, and every pan request is made at
    the instant of a call for the followed person (any person when the
    target is all, none when it is off). *)
Theorem autoFollow_rate_limit (target : option string)
    (calls : list (Z * string)) :
  (forall c, In c calls -> c.1 <> 0%Z) ->
  (forall i a b,
      follow_run target calls 0 !! i = Some a ->
      follow_run target calls 0 !! S i = Some b ->
      (1000 <= b - a)%Z) /\
  Forall (fun t => exists name,
            In (t, name) calls /\ target <> Some "off" /\
            (target = Some "all" \/ target = Some name))
         (follow_run target calls 0).
Proof.
  intros Hclock. destruct (follow_run_spaced target calls 0 Hclock) as (_ & H2 & H3).
  split; assumption.
Qed.

Lemma autoFollow_rate_limit_witness :
  follow_run (Some "all") [(5000%Z, "ann"); (5400%Z, "bob"); (6100%Z, "ann")] 0
  = [5000%Z; 6100%Z] /\
  (1000 <= 6100 - 5000)%Z.
Proof.
  split; [reflexivity|].
  refine (proj1 (autoFollow_rate_limit (Some "all")
            [(5000%Z, "ann"); (5400%Z, "bob"); (6100%Z, "ann")] _)
            0%nat 5000%Z 6100%Z eq_refl eq_refl).
  intros c [<-|[<-|[<-|[]]]]; discriminate.
Defined.

(** *** Markers along the timeline *)

Lemma current_mono tl v v' :
  (tl_start tl <= tl_end tl)%Z -> (v <= v')%Q ->
  (tl_current (_onTimelineChange v tl)
   <= tl_current (_onTimelineChange v' tl))%Z.
Proof.
  intros Hse Hv. unfold _onTimelineChange. cbn [tl_current].
  apply time_clip_mono. apply Qplus_le_r. apply Qmult_le_compat_r.
  - apply Qmult_le_compat_r; [exact Hv|]. discriminate.
  - change 0%Q with (inject_Z 0). rewrite <- Zle_Qle. lia.
Qed.

Lemma current_ends tl :
  tl_current (_onTimelineChange 0 tl) = tl_start tl /\
  tl_current (_onTimelineChange 1000 tl) = tl_end tl.
Proof.
  unfold _onTimelineChange. cbn [tl_current]. split.
  - apply time_clip_eq. field.
  - apply time_clip_eq. unfold Z.sub.
    rewrite inject_Z_plus, inject_Z_opp. field.
Qed.

Lemma scan_ge t : forall pts point,
  Props.time_ordered pts = true ->
  Forall (fun q => (timestamp point <= timestamp q)%Z) pts ->
  (timestamp point <= timestamp (Playback.scan t pts point))%Z.
Proof.
  induction pts as [|p rest IH]; intros point Hord Hall;
    cbn [Playback.scan]; [lia|].
  destruct (Z.leb_spec (timestamp p) t); [|lia].
  destruct (PlaybackFacts.time_ordered_cons _ _ Hord) as [Hr Hp].
  specialize (IH p Hr Hp). pose proof (Forall_inv Hall) as H0. cbn in H0. lia.
Qed.

Lemma scan_mono t1 t2 : (t1 <= t2)%Z -> forall pts point,
  Props.time_ordered pts = true ->
  Forall (fun q => (timestamp point <= timestamp q)%Z) pts ->
  (timestamp (Playback.scan t1 pts point)
   <= timestamp (Playback.scan t2 pts point))%Z.
Proof.
  intros Ht. induction pts as [|p rest IH]; intros point Hord Hall;
    cbn [Playback.scan]; [lia|].
  destruct (PlaybackFacts.time_ordered_cons _ _ Hord) as [Hr Hp].
  pose proof (Forall_inv Hall) as H0. cbn in H0.
  destruct (Z.leb_spec (timestamp p) t1) as [H1|H1].
  - destruct (Z.leb_spec (timestamp p) t2) as [H2|H2]; [|lia].
    apply IH; assumption.
  - destruct (Z.leb_spec (timestamp p) t2) as [H2|H2]; [|lia].
    pose proof (scan_ge t2 rest p Hr Hp). lia.
Qed.

Lemma lookupPoint_mono t1 t2 pts :
  (t1 <= t2)%Z -> Props.time_ordered pts = true ->
  match Playback.lookupPoint t1 pts, Playback.lookupPoint t2 pts with
  | Some p, Some q => (timestamp p <= timestamp q)%Z
  | None, None => True
  | _, _ => False
  end.
Proof.
  intros Ht Hord. destruct pts as [|p0 rest]; [exact I|].
  unfold Playback.lookupPoint. apply scan_mono; [exact Ht|exact Hord|].
  constructor; [lia|]. apply (PlaybackFacts.time_ordered_cons _ _ Hord).
Qed.

Lemma markers_mono t1 t2 routes :
  (t1 <= t2)%Z -> ordered_routes routes ->
  Forall2 not_earlier (_updateMarkersToTime t1 routes)
                      (_updateMarkersToTime t2 routes).
Proof.
  intros Ht Hord. unfold _updateMarkersToTime.
  induction Hord as [|nr routes Hnr Hrest IH]; cbn [map]; constructor;
    [|exact IH].
  split; [reflexivity|]. cbn [snd]. apply lookupPoint_mono; assumption.
Qed.

(** X26. Moving the timeline slider to a larger position never moves a
    marker to an earlier point of its route: for a timeline whose start
    is not after its end and routes whose points are in time order, every
    person's marker at the larger position is at a point whose timestamp
    is not smaller, and a person without points has no marker moved at
    either position. *)
Theorem markers_move_forward (tl : Timeline) (v v' : Q)
    (routes : list (string * Route)) :
  (tl_start tl <= tl_end tl)%Z -> (v <= v')%Q -> ordered_routes routes ->
  Forall2 not_earlier (markers_at tl routes v) (markers_at tl routes v').
Proof.
  intros Hse Hv Hord. unfold markers_at.
  apply markers_mono; [|exact Hord]. apply current_mono; assumption.
Qed.

Lemma markers_move_forward_witness :
  Forall2 not_earlier (markers_at sample_timeline sample_routes 10)
                      (markers_at sample_timeline sample_routes 900).
Proof.
  apply (markers_move_forward sample_timeline 10 900 sample_routes).
  - cbn. lia.
  - discriminate.
  - constructor; [reflexivity|constructor].
Defined.

Lemma iter_forward n : forall value,
  (0 <= value <= 1000)%Z ->
  Nat.iter n _forward value = Z.min 1000 (value + 50 * Z.of_nat n).
Proof.
  induction n as [|n IH]; intros value Hv.
  - change (Nat.iter 0 _forward value) with value. lia.
  - change (Nat.iter (S n) _forward value) with (_forward (Nat.iter n _forward value)).
    rewrite IH by exact Hv. unfold _forward. lia.
Qed.

Lemma iter_rewind n : forall value,
  (0 <= value <= 1000)%Z ->
  Nat.iter n _rewind value = Z.max 0 (value - 50 * Z.of_nat n).
Proof.
  induction n as [|n IH]; intros value Hv.
  - change (Nat.iter 0 _rewind value) with value. lia.
  - change (Nat.iter (S n) _rewind value) with (_rewind (Nat.iter n _rewind value)).
    rewrite IH by exact Hv. unfold _rewind. lia.
Qed.

(** X27. The rewind and forward buttons keep a slider position from 0 to
    1000 in that range; on a timeline whose start is not after its end
    the current instant after rewind is not later, and after forward not
    earlier, than at the position itself, and all three stay between
    start and end; twenty presses of forward reach the end of the
    timeline and twenty presses of rewind its start. *)
Theorem rewind_forward_between (tl : Timeline) (value : Z) :
  (tl_start tl <= tl_end tl)%Z -> (0 <= value <= 1000)%Z ->
  (0 <= _rewind value <= value)%Z /\
  (value <= _forward value <= 1000)%Z /\
  (tl_start tl <= current_at tl (_rewind value))%Z /\
  (current_at tl (_rewind value) <= current_at tl value)%Z /\
  (current_at tl value <= current_at tl (_forward value))%Z /\
  (current_at tl (_forward value) <= tl_end tl)%Z /\
  current_at tl (Nat.iter 20 _forward value) = tl_end tl /\
  current_at tl (Nat.iter 20 _rewind value) = tl_start tl.
Proof.
  intros Hse Hv.
  assert (Hr : (0 <= _rewind value <= value)%Z) by (unfold _rewind; lia).
  assert (Hf : (value <= _forward value <= 1000)%Z) by (unfold _forward; lia).
  destruct (current_ends tl) as [H0 H1000].
  assert (Hmono : forall a b, (a <= b)%Z ->
            (current_at tl a <= current_at tl b)%Z).
  { intros a b Hab. unfold current_at. apply current_mono; [exact Hse|].
    rewrite <- Zle_Qle. exact Hab. }
  change (tl_current (_onTimelineChange 0 tl)) with (current_at tl 0) in H0.
  change (tl_current (_onTimelineChange 1000 tl))
    with (current_at tl 1000) in H1000.
  split; [exact Hr|]. split; [exact Hf|].
  split; [rewrite <- H0; apply Hmono; lia|].
  split; [apply Hmono; lia|]. split; [apply Hmono; lia|].
  split; [rewrite <- H1000; apply Hmono; lia|].
  split.
  - rewrite iter_forward by exact Hv.
    replace (Z.min 1000 (value + 50 * Z.of_nat 20)) with 1000%Z by lia.
    exact H1000.
  - rewrite iter_rewind by exact Hv.
    replace (Z.max 0 (value - 50 * Z.of_nat 20)) with 0%Z by lia.
    exact H0.
Qed.

Lemma rewind_forward_between_witness :
  (0 <= _rewind 30 <= 30)%Z /\
  current_at sample_timeline (Nat.iter 20 _forward 30%Z) = 86400000%Z.
Proof.
  destruct (rewind_forward_between sample_timeline 30%Z)
    as (H1 & _ & _ & _ & _ & _ & H7 & _); [cbn; lia|lia|].
  split; [exact H1|exact H7].
Defined.

(** *** The analytics panel *)




End CardMore.

(** ** TimeUtils: the text of a duration *)

Module TimeMore.
Import TimeUtils.

(** Linear arithmetic over the rationals, with the divisions by the
    constants of the script written as multiplications. *)
Ltac qlra :=
  unfold Qdiv in *;
  change (/ 3600)%Q with (1 # 3600)%Q in *;
  change (/ 60)%Q with (1 # 60)%Q in *;
  Lqa.lra.

Lemma Qltb_iff a b : Qltb a b = true <-> (a < b)%Q.
Proof.
  unfold Qltb. rewrite negb_true_iff. split.
  - intros H. apply Qnot_le_lt. intros Hle.
    apply Qle_bool_iff in Hle. congruence.
  - intros H. destruct (Qle_bool b a) eqn:E; [|reflexivity].
    apply Qle_bool_iff in E. apply Qlt_not_le in H. contradiction.
Qed.

Lemma Qltb_ge a b : Qltb a b = false <-> (b <= a)%Q.
Proof. unfold Qltb. rewrite negb_false_iff. apply Qle_bool_iff. Qed.

(** The test [!x || x < 0] on a number. *)
Lemma nonpos_test x :
  (Qeq_bool x 0 || Qltb x 0 = true /\ (x <= 0)%Q) \/
  (Qeq_bool x 0 || Qltb x 0 = false /\ (0 < x)%Q).
Proof.
  destruct (Qeq_bool x 0) eqn:E0; cbn [orb].
  - left. split; [reflexivity|]. apply Qeq_bool_iff in E0. rewrite E0.
    apply Qle_refl.
  - destruct (Qltb x 0) eqn:E1.
    + left. split; [reflexivity|]. apply Qltb_iff in E1.
      apply Qlt_le_weak. exact E1.
    + right. split; [reflexivity|]. apply Qltb_ge in E1.
      apply Qle_lteq in E1 as [H|H]; [exact H|].
      symmetry in H. apply Qeq_bool_iff in H. congruence.
Qed.

Lemma floor_range (lo hi : Z) (y : Q) :
  (inject_Z lo <= y)%Q -> (y < inject_Z hi + 1)%Q ->
  (lo <= Qfloor y <= hi)%Z.
Proof.
  intros Hlo Hhi. split.
  - rewrite <- (Qfloor_Z lo). apply Qfloor_resp_le. exact Hlo.
  - pose proof (Qfloor_le y) as Hf.
    assert (H : (inject_Z (Qfloor y) < inject_Z (hi + 1))%Q).
    { rewrite inject_Z_plus. change (inject_Z 1) with 1%Q. Lqa.lra. }
    rewrite <- Zlt_Qlt in H. lia.
Qed.

Lemma floor_lower (lo : Z) (y : Q) :
  (inject_Z lo <= y)%Q -> (lo <= Qfloor y)%Z.
Proof.
  intros Hlo. rewrite <- (Qfloor_Z lo). apply Qfloor_resp_le. exact Hlo.
Qed.

Lemma floor_bounds (y : Q) :
  (inject_Z (Qfloor y) <= y)%Q /\ (y < inject_Z (Qfloor y) + 1)%Q.
Proof.
  split; [apply Qfloor_le|]. pose proof (Qlt_floor y) as H.
  rewrite inject_Z_plus in H. exact H.
Qed.

Lemma round_bounds (x : Q) :
  (x - (1 # 2) < inject_Z (CrashDetector.round x))%Q /\
  (inject_Z (CrashDetector.round x) <= x + (1 # 2))%Q.
Proof.
  unfold CrashDetector.round.
  destruct (floor_bounds (x + (1 # 2))) as [H1 H2]. split; Lqa.lra.
Qed.

(** X29. The text of a duration is accurate, for a duration below 2^53
    seconds. Nothing positive gives
    0m; under a minute the text is a whole number of seconds from 0 to 60
    within half a second of the duration; under an hour it is a whole
    number of minutes from 1 to 60 within 30 seconds of it; from an hour
    on it is a number of hours, at least 1, and a number of minutes from
    0 to 60 (left out when 0) that together are within 30 seconds of the
    duration. *)
Theorem formatDuration_accuracy (sec : Q) :
  (sec < inject_Z plain_bound)%Q ->
  ((sec <= 0)%Q /\ formatDuration (Some sec) = "0m") \/
  ((0 < sec)%Q /\ (sec < 60)%Q /\
   exists s : Z,
     formatDuration (Some sec) = (show s ++ "s")%string /\
     (0 <= s <= 60)%Z /\
     (sec - (1 # 2) < inject_Z s)%Q /\ (inject_Z s <= sec + (1 # 2))%Q) \/
  ((60 <= sec)%Q /\ (sec < 3600)%Q /\
   exists m : Z,
     formatDuration (Some sec) = (show m ++ "m")%string /\
     (1 <= m <= 60)%Z /\
     (sec - 30 < 60 * inject_Z m)%Q /\ (60 * inject_Z m <= sec + 30)%Q) \/
  ((3600 <= sec)%Q /\
   exists h m : Z,
     formatDuration (Some sec)
     = (if (0 <? m)%Z then show h ++ "h " ++ show m ++ "m"
        else show h ++ "h")%string /\
     (1 <= h < plain_bound)%Z /\ (0 <= m <= 60)%Z /\
     (sec - 30 < 3600 * inject_Z h + 60 * inject_Z m)%Q /\
     (3600 * inject_Z h + 60 * inject_Z m <= sec + 30)%Q).
Proof.
  intros Hbound. unfold formatDuration.
  destruct (nonpos_test sec) as [[-> Hle]|[-> Hpos]].
  { left. split; [exact Hle|reflexivity]. }
  right. destruct (Qltb sec 60) eqn:E60.
  { left. apply Qltb_iff in E60. split; [exact Hpos|]. split; [exact E60|].
    exists (CrashDetector.round sec). split; [reflexivity|].
    destruct (round_bounds sec) as [H1 H2]. split; [|split; assumption].
    unfold CrashDetector.round. apply floor_range.
    - change (inject_Z 0) with 0%Q. Lqa.lra.
    - change (inject_Z 60) with 60%Q. Lqa.lra. }
  right. apply Qltb_ge in E60. destruct (Qltb sec 3600) eqn:E3600.
  { left. apply Qltb_iff in E3600. split; [exact E60|]. split; [exact E3600|].
    exists (CrashDetector.round (sec / 60)). split; [reflexivity|].
    destruct (round_bounds (sec / 60)) as [H1 H2].
    split; [|split; qlra].
    unfold CrashDetector.round. apply floor_range.
    - change (inject_Z 1) with 1%Q. qlra.
    - change (inject_Z 60) with 60%Q. qlra. }
  right. apply Qltb_ge in E3600. split; [exact E3600|].
  exists (Qfloor (sec / 3600)), (CrashDetector.round (mod3600 sec / 60)).
  split; [reflexivity|].
  destruct (floor_bounds (sec / 3600)) as [Hh1 Hh2].
  destruct (round_bounds (mod3600 sec / 60)) as [H1 H2].
  unfold mod3600 in *.
  split; [|split; [|split; qlra]].
  - split; [apply floor_lower; change (inject_Z 1) with 1%Q; qlra|].
    rewrite Zlt_Qlt. qlra.
  - unfold CrashDetector.round. apply floor_range.
    + change (inject_Z 0) with 0%Q. qlra.
    + change (inject_Z 60) with 60%Q. qlra.
Qed.

Lemma formatDuration_accuracy_witness :
  formatDuration (Some 7199%Q) = "1h 60m" /\
  exists h m : Z,
    formatDuration (Some 7199%Q)
    = (if (0 <? m)%Z then show h ++ "h " ++ show m ++ "m"
       else show h ++ "h")%string /\
    (1 <= h < plain_bound)%Z /\ (0 <= m <= 60)%Z /\
    (7199 - 30 < 3600 * inject_Z h + 60 * inject_Z m)%Q /\
    (3600 * inject_Z h + 60 * inject_Z m <= 7199 + 30)%Q.
Proof.
  split; [reflexivity|].
  destruct (formatDuration_accuracy 7199%Q) as [[H _]|[(_ & H & _)|[(_ & H & _)|[_ H]]]].
  - reflexivity.
  - exfalso. apply (Qlt_irrefl 0). eapply Qlt_le_trans; [|exact H]. reflexivity.
  - exfalso. apply (Qlt_irrefl 60). eapply Qlt_trans; [|exact H]. reflexivity.
  - exfalso. apply (Qlt_irrefl 3600). eapply Qlt_trans; [|exact H]. reflexivity.
  - exact H.
Defined.

End TimeMore.
